(** * CrowdX: a shallow embedding of the reactive tracking runtime

    The development follows [crowdx.mjs]: the [CrowdXTrackingStore]
    singleton (its three fields and its methods), the proxy handler
    ([get] and [set] traps, array mutation methods), and the external API
    ([observable], [reaction], [action], [computed], [dispose]).

    JavaScript objects, [Set]s and closures have identity; they live in an
    explicit heap and are referred to by location.  A [Set] is modelled as
    the ECMAScript specification describes it: an append-only list of
    entries in which a deleted entry leaves an empty slot, so that a
    [for..of] loop over a set that is modified while it runs behaves as in
    the engine.  User code (tracked functions, effect functions, action
    bodies) is a tree of calls into the runtime whose continuations are
    Rocq functions.  Execution is a state-and-exception monad; re-entrant
    calls (a write runs reactions, which write, ...) are bounded by fuel.

    What the model leaves out: the members an object inherits from its
    prototype (a key names an own property; of an array, an element or
    [length]), apart from the method [hasOwnProperty] that the [set] trap
    calls on its target; sparse arrays and assignments to [length] other
    than truncation; the place [Object.keys] gives to keys made of digits;
    functions as property values; and the array methods [splice] and
    [sort].  A statement on reads or writes that depends on one of these
    says so in its hypotheses ([Object_prototype_names], [digits_only],
    [plain_key], [inherits_hasOwnProperty]).  The state carries, besides
    the fields the source has, the history of the calls to [publish] and
    to effect functions, which no code reads.

    The first part holds the definitions, the second the lemmas and the
    theorems, one group for each property of the specification that is
    checked (C1 to C10); the third part holds further properties of the
    same functions (X1 to X21). *)

From stdpp Require Import gmap strings list fin_maps pretty.
From Stdlib Require Import ZArith Lia Ascii.

Open Scope Z_scope.
Open Scope nat_scope.

(** ** Identities *)

(** A reaction function ([reactionFn] in [reaction]), a reaction-set (a
    [Set] of reaction functions) and an object are each known by the
    location they were allocated at. *)
Abbreviation RId := nat (only parsing).
Abbreviation SetRef := nat (only parsing).
Abbreviation Loc := nat (only parsing).

(** ** JavaScript [Set] *)

Module JSSet.
Section JSSet.
Context {A : Type} `{EqDecision A}.

(** Entries in insertion order; [None] is the slot of a deleted entry. *)
Definition t := list (option A).

Definition empty : t := [].

Definition has (x : A) (s : t) : bool := bool_decide (Some x ∈ s).

Definition add (x : A) (s : t) : t :=
  if has x s then s else s ++ [Some x].

Definition delete (x : A) (s : t) : t :=
  (λ e, if decide (e = Some x) then None else e) <$> s.

(** The values a loop over an unchanging set visits, in order. *)
Definition elements (s : t) : list A := omap id s.
End JSSet.
Global Arguments t : clear implicits.
End JSSet.

(** ** Values and objects *)

Inductive Value : Type :=
  | VUndef
  | VNull
  | VBool (b : bool)
  | VNum (n : Z)
  | VNaN
  | VStr (s : string)
  | VRef (l : Loc).

Global Instance Value_eq_dec : EqDecision Value.
Proof. solve_decision. Defined.

(** [a === b]: primitives by value (NaN equals nothing), objects by
    identity. *)
Definition strict_eq (a b : Value) : bool :=
  match a, b with
  | VUndef, VUndef => true
  | VNull, VNull => true
  | VBool x, VBool y => bool_decide (x = y)
  | VNum x, VNum y => bool_decide (x = y)
  | VStr x, VStr y => bool_decide (x = y)
  | VRef x, VRef y => bool_decide (x = y)
  | _, _ => false
  end.

(** [typeof val === "object" && val != null] *)
Definition is_object (v : Value) : bool :=
  match v with VRef _ => true | _ => false end.

(** An object or array.  [proxied] tells whether the location denotes a
    [Proxy] built by [observable] (the proxy and its private target are one
    cell) or a plain object; the two hidden symbol-keyed properties
    [PROPERTY_REACTIONS] and [PARENT_REACTIONS] are record fields.  Own
    enumerable properties are kept in insertion order; the elements of an
    array are the properties named by their index. *)
Record Obj : Type := mkObj {
  is_array : bool;
  props : list (string * Value);
  proxied : bool;
  PROPERTY_REACTIONS : gmap string SetRef;
  PARENT_REACTIONS : option SetRef;
}.

Definition empty_obj : Obj := mkObj false [] false ∅ None.

Fixpoint lookup_prop (k : string) (ps : list (string * Value)) : option Value :=
  match ps with
  | [] => None
  | (k', v) :: ps' => if decide (k' = k) then Some v else lookup_prop k ps'
  end.

(** What [Object.prototype.hasOwnProperty] answers for the target; an
    array owns [length].  (The [set] trap calls [target.hasOwnProperty],
    see [not_hasOwnProperty].) *)
Definition hasOwnProperty (o : Obj) (k : string) : bool :=
  (is_array o && bool_decide (k = "length"))
  || bool_decide (is_Some (lookup_prop k (props o))).

(** [target[prop]] for an own data property; an absent one reads
    [undefined], as it does for every key that the prototype does not
    define (see [Object_prototype_names]).  Arrays are dense, their
    [length] is the number of elements. *)
Definition read_own (o : Obj) (k : string) : Value :=
  if is_array o && bool_decide (k = "length")
  then VNum (Z.of_nat (length (props o)))
  else default VUndef (lookup_prop k (props o)).

Fixpoint assign_prop (k : string) (v : Value) (ps : list (string * Value))
  : list (string * Value) :=
  match ps with
  | [] => [(k, v)]
  | (k', v') :: ps' =>
      if decide (k' = k) then (k, v) :: ps' else (k', v') :: assign_prop k v ps'
  end.

(** [target[prop] = v] on the raw target: a new key is added last.  Of an
    array, the model covers [push] and the other methods of
    [apply_method]; an assignment to [length] truncates it, for a number
    between 0 and the length (any other throws [RangeError] or leaves
    holes), and the statements below on assignments are about objects that
    are not arrays. *)
Definition write_own (k : string) (v : Value) (o : Obj) : Obj :=
  let ps :=
    if is_array o && bool_decide (k = "length") then
      match v with
      | VNum n => take (Z.to_nat n) (props o)
      | _ => props o
      end
    else assign_prop k v (props o) in
  mkObj (is_array o) ps (proxied o) (PROPERTY_REACTIONS o) (PARENT_REACTIONS o).

(** ** Keys and the prototype *)

(** The names that [Object.prototype] defines (ECMAScript, with the legacy
    accessors of its Annex B).  Where an object has no own property of
    such a name, [target[name]] finds the inherited member, and so does
    the plain object [target[PROPERTY_REACTIONS]]: the [set] trap then
    creates no reaction-set for the name.  [read_own] and the traps below
    do not follow the prototype; the statements on the traps are about
    keys that are not in this list. *)
Definition Object_prototype_names : list string :=
  ["constructor"; "hasOwnProperty"; "isPrototypeOf"; "propertyIsEnumerable";
   "toLocaleString"; "toString"; "valueOf"; "__proto__";
   "__defineGetter__"; "__defineSetter__"; "__lookupGetter__"; "__lookupSetter__"].

Definition digit_chars : list ascii :=
  ["0"; "1"; "2"; "3"; "4"; "5"; "6"; "7"; "8"; "9"]%char.

Fixpoint all_digits (k : string) : bool :=
  match k with
  | EmptyString => true
  | String c k' => bool_decide (c ∈ digit_chars) && all_digits k'
  end.

(** A key written with decimal digits only.  The array indices, which
    [Object.keys] lists before all other keys and in ascending order
    whenever they were added, are such keys; [props] keeps insertion order,
    which is the order of [Object.keys] for the other keys. *)
Definition digits_only (k : string) : bool :=
  negb (bool_decide (k = EmptyString)) && all_digits k.

(** Neither the object nor the plain object of its [PROPERTY_REACTIONS]
    has an own property named [hasOwnProperty]: the calls
    [target.hasOwnProperty(prop)] of the [set] trap and
    [target[PROPERTY_REACTIONS].hasOwnProperty(prop)] of the [get] trap
    reach the method of [Object.prototype]. *)
Definition inherits_hasOwnProperty (o : Obj) : Prop :=
  hasOwnProperty o "hasOwnProperty" = false
  ∧ PROPERTY_REACTIONS o !! "hasOwnProperty" = None.

(** The keys of an object for which own properties in insertion order are
    all there is to it. *)
Definition plain_key (k : string) : Prop :=
  (k ∉ Object_prototype_names) ∧ digits_only k = false.

Global Instance plain_key_dec (k : string) : Decision (plain_key k).
Proof. unfold plain_key. apply _. Defined.

Definition reindex (vs : list Value) : list (string * Value) :=
  imap (λ i v, (pretty i, v)) vs.

(** The methods of [ARRAY_MUTATION_METHODS], with their arguments.
    [splice] and [sort] take further arguments and are left out. *)
Inductive ArrayMethod : Type :=
  | push (v : Value)
  | pop
  | fill (v : Value)
  | reverse_
  | shift
  | unshift (v : Value).

Definition method_name (m : ArrayMethod) : string :=
  match m with
  | push _ => "push"
  | pop => "pop"
  | fill _ => "fill"
  | reverse_ => "reverse"
  | shift => "shift"
  | unshift _ => "unshift"
  end.

(** [target[prop](...args)] on the raw array: the new elements and the
    value the method returns. *)
Definition apply_method (m : ArrayMethod) (o : Obj) (self : Value) : Obj * Value :=
  let vs := snd <$> props o in
  let '(vs', res) :=
    match m with
    | push v => (vs ++ [v], VNum (Z.of_nat (S (length vs))))
    | pop => (removelast vs, default VUndef (last vs))
    | fill v => (replicate (length vs) v, self)
    | reverse_ => (reverse vs, self)
    | shift => (tail vs, default VUndef (head vs))
    | unshift v => (v :: vs, VNum (Z.of_nat (S (length vs))))
    end in
  (mkObj (is_array o) (reindex vs') (proxied o)
     (PROPERTY_REACTIONS o) (PARENT_REACTIONS o), res).

(** ** User code *)

(** A tracked function, an effect function or an action body: what it asks
    of the runtime, each request with the continuation that receives the
    answer.  [Reaction], [Action] and [Dispose] are calls of the exported
    functions; [Action fn k] is one call of the function [action(fn)]
    returns. *)
Inductive Prog : Type :=
  | Ret (v : Value)
  | Raise (v : Value)
  | Alloc (arr : bool) (ps : list (string * Value)) (k : Value → Prog)
  | Observable (v : Value) (k : Value → Prog)
  | GetProp (o : Value) (p : string) (k : Value → Prog)
  | SetProp (o : Value) (p : string) (v : Value) (k : Prog)
  | Keys (o : Value) (k : list string → Prog)
  | CallMethod (o : Value) (m : ArrayMethod) (k : Value → Prog)
  | Reaction (trackedFn : Prog) (effectFn : Value → Prog) (k : RId → Prog)
  | Action (fn : Prog) (k : Prog)
  | Dispose (r : RId) (k : Prog).

(** ** State *)

(** [currentlyTracking] *)
Record Frame : Type := mkFrame {
  trackedFunction : RId;
  reactionSets : JSSet.t SetRef;
}.

Inductive Event : Type :=
  | EvPublish (rs : option SetRef)
  | EvEffect (r : RId) (v : Value).

(** The three fields of [CrowdXTrackingStore], the heap of reaction-sets,
    objects and reaction closures, and the history of calls to [publish]
    and to effect functions. *)
Record State : Type := mkState {
  reactionSubscriptionSets : gmap RId (JSSet.t SetRef);
  currentlyTracking : option Frame;
  currentActionReactionSets : option (JSSet.t (option SetRef));
  sets : gmap SetRef (JSSet.t RId);
  next_set : SetRef;
  objs : gmap Loc Obj;
  next_loc : Loc;
  reactions : gmap RId (Prog * (Value → Prog));
  next_reaction : RId;
  trace : list Event;
}.

Definition init : State := mkState ∅ None None ∅ 0 ∅ 0 ∅ 0 [].

Definition with_subscriptions (f : gmap RId (JSSet.t SetRef) → gmap RId (JSSet.t SetRef))
    (st : State) : State :=
  mkState (f (reactionSubscriptionSets st)) (currentlyTracking st)
    (currentActionReactionSets st) (sets st) (next_set st) (objs st) (next_loc st)
    (reactions st) (next_reaction st) (trace st).

Definition with_tracking (fr : option Frame) (st : State) : State :=
  mkState (reactionSubscriptionSets st) fr
    (currentActionReactionSets st) (sets st) (next_set st) (objs st) (next_loc st)
    (reactions st) (next_reaction st) (trace st).

Definition with_action (b : option (JSSet.t (option SetRef))) (st : State) : State :=
  mkState (reactionSubscriptionSets st) (currentlyTracking st)
    b (sets st) (next_set st) (objs st) (next_loc st)
    (reactions st) (next_reaction st) (trace st).

Definition with_sets (f : gmap SetRef (JSSet.t RId) → gmap SetRef (JSSet.t RId))
    (st : State) : State :=
  mkState (reactionSubscriptionSets st) (currentlyTracking st)
    (currentActionReactionSets st) (f (sets st)) (next_set st) (objs st) (next_loc st)
    (reactions st) (next_reaction st) (trace st).

Definition with_objs (f : gmap Loc Obj → gmap Loc Obj) (st : State) : State :=
  mkState (reactionSubscriptionSets st) (currentlyTracking st)
    (currentActionReactionSets st) (sets st) (next_set st) (f (objs st)) (next_loc st)
    (reactions st) (next_reaction st) (trace st).

Definition log (e : Event) (st : State) : State :=
  mkState (reactionSubscriptionSets st) (currentlyTracking st)
    (currentActionReactionSets st) (sets st) (next_set st) (objs st) (next_loc st)
    (reactions st) (next_reaction st) (trace st ++ [e]).

(** A location that was never allocated reads as an empty plain object, a
    reaction-set that was never allocated as an empty set; code obtains
    locations only from allocation. *)
Definition get_obj (l : Loc) (st : State) : Obj := default empty_obj (objs st !! l).
Definition get_set (s : SetRef) (st : State) : JSSet.t RId := default [] (sets st !! s).

(** [new Set()] *)
Definition new_set (st : State) : SetRef * State :=
  (next_set st,
   mkState (reactionSubscriptionSets st) (currentlyTracking st)
     (currentActionReactionSets st) (<[next_set st := JSSet.empty]> (sets st))
     (S (next_set st)) (objs st) (next_loc st)
     (reactions st) (next_reaction st) (trace st)).

Definition new_obj (o : Obj) (st : State) : Loc * State :=
  (next_loc st,
   mkState (reactionSubscriptionSets st) (currentlyTracking st)
     (currentActionReactionSets st) (sets st) (next_set st)
     (<[next_loc st := o]> (objs st)) (S (next_loc st))
     (reactions st) (next_reaction st) (trace st)).

(** A fresh closure [reactionFn] over [trackedFn] and [effectFn]. *)
Definition new_reaction (trackedFn : Prog) (effectFn : Value → Prog) (st : State)
  : RId * State :=
  (next_reaction st,
   mkState (reactionSubscriptionSets st) (currentlyTracking st)
     (currentActionReactionSets st) (sets st) (next_set st) (objs st) (next_loc st)
     (<[next_reaction st := (trackedFn, effectFn)]> (reactions st))
     (S (next_reaction st)) (trace st)).

(** [reactionSet.add(reaction)] and [reactionSet.delete(reaction)] *)
Definition set_add (s : SetRef) (r : RId) (st : State) : State :=
  with_sets (<[s := JSSet.add r (get_set s st)]>) st.

Definition set_delete (s : SetRef) (r : RId) (st : State) : State :=
  with_sets (<[s := JSSet.delete r (get_set s st)]>) st.

(** ** The tracking store: methods that run no user code *)

Definition beginTracking (func : RId) (st : State) : State :=
  let st := with_tracking (Some (mkFrame func JSSet.empty)) st in
  if bool_decide (is_Some (reactionSubscriptionSets st !! func)) then st
  else with_subscriptions (<[func := JSSet.empty]>) st.

Definition completeTracking (st : State) : State :=
  match currentlyTracking st with
  | Some fr =>
      with_tracking None
        (foldl (λ st reactionSet, set_add reactionSet (trackedFunction fr) st)
           st (JSSet.elements (reactionSets fr)))
  | None => st
  end.

Definition track (reactionSet : SetRef) (st : State) : State :=
  match currentlyTracking st with
  | Some fr =>
      let st := with_tracking
        (Some (mkFrame (trackedFunction fr) (JSSet.add reactionSet (reactionSets fr)))) st in
      with_subscriptions (alter (JSSet.add reactionSet) (trackedFunction fr)) st
  | None => st
  end.

Definition dispose (reaction : RId) (st : State) : State :=
  match reactionSubscriptionSets st !! reaction with
  | Some reactionSets =>
      with_subscriptions (delete reaction)
        (foldl (λ st reactionSet, set_delete reactionSet reaction st)
           st (JSSet.elements reactionSets))
  | None => st
  end.

Definition beginAction (st : State) : State :=
  with_action (Some JSSet.empty) st.

(** ** Results *)

Inductive Exn : Type :=
  | TypeError (msg : string)
  | Thrown_value (v : Value).

Inductive Result (A : Type) : Type :=
  | Done (a : A) (st : State)
  | Throws (e : Exn) (st : State)
  | Timeout.
Global Arguments Done {A} a st.
Global Arguments Throws {A} e st.
Global Arguments Timeout {A}.

Definition M (A : Type) : Type := State → Result A.

Definition ret {A} (a : A) : M A := λ st, Done a st.
Definition throw {A} (e : Exn) : M A := λ st, Throws e st.
Definition bind {A B} (m : M A) (k : A → M B) : M B :=
  λ st, match m st with
        | Done a st' => k a st'
        | Throws e st' => Throws e st'
        | Timeout => Timeout
        end.
Definition modify (f : State → State) : M unit := λ st, Done tt (f st).
Definition gets {A} (f : State → A) : M A := λ st, Done (f st) st.
Definition alloc {A} (f : State → A * State) : M A :=
  λ st, let '(a, st') := f st in Done a st'.

Declare Scope js_scope.
Delimit Scope js_scope with js.
Notation "'let!' x ':=' m 'in' k" := (bind m (λ x, k))
  (at level 10, x pattern, m at level 100, k at level 200) : js_scope.
Notation "m ';;' k" := (bind m (λ _, k))
  (at level 100, k at level 200, right associativity) : js_scope.
Open Scope js_scope.

Definition ARRAY_MUTATION_METHODS : list string :=
  ["push"; "pop"; "fill"; "splice"; "sort"; "reverse"; "shift"; "unshift"].

(** The hidden property keys. *)
Inductive HiddenSymbol : Type := PROPERTY_REACTIONS_sym | PARENT_REACTIONS_sym.

(** [Object.hasOwnProperty(sym)] as [observable] writes it: the receiver is
    the global [Object] constructor, which owns neither symbol, whatever
    value is being wrapped. *)
Definition Object_hasOwnProperty (sym : HiddenSymbol) : bool := false.

(** [!target.hasOwnProperty(prop)] as the [set] trap writes it.  The method
    is looked up on the target: an own property named [hasOwnProperty]
    hides the method of [Object.prototype], and calling it throws, since
    no value of the model is a function. *)
Definition not_hasOwnProperty (l : Loc) (prop : string) : M bool :=
  λ st,
    let target := get_obj l st in
    if hasOwnProperty target "hasOwnProperty"
    then Throws (TypeError "target.hasOwnProperty is not a function") st
    else Done (negb (hasOwnProperty target prop)) st.

(** ** The runtime: everything that can run a reaction *)

Section Runtime.
(** [reaction()] for a reaction function found in a set or just created:
    the recursive call of the interpreter, one level of fuel down. *)
Variable call : RId → M unit.

(** [for (const reaction of reactionSet) reaction()], from entry [i] on.
    The set is read again at every step: entries appended while the loop
    runs are visited, entries deleted ahead of it are not. *)
Fixpoint publish_loop (fuel : nat) (reactionSet : SetRef) (i : nat) : M unit :=
  match fuel with
  | 0 => λ _, Timeout
  | S fuel' => λ st,
      match get_set reactionSet st !! i with
      | None => Done tt st
      | Some None => publish_loop fuel' reactionSet (S i) st
      | Some (Some reaction) =>
          (call reaction;; publish_loop fuel' reactionSet (S i)) st
      end
  end.

(** [publish(reactionSet)]; an object without [PARENT_REACTIONS] passes
    [undefined], here [None]: the set [add] accepts it, the loop does
    not. *)
Definition publish (fuel : nat) (reactionSet : option SetRef) : M unit :=
  modify (log (EvPublish reactionSet));;
  λ st,
    match currentActionReactionSets st with
    | Some batch =>
        Done tt (with_action (Some (JSSet.add reactionSet batch)) st)
    | None =>
        match reactionSet with
        | Some s => publish_loop fuel s 0 st
        | None => Throws (TypeError "undefined is not iterable") st
        end
    end.

(** [for (const reaction of allReactions) reaction()]; [allReactions] is
    local to [publishAll], nothing changes it during the loop. *)
Fixpoint run_all (rs : list RId) : M unit :=
  match rs with
  | [] => ret tt
  | reaction :: rs' => call reaction;; run_all rs'
  end.

(** The nested loops that fill [allReactions]; [None] when one of the
    reaction sets is [undefined], which the inner loop cannot iterate. *)
Fixpoint collect_reactions (st : State) (reactionSets : list (option SetRef))
    (allReactions : JSSet.t RId) : option (JSSet.t RId) :=
  match reactionSets with
  | [] => Some allReactions
  | None :: _ => None
  | Some s :: rest =>
      collect_reactions st rest
        (foldl (λ acc reaction, JSSet.add reaction acc) allReactions
           (JSSet.elements (get_set s st)))
  end.

Definition publishAll (reactionSets : JSSet.t (option SetRef)) : M unit :=
  λ st,
    match currentActionReactionSets st with
    | Some batch =>
        Done tt (with_action
          (Some (foldl (λ b reactionSet, JSSet.add reactionSet b) batch
                   (JSSet.elements reactionSets))) st)
    | None =>
        match collect_reactions st (JSSet.elements reactionSets) JSSet.empty with
        | Some allReactions => run_all (JSSet.elements allReactions) st
        | None => Throws (TypeError "undefined is not iterable") st
        end
    end.

Definition completeAction : M unit :=
  λ st,
    let observables := currentActionReactionSets st in
    let st := with_action None st in
    match observables with
    | Some observables => publishAll observables st
    | None => Done tt st
    end.

(** The [get] trap for a property read [proxy[prop]].  A mutation method
    of an array is not a data property: reading it tracks nothing (calling
    it is [proxy_method]). *)
Definition proxy_get (l : Loc) (prop : string) : M Value :=
  λ st,
    let target := get_obj l st in
    if is_array target && bool_decide (prop ∈ ARRAY_MUTATION_METHODS) then
      Done VUndef st
    else
      let st :=
        match PROPERTY_REACTIONS target !! prop with
        | Some reactionSet => track reactionSet st
        | None => st
        end in
      Done (read_own target prop) st.

(** The function the [get] trap returns for a mutation method, called
    with the method's arguments. *)
Definition proxy_method (fuel : nat) (l : Loc) (m : ArrayMethod) : M Value :=
  let! res := alloc (λ st,
    let '(target, res) := apply_method m (get_obj l st) (VRef l) in
    (res, with_objs (<[l := target]>) st)) in
  let! parent := gets (λ st, PARENT_REACTIONS (get_obj l st)) in
  publish fuel parent;;
  ret res.

(** [val[key]] where [val] is the value being copied by [observable]:
    through the [get] trap when [val] is itself a proxy. *)
Definition read_property (l : Loc) (prop : string) : M Value :=
  λ st,
    if proxied (get_obj l st) then proxy_get l prop st
    else Done (read_own (get_obj l st) prop) st.

(** [for (let i = 0; i < val.length; i++) proxy.push(val[i])]; [val] is
    read again at every step. *)
Fixpoint copy_elements (fuel : nat) (proxy src : Loc) (i : nat) : M unit :=
  match fuel with
  | 0 => λ _, Timeout
  | S fuel' =>
      let! len := read_property src "length" in
      match len with
      | VNum n =>
          if bool_decide (Z.of_nat i < n)%Z then
            let! v := read_property src (pretty i) in
            proxy_method fuel' proxy (push v);;
            copy_elements fuel' proxy src (S i)
          else ret tt
      | _ => ret tt
      end
  end.

(** [observable(val, parentReactionSet)] and the [set] trap, which call
    each other. *)
Fixpoint observable (fuel : nat) (val : Value) (parentReactionSet : option SetRef)
    {struct fuel} : M Value :=
  match fuel with
  | 0 => λ _, Timeout
  | S fuel' =>
      if is_object val && negb (Object_hasOwnProperty PROPERTY_REACTIONS_sym) then
        match val with
        | VRef src =>
            let! arr := gets (λ st, is_array (get_obj src st)) in
            let! proxy := alloc (new_obj (mkObj arr [] true ∅ parentReactionSet)) in
            (if arr then copy_elements fuel' proxy src 0
             else
               let! keys := gets (λ st, fst <$> props (get_obj src st)) in
               copy_properties fuel' proxy src keys);;
            ret (VRef proxy)
        | _ => ret val
        end
      else if is_object val && negb (Object_hasOwnProperty PARENT_REACTIONS_sym) then
        match val, parentReactionSet with
        | VRef src, Some _ =>
            modify (λ st, with_objs (<[src :=
              let o := get_obj src st in
              mkObj (is_array o) (props o) (proxied o) (PROPERTY_REACTIONS o)
                parentReactionSet]>) st);;
            ret val
        | _, _ => ret val
        end
      else ret val
  end

(** [proxy[prop] = value]: the [set] trap.  The inner block is the body
    of the trap down to the assignment; its value is [newProperty]. *)
with proxy_set (fuel : nat) (l : Loc) (prop : string) (value : Value)
    {struct fuel} : M unit :=
  match fuel with
  | 0 => λ _, Timeout
  | S fuel' =>
      let! current := gets (λ st, read_own (get_obj l st) prop) in
      if negb (strict_eq current value) then
        let! newProperty :=
          (let! newProperty := not_hasOwnProperty l prop in
           let! existing := gets (λ st, PROPERTY_REACTIONS (get_obj l st) !! prop) in
           (match existing with
            | Some _ => ret tt
            | None =>
                let! s := alloc new_set in
                modify (λ st, with_objs (<[l :=
                  let o := get_obj l st in
                  mkObj (is_array o) (props o) (proxied o)
                    (<[prop := s]> (PROPERTY_REACTIONS o)) (PARENT_REACTIONS o)]>) st)
            end);;
           let! handle := gets (λ st, PROPERTY_REACTIONS (get_obj l st) !! prop) in
           let! wrapped := observable fuel' value handle in
           modify (λ st, with_objs (<[l := write_own prop wrapped (get_obj l st)]>) st);;
           ret newProperty) in
        if newProperty then
          let! parent := gets (λ st, PARENT_REACTIONS (get_obj l st)) in
          match parent with
          | Some _ => publish fuel' parent
          | None => ret tt
          end
        else
          let! handle := gets (λ st, PROPERTY_REACTIONS (get_obj l st) !! prop) in
          publish fuel' handle
      else ret tt
  end

(** [for (const key of Object.keys(val)) proxy[key] = val[key]] *)
with copy_properties (fuel : nat) (proxy src : Loc) (keys : list string)
    {struct fuel} : M unit :=
  match fuel with
  | 0 => λ _, Timeout
  | S fuel' =>
      match keys with
      | [] => ret tt
      | key :: keys' =>
          let! v := read_property src key in
          proxy_set fuel' proxy key v;;
          copy_properties fuel' proxy src keys'
      end
  end.

(** The [set] trap from [newProperty] down to the assignment
    [target[prop] = observable(value, ...)], as the block inside
    [proxy_set]. *)
Definition store_observable (fuel : nat) (l : Loc) (prop : string) (value : Value)
    : M bool :=
  let! newProperty := not_hasOwnProperty l prop in
  let! existing := gets (λ st, PROPERTY_REACTIONS (get_obj l st) !! prop) in
  (match existing with
   | Some _ => ret tt
   | None =>
       let! s := alloc new_set in
       modify (λ st, with_objs (<[l :=
         let o := get_obj l st in
         mkObj (is_array o) (props o) (proxied o)
           (<[prop := s]> (PROPERTY_REACTIONS o)) (PARENT_REACTIONS o)]>) st)
   end);;
  let! handle := gets (λ st, PROPERTY_REACTIONS (get_obj l st) !! prop) in
  let! wrapped := observable fuel value handle in
  modify (λ st, with_objs (<[l := write_own prop wrapped (get_obj l st)]>) st);;
  ret newProperty.

(** [proxy[prop]], [proxy[prop] = v], [Object.keys(o)] and
    [o.method(...)] as user code writes them, on any value. *)
Definition get_property (o : Value) (prop : string) : M Value :=
  match o with
  | VRef l => read_property l prop
  | VUndef | VNull => throw (TypeError "cannot read properties of undefined")
  | _ => ret VUndef
  end.

Definition set_property (fuel : nat) (o : Value) (prop : string) (v : Value) : M unit :=
  match o with
  | VRef l =>
      λ st,
        if proxied (get_obj l st) then proxy_set fuel l prop v st
        else Done tt (with_objs (<[l := write_own prop v (get_obj l st)]>) st)
  | _ => throw (TypeError "cannot set properties of a primitive")
  end.

Definition object_keys (o : Value) : M (list string) :=
  match o with
  | VRef l => gets (λ st, fst <$> props (get_obj l st))
  | VUndef | VNull => throw (TypeError "cannot convert undefined to object")
  | _ => ret []
  end.

Definition call_method (fuel : nat) (o : Value) (m : ArrayMethod) : M Value :=
  match o with
  | VRef l =>
      λ st,
        let target := get_obj l st in
        if proxied target then
          if is_array target then proxy_method fuel l m st
          else
            (proxy_get l (method_name m);;
             throw (TypeError "not a function")) st
        else if is_array target then
          let '(target, res) := apply_method m target (VRef l) in
          Done res (with_objs (<[l := target]>) st)
        else Throws (TypeError "not a function") st
  | _ => throw (TypeError "not a function")
  end.

(** User code.  [Reaction] is the body of [reaction] up to the call
    [reactionFn()], the handle it returns is the reaction function's
    identity; [Action] is the function [action] returns; [Dispose] is the
    exported [dispose], whose handle always carries a reaction. *)
Fixpoint exec (fuel : nat) (p : Prog) : M Value :=
  match p with
  | Ret v => ret v
  | Raise v => throw (Thrown_value v)
  | Alloc arr ps k =>
      let! l := alloc (new_obj (mkObj arr ps false ∅ None)) in
      exec fuel (k (VRef l))
  | Observable v k =>
      let! w := observable fuel v None in
      exec fuel (k w)
  | GetProp o prop k =>
      let! v := get_property o prop in
      exec fuel (k v)
  | SetProp o prop v k =>
      set_property fuel o prop v;;
      exec fuel k
  | Keys o k =>
      let! ks := object_keys o in
      exec fuel (k ks)
  | CallMethod o m k =>
      let! v := call_method fuel o m in
      exec fuel (k v)
  | Reaction trackedFn effectFn k =>
      let! reactionFn := alloc (new_reaction trackedFn effectFn) in
      call reactionFn;;
      exec fuel (k reactionFn)
  | Action fn k =>
      modify beginAction;;
      exec fuel fn;;
      completeAction;;
      exec fuel k
  | Dispose r k =>
      modify (dispose r);;
      exec fuel k
  end.

(** The closure [reactionFn] of [reaction]. *)
Definition reactionFn (fuel : nat) (self : RId) : M unit :=
  let! closure := gets (λ st, reactions st !! self) in
  match closure with
  | Some (trackedFn, effectFn) =>
      modify (beginTracking self);;
      let! result := exec fuel trackedFn in
      modify completeTracking;;
      modify (log (EvEffect self result));;
      exec fuel (effectFn result);;
      ret tt
  | None => ret tt
  end.
End Runtime.

(** Calling a reaction function, with [fuel] bounding the depth of nested
    calls and the length of every loop. *)
Fixpoint invoke (fuel : nat) (r : RId) : M unit :=
  match fuel with
  | 0 => λ _, Timeout
  | S fuel' => reactionFn (invoke fuel') fuel' r
  end.

Definition run (fuel : nat) (p : Prog) : M Value := exec (invoke fuel) fuel p.

(** ** The rest of the external API, written in user code as in the source *)

(** What [computed] returns: the accessor closes over [cache] and carries
    the reaction function for [dispose]. *)
Record Computed : Type := mkComputed {
  cache : Value;
  computed_reaction : RId;
}.

Definition computed (fn : Prog) (k : Computed → Prog) : Prog :=
  Alloc false [("value", VUndef)] (λ lit,
  Observable lit (λ cache,
  Reaction fn (λ val, SetProp cache "value" val (Ret val)) (λ reactionFn,
  k (mkComputed cache reactionFn)))).

(** [computedFn()] *)
Definition call_computed (c : Computed) (k : Value → Prog) : Prog :=
  GetProp (cache c) "value" k.

(** The values passed to the effect function of reaction [r], in order. *)
Definition effects_of (r : RId) (tr : list Event) : list Value :=
  omap (λ e, match e with
             | EvEffect r' v => if decide (r' = r) then Some v else None
             | _ => None
             end) tr.

(** The state a run ends in, by return or by throw. *)
Definition final {A} (res : Result A) : State :=
  match res with
  | Done _ st | Throws _ st => st
  | Timeout => init
  end.

Definition returns {A} (res : Result A) : bool :=
  match res with Done _ _ => true | _ => false end.

Definition throws {A} (res : Result A) : bool :=
  match res with Throws _ _ => true | _ => false end.

(** ** Predicates of the statements *)

(** [action_guarded allow p]: user code [p], and the tracked and effect
    functions of the reactions it creates, call an action only if [allow].
    With [allow := True] this is all user code, with [allow := False] the
    code that calls no action. *)
Fixpoint action_guarded (allow : Prop) (p : Prog) : Prop :=
  match p with
  | Ret _ | Raise _ => True
  | Alloc _ _ k | Observable _ k | GetProp _ _ k | CallMethod _ _ k =>
      ∀ v, action_guarded allow (k v)
  | Keys _ k => ∀ ks, action_guarded allow (k ks)
  | SetProp _ _ _ k | Dispose _ k => action_guarded allow k
  | Reaction trackedFn effectFn k =>
      action_guarded allow trackedFn
      ∧ (∀ v, action_guarded allow (effectFn v))
      ∧ ∀ r, action_guarded allow (k r)
  | Action fn k => allow ∧ action_guarded allow fn ∧ action_guarded allow k
  end.

Definition action_free (p : Prog) : Prop := action_guarded False p.

Definition unsubscribed (r : RId) (st : State) : Prop :=
  ∀ s, Some r ∉ get_set s st.

Definition not_tracking (r : RId) (st : State) : Prop :=
  ∀ fr, currentlyTracking st = Some fr → trackedFunction fr ≠ r.

(** Reaction [r] exists, belongs to no reaction-set, its effect function
    has been called with the values [L] so far and, if [framed], the open
    tracking frame is not its own. *)
Definition silent (r : RId) (L : list Value) (framed : bool) (st : State) : Prop :=
  r < next_reaction st
  ∧ unsubscribed r st
  ∧ effects_of r (trace st) = L
  ∧ (framed = true → not_tracking r st).

(** Every reaction-set that holds [r] is listed in the subscription record
    of [r]. *)
Definition subscriptions_recorded (r : RId) (st : State) : Prop :=
  ∀ s, Some r ∈ get_set s st →
       ∃ rec, reactionSubscriptionSets st !! r = Some rec ∧ Some s ∈ rec.

(** An action is open, and the reactions created since [base] call no
    action. *)
Definition batching (base : RId) (st : State) : Prop :=
  currentActionReactionSets st ≠ None
  ∧ base ≤ next_reaction st
  ∧ ∀ r t e, base ≤ r < next_reaction st → reactions st !! r = Some (t, e) →
             action_free t ∧ ∀ v, action_free (e v).

(** [r1] is [r2], or ran out of fuel. *)
Definition result_below {A} (r1 r2 : Result A) : Prop :=
  r1 = Timeout ∨ r1 = r2.

Definition below {A} (m1 m2 : M A) : Prop :=
  ∀ st, result_below (m1 st) (m2 st).

(** [Inv] holds in the state a run ends in, by return or by throw. *)
Definition holds_after (Inv : State → Prop) {A} (res : Result A) : Prop :=
  match res with
  | Done _ st | Throws _ st => Inv st
  | Timeout => True
  end.

(** A computation keeps [Inv]. *)
Definition preserves (Inv : State → Prop) {A} (m : M A) : Prop :=
  ∀ st, Inv st → holds_after Inv (m st).

(** ** Programs and states of the examples *)

(** [reaction(() => { reaction(() => obs.y, ...); return obs.x }, ...)]
    followed by [obs.x = 5]. *)
Definition nested_tracking : Prog :=
  Alloc false [("x", VNum 1); ("y", VNum 2)] (λ lit,
  Observable lit (λ obs,
  Reaction
    (Reaction (GetProp obs "y" Ret) (λ _, Ret VUndef) (λ _,
     GetProp obs "x" Ret))
    (λ _, Ret VUndef) (λ _,
  SetProp obs "x" (VNum 5) (Ret VUndef)))).

(** Reaction 7 runs twice over two reaction-sets: the first run reads the
    field of set 0, the second only the field of set 1. *)
Definition two_runs : State :=
  let st := (new_set (new_set init).2).2 in
  let st := completeTracking (track 0 (beginTracking 7 st)) in
  track 1 (beginTracking 7 st).

(** [reaction(() => obs.flag ? obs.a : obs.b, ...)], then [obs.flag = false]
    and [obs.a = 5]. *)
Definition conditional_read : Prog :=
  Alloc false [("flag", VBool true); ("a", VNum 1); ("b", VNum 2)] (λ lit,
  Observable lit (λ obs,
  Reaction
    (GetProp obs "flag" (λ flag,
       if strict_eq flag (VBool true)
       then GetProp obs "a" Ret else GetProp obs "b" Ret))
    (λ _, Ret VUndef) (λ _,
  SetProp obs "flag" (VBool false)
  (SetProp obs "a" (VNum 5) (Ret VUndef))))).

(** [s = observable({foo: {bar: 12}})], a reaction over all of [s.foo], as
    in the test [testNewPropertyReaction]. *)
Definition new_property_setup : Prog :=
  Alloc false [("bar", VNum 12)] (λ inner,
  Alloc false [("foo", inner)] (λ lit,
  Observable lit (λ s,
  Reaction
    (GetProp s "foo" (λ foo, Keys foo (λ _, GetProp foo "bar" Ret)))
    (λ _, Ret VUndef) (λ _,
  GetProp s "foo" Ret)))).

(** The state after the setup; [s.foo] is the proxy at location 3. *)
Definition new_property_state : State := final (run 10 new_property_setup init).


(** The array literal [[1]], not yet wrapped. *)
Definition array_literal_state : State :=
  (new_obj (mkObj true [("0", VNum 1)] false ∅ None) init).2.

(** [obs = observable({a: 1})], a reaction on [obs.a],
    [again = observable(obs)], [again.a = 2]; the value is
    [again === obs]. *)
Definition wrap_twice : Prog :=
  Alloc false [("a", VNum 1)] (λ lit,
  Observable lit (λ obs,
  Reaction (GetProp obs "a" Ret) (λ _, Ret VUndef) (λ _,
  Observable obs (λ again,
  SetProp again "a" (VNum 2)
  (Ret (VBool (strict_eq again obs))))))).

(** [obs = observable({x: 0})] *)
Definition counter_state : State :=
  final (run 10 (Alloc false [("x", VNum 0)] (λ lit, Observable lit Ret)) init).

(** The state in which the tracked function [() => obs.x] of a new
    reaction returns. *)
Definition counter_tracked : State :=
  final (run 5 (GetProp (VRef 1) "x" Ret)
           (beginTracking 0
              (new_reaction (GetProp (VRef 1) "x" Ret) (λ _, Ret VUndef)
                 counter_state).2)).

(** The state in which the body of
    [action(() => { obs.x = 1; throw "boom" })] throws, on
    [obs = observable({x: 0})]. *)
Definition thrown_in_action : State :=
  final (run 5 (SetProp (VRef 1) "x" (VNum 1) (Raise (VStr "boom")))
           (beginAction counter_state)).

(** [reaction(() => obs.x, v => { if (v < 1) obs.x = v + 1 })] *)
Definition self_triggering : Prog :=
  Alloc false [("x", VNum 0)] (λ lit,
  Observable lit (λ obs,
  Reaction (GetProp obs "x" Ret)
    (λ v, match v with
          | VNum n =>
              if bool_decide (n < 1)%Z
              then SetProp obs "x" (VNum (n + 1)) (Ret VUndef)
              else Ret VUndef
          | _ => Ret VUndef
          end)
    (λ _, Ret VUndef))).

(** [h2 = reaction(() => obs.y, ...)];
    [reaction(() => obs.x, v => { if (v === 1) dispose(h2) })];
    [action(() => { obs.x = 1; obs.y = 1 })()]; [obs.y = 2]. *)
Definition dispose_during_flush : Prog :=
  Alloc false [("x", VNum 0); ("y", VNum 0)] (λ lit,
  Observable lit (λ obs,
  Reaction (GetProp obs "y" Ret) (λ _, Ret VUndef) (λ h2,
  Reaction (GetProp obs "x" Ret)
    (λ v, if strict_eq v (VNum 1) then Dispose h2 (Ret VUndef) else Ret VUndef)
    (λ _,
  Action (SetProp obs "x" (VNum 1) (SetProp obs "y" (VNum 1) (Ret VUndef)))
  (SetProp obs "y" (VNum 2) (Ret VUndef)))))).

(** The same program without the last write: the state when the action
    has returned. *)
Definition dispose_during_flush_action : Prog :=
  Alloc false [("x", VNum 0); ("y", VNum 0)] (λ lit,
  Observable lit (λ obs,
  Reaction (GetProp obs "y" Ret) (λ _, Ret VUndef) (λ h2,
  Reaction (GetProp obs "x" Ret)
    (λ v, if strict_eq v (VNum 1) then Dispose h2 (Ret VUndef) else Ret VUndef)
    (λ _,
  Action (SetProp obs "x" (VNum 1) (SetProp obs "y" (VNum 1) (Ret VUndef)))
  (Ret VUndef))))).

(** [let h; reaction(() => obs.y, v => { if (v === 1) dispose(h) })];
    [h = reaction(() => obs.y, ...)]; [obs.y = 1]; [obs.y = 2].  The
    second reaction is reaction 1. *)
Definition dispose_during_publish : Prog :=
  Alloc false [("y", VNum 0)] (λ lit,
  Observable lit (λ obs,
  Reaction (GetProp obs "y" Ret)
    (λ v, if strict_eq v (VNum 1) then Dispose 1 (Ret VUndef) else Ret VUndef)
    (λ _,
  Reaction (GetProp obs "y" Ret) (λ _, Ret VUndef) (λ _,
  SetProp obs "y" (VNum 1) (SetProp obs "y" (VNum 2) (Ret VUndef)))))).

(** [x + y] on numbers. *)
Definition plus (x y : Value) : Value :=
  match x, y with
  | VNum p, VNum q => VNum (p + q)
  | _, _ => VNaN
  end.

(** [obs = observable({a: 1, b: 2})]; [c1 = computed(() => obs.a)];
    [c2 = computed(() => obs.b)]; [c3 = computed(() => c1() + c2())];
    [reaction(c3, ...)]; [action(() => { obs.a = 10; obs.b = 20 })()].
    The reactions of [c1], [c2], [c3] are 0, 1, 2; the last reaction
    is 3. *)
Definition diamond : Prog :=
  Alloc false [("a", VNum 1); ("b", VNum 2)] (λ lit,
  Observable lit (λ obs,
  computed (GetProp obs "a" Ret) (λ c1,
  computed (GetProp obs "b" Ret) (λ c2,
  computed (call_computed c1 (λ x, call_computed c2 (λ y, Ret (plus x y)))) (λ c3,
  Reaction (call_computed c3 Ret) (λ _, Ret VUndef) (λ _,
  Action (SetProp obs "a" (VNum 10) (SetProp obs "b" (VNum 20) (Ret VUndef)))
  (Ret VUndef))))))).

(** ** Further predicates, programs and states *)

(** The properties of an object literal that [observable] copies: a
    property whose value is [undefined] is not set on the copy. *)
Definition defined_props (ps : list (string * Value)) : list (string * Value) :=
  filter (λ kv, kv.2 ≠ VUndef) ps.

(** An action is open, the reactions created since [base] call no action,
    and the effect functions of the reactions older than [base] have been
    called with the values [L] gives, no more. *)
Definition deferring (base : RId) (L : RId → list Value) (st : State) : Prop :=
  batching base st ∧ ∀ r, r < base → effects_of r (trace st) = L r.

(** [never_disposes r0 p]: user code [p], and the tracked and effect
    functions of the reactions it creates, do not call [dispose] on the
    reaction [r0].  The reaction a [Reaction] creates is a new one, not
    [r0]. *)
Fixpoint never_disposes (r0 : RId) (p : Prog) : Prop :=
  match p with
  | Ret _ | Raise _ => True
  | Alloc _ _ k | Observable _ k | GetProp _ _ k | CallMethod _ _ k =>
      ∀ v, never_disposes r0 (k v)
  | Keys _ k => ∀ ks, never_disposes r0 (k ks)
  | SetProp _ _ _ k => never_disposes r0 k
  | Reaction trackedFn effectFn k =>
      never_disposes r0 trackedFn
      ∧ (∀ v, never_disposes r0 (effectFn v))
      ∧ ∀ r, r ≠ r0 → never_disposes r0 (k r)
  | Action fn k => never_disposes r0 fn ∧ never_disposes r0 k
  | Dispose r k => r ≠ r0 ∧ never_disposes r0 k
  end.

(** The reaction-sets collected in the open frame of [r0], if there is
    one, are in the subscription record of [r0]. *)
Definition frame_recorded (r0 : RId) (st : State) : Prop :=
  ∀ fr, currentlyTracking st = Some fr → trackedFunction fr = r0 →
        ∃ rec, reactionSubscriptionSets st !! r0 = Some rec
               ∧ ∀ s, Some s ∈ reactionSets fr → Some s ∈ rec.

(** The reaction [r0] exists, what it is subscribed to and what it is about
    to subscribe to is in its record, and no reaction function disposes
    it. *)
Definition recorded (r0 : RId) (st : State) : Prop :=
  r0 < next_reaction st
  ∧ subscriptions_recorded r0 st
  ∧ frame_recorded r0 st
  ∧ ∀ r t e, reactions st !! r = Some (t, e) →
             never_disposes r0 t ∧ ∀ v, never_disposes r0 (e v).

(** [obs = observable({x: 0})] and [reaction(() => obs.x, _ => {})]. *)
Definition counter_watched : State :=
  final (run 10 (Alloc false [("x", VNum 0)] (λ lit, Observable lit (λ obs,
                 Reaction (GetProp obs "x" Ret) (λ _, Ret VUndef) (λ _, Ret obs))))
           init).

(** The same, after [action(() => { obs.x = 1; throw "boom" })()]: the
    batch is still open and lists the reaction-set of [x]. *)
Definition batch_pending : State :=
  final (run 10 (Action (SetProp (VRef 1) "x" (VNum 1) (Raise (VStr "boom"))) (Ret VUndef))
           counter_watched).

(** The object literal [{self: <itself>}]. *)
Definition cyclic_literal_state : State :=
  (new_obj (mkObj false [("self", VRef 0)] false ∅ None) init).2.

(** The object literal [{a: 1, b: undefined}]. *)
Definition plain_literal_state : State :=
  (new_obj (mkObj false [("a", VNum 1); ("b", VUndef)] false ∅ None) init).2.

(** The array literal [[{a: 1}]], inside an action. *)
Definition nested_array_state : State :=
  beginAction
    (new_obj (mkObj true [("0", VRef 0)] false ∅ None)
       (new_obj (mkObj false [("a", VNum 1)] false ∅ None) init).2).2.


(** [obs = observable({x: 0, hasOwnProperty: 1})]; the proxy is at
    location 1. *)
Definition shadowed_state : State :=
  final (run 10 (Alloc false [("x", VNum 0); ("hasOwnProperty", VNum 1)]
                   (λ lit, Observable lit Ret)) init).

(** The reaction [r0] exists and is a member of the reaction-set [s], and
    no reaction function disposes it. *)
Definition subscribed (r0 : RId) (s : SetRef) (st : State) : Prop :=
  r0 < next_reaction st
  ∧ s < next_set st
  ∧ Some r0 ∈ get_set s st
  ∧ ∀ r t e, reactions st !! r = Some (t, e) →
             never_disposes r0 t ∧ ∀ v, never_disposes r0 (e v).

(** The cache of a computed, at location [cache]: a proxy without parent
    reaction-set and without own property [hasOwnProperty], whose field
    [value], if it has a reaction-set, has an empty one, allocated at
    [bound] or later. *)
Definition quiet_cell (cache : Loc) (bound : SetRef) (st : State) : Prop :=
  proxied (get_obj cache st) = true
  ∧ is_array (get_obj cache st) = false
  ∧ PARENT_REACTIONS (get_obj cache st) = None
  ∧ hasOwnProperty (get_obj cache st) "hasOwnProperty" = false
  ∧ ∀ c, PROPERTY_REACTIONS (get_obj cache st) !! "value" = Some c →
         get_set c st = [] ∧ bound ≤ c.

(** * Properties *)

(** ** JavaScript [Set] *)

Module JSSetFacts.
Section JSSetFacts.
Context {A : Type} `{EqDecision A}.
Implicit Types (x y : A) (s : JSSet.t A).

Lemma elem_of_add x y s : Some x ∈ JSSet.add y s ↔ x = y ∨ Some x ∈ s.
Proof.
  unfold JSSet.add, JSSet.has. case_bool_decide as Hy.
  - split; [tauto | intros [-> | ?]; done].
  - rewrite elem_of_app, list_elem_of_singleton. split.
    + intros [? | ?]; [tauto | left; congruence].
    + intros [-> | ?]; [right; done | tauto].
Qed.

Lemma elem_of_add_same x s : Some x ∈ JSSet.add x s.
Proof. apply elem_of_add. by left. Qed.

Lemma elem_of_add_mono x y s : Some x ∈ s → Some x ∈ JSSet.add y s.
Proof. intros. apply elem_of_add. by right. Qed.

Lemma not_elem_of_delete x s : Some x ∉ JSSet.delete x s.
Proof.
  unfold JSSet.delete. rewrite list_elem_of_fmap. intros (e & He & _).
  case_decide; congruence.
Qed.

Lemma elem_of_delete x y s : Some x ∈ JSSet.delete y s ↔ x ≠ y ∧ Some x ∈ s.
Proof.
  unfold JSSet.delete. rewrite list_elem_of_fmap. split.
  - intros (e & He & Hin). case_decide; [done |]. subst e.
    split; [congruence | done].
  - intros [Hne Hin]. exists (Some x). split; [| done].
    case_decide; [congruence | done].
Qed.

Lemma elem_of_elements x s : x ∈ JSSet.elements s ↔ Some x ∈ s.
Proof.
  unfold JSSet.elements. rewrite list_elem_of_omap. split.
  - intros ([y |] & Hin & Hy); simpl in Hy; [| done].
    by simplify_eq.
  - intros Hin. by exists (Some x).
Qed.

Lemma add_has x s : JSSet.has x s = true → JSSet.add x s = s.
Proof. unfold JSSet.add. by intros ->. Qed.
End JSSetFacts.
End JSSetFacts.

(** ** Reaction-sets on the heap *)

Lemma get_set_set_add s s' r st :
  get_set s (set_add s' r st) =
    if decide (s = s') then JSSet.add r (get_set s st) else get_set s st.
Proof.
  unfold get_set, set_add. simpl. case_decide as Hs.
  - subst. by rewrite lookup_insert_eq.
  - by rewrite lookup_insert_ne.
Qed.

Lemma get_set_set_delete s s' r st :
  get_set s (set_delete s' r st) =
    if decide (s = s') then JSSet.delete r (get_set s st) else get_set s st.
Proof.
  unfold get_set, set_delete. simpl. case_decide as Hs.
  - subst. by rewrite lookup_insert_eq.
  - by rewrite lookup_insert_ne.
Qed.

Lemma add_add {A} `{EqDecision A} (x : A) (s : JSSet.t A) :
  JSSet.add x (JSSet.add x s) = JSSet.add x s.
Proof.
  apply JSSetFacts.add_has. unfold JSSet.has.
  apply bool_decide_eq_true. apply JSSetFacts.elem_of_add_same.
Qed.

(** What the loop of [completeTracking] leaves in each reaction-set. *)
Lemma get_set_foldl_add (r : RId) (l : list SetRef) st s :
  get_set s (foldl (λ st reactionSet, set_add reactionSet r st) st l) =
    if bool_decide (s ∈ l) then JSSet.add r (get_set s st) else get_set s st.
Proof.
  revert st. induction l as [| s' l IH]; intros st; simpl.
  - done.
  - rewrite IH, get_set_set_add.
    destruct (decide (s = s')) as [-> | Hne].
    + rewrite add_add. rewrite (bool_decide_eq_true_2 (s' ∈ s' :: l)) by by left.
      by case_bool_decide.
    + case_bool_decide as Hl.
      * by rewrite bool_decide_eq_true_2 by by right.
      * rewrite bool_decide_eq_false_2; [done |].
        by intros [? | ?]%elem_of_cons.
Qed.

(** What the loop of [dispose] leaves in each reaction-set. *)
Lemma get_set_foldl_delete (r : RId) (l : list SetRef) st s :
  get_set s (foldl (λ st reactionSet, set_delete reactionSet r st) st l) =
    if bool_decide (s ∈ l) then JSSet.delete r (get_set s st) else get_set s st.
Proof.
  revert st. induction l as [| s' l IH]; intros st; simpl.
  - done.
  - rewrite IH, get_set_set_delete.
    destruct (decide (s = s')) as [-> | Hne].
    + rewrite (bool_decide_eq_true_2 (s' ∈ s' :: l)) by by left.
      case_bool_decide; [| done].
      unfold JSSet.delete. rewrite <- list_fmap_compose.
      apply list_fmap_ext. intros ? e _. simpl.
      repeat case_decide; congruence.
    + case_bool_decide as Hl.
      * by rewrite bool_decide_eq_true_2 by by right.
      * rewrite bool_decide_eq_false_2; [done |].
        by intros [? | ?]%elem_of_cons.
Qed.

(** ** C7: [beginTracking] *)

(** The frame [beginTracking] opens, and what it leaves alone. *)
Lemma beginTracking_frame (func : RId) (st : State) :
  currentlyTracking (beginTracking func st) = Some (mkFrame func JSSet.empty)
  ∧ sets (beginTracking func st) = sets st
  ∧ currentActionReactionSets (beginTracking func st) = currentActionReactionSets st
  ∧ trace (beginTracking func st) = trace st
  ∧ next_reaction (beginTracking func st) = next_reaction st
  ∧ reactions (beginTracking func st) = reactions st.
Proof. unfold beginTracking. by case_bool_decide. Qed.

(** C7, as amended.  [beginTracking] has no failure path: whatever frame is
    open, the call replaces it by a new frame for [func] with nothing
    collected, and leaves the heap and the batch as they were. *)
Theorem beginTracking_always_opens_frame (func : RId) (st : State) :
  currentlyTracking (beginTracking func st) = Some (mkFrame func JSSet.empty)
  ∧ sets (beginTracking func st) = sets st
  ∧ currentActionReactionSets (beginTracking func st) = currentActionReactionSets st
  ∧ trace (beginTracking func st) = trace st.
Proof.
  unfold beginTracking.
  destruct (bool_decide (is_Some (_ !! func))); repeat split.
Qed.

(** Counterexample to C7 as stated.  With the frame of reaction 0 open and
    one field handle collected, [beginTracking 1] returns and the frame is
    now that of reaction 1, empty.  In a run: the tracked function of
    reaction 0 creates reaction 1; nothing is thrown, and reaction 0 ends
    subscribed to nothing, so the later write to [x] does not reach it. *)
Lemma beginTracking_while_open_does_not_fail :
  let st := track 0 (beginTracking 0 (new_set init).2) in
  currentlyTracking st = Some (mkFrame 0 [Some 0])
  ∧ currentlyTracking (beginTracking 1 st) = Some (mkFrame 1 [])
  ∧ returns (run 10 nested_tracking init) = true
  ∧ effects_of 0 (trace (final (run 10 nested_tracking init))) = [VNum 1]
  ∧ effects_of 1 (trace (final (run 10 nested_tracking init))) = [VNum 2].
Proof. vm_compute. repeat split. Qed.

(** ** C1: [completeTracking] *)

(** The reaction-sets after [completeTracking]. *)
Lemma get_set_completeTracking (st : State) (s : SetRef) :
  get_set s (completeTracking st) =
    match currentlyTracking st with
    | Some fr =>
        if bool_decide (Some s ∈ reactionSets fr)
        then JSSet.add (trackedFunction fr) (get_set s st)
        else get_set s st
    | None => get_set s st
    end.
Proof.
  unfold completeTracking. destruct (currentlyTracking st) as [fr |]; [| done].
  change (get_set s (with_tracking None ?st')) with (get_set s st').
  rewrite get_set_foldl_add.
  rewrite (bool_decide_ext (s ∈ JSSet.elements (reactionSets fr))
             (Some s ∈ reactionSets fr)); [done |].
  apply JSSetFacts.elem_of_elements.
Qed.

(** C1, as amended.  [completeTracking] only adds: the reaction joins every
    reaction-set collected in the frame, every other reaction-set is left as
    it was, and nothing is removed from any set, so what the reaction joined
    on an earlier run it still belongs to. *)
Theorem completeTracking_only_adds (st : State) (fr : Frame) :
  currentlyTracking st = Some fr →
  currentlyTracking (completeTracking st) = None
  ∧ (∀ s, Some s ∈ reactionSets fr →
          Some (trackedFunction fr) ∈ get_set s (completeTracking st))
  ∧ (∀ s, Some s ∉ reactionSets fr →
          get_set s (completeTracking st) = get_set s st)
  ∧ (∀ s r, Some r ∈ get_set s st → Some r ∈ get_set s (completeTracking st)).
Proof.
  intros Hfr. split.
  { unfold completeTracking. by rewrite Hfr. }
  assert (Hget : ∀ s,
    get_set s (completeTracking st) =
    if bool_decide (Some s ∈ reactionSets fr)
    then JSSet.add (trackedFunction fr) (get_set s st) else get_set s st).
  { intros s. by rewrite get_set_completeTracking, Hfr. }
  split; [| split].
  - intros s Hs. rewrite Hget, bool_decide_eq_true_2 by done.
    apply JSSetFacts.elem_of_add_same.
  - intros s Hs. by rewrite Hget, bool_decide_eq_false_2.
  - intros s r Hr. rewrite Hget. case_bool_decide; [| done].
    by apply JSSetFacts.elem_of_add_mono.
Qed.

Lemma completeTracking_only_adds_witness :
  currentlyTracking two_runs = Some (mkFrame 7 [Some 1])
  ∧ currentlyTracking (completeTracking two_runs) = None
  ∧ (∀ s, Some s ∈ [Some 1] → Some 7 ∈ get_set s (completeTracking two_runs))
  ∧ (∀ s, Some s ∉ [Some 1] →
          get_set s (completeTracking two_runs) = get_set s two_runs)
  ∧ (∀ s r, Some r ∈ get_set s two_runs →
            Some r ∈ get_set s (completeTracking two_runs)).
Proof.
  split; [reflexivity |].
  apply (completeTracking_only_adds two_runs (mkFrame 7 [Some 1])).
  reflexivity.
Defined.

(** Counterexample to C1 as stated.  After the second run, which collected
    set 1 only, reaction 7 still belongs to set 0 of the first run.  In a
    run: once [flag] is false the reaction reads [b] and no longer [a], yet
    the write to [a] runs it a third time. *)
Lemma completeTracking_keeps_stale_subscription :
  reactionSets <$> currentlyTracking two_runs = Some [Some 1]
  ∧ get_set 0 (completeTracking two_runs) = [Some 7]
  ∧ get_set 1 (completeTracking two_runs) = [Some 7]
  ∧ effects_of 0 (trace (final (run 10 conditional_read init)))
    = [VNum 1; VNum 2; VNum 2].
Proof. vm_compute. repeat split. Qed.

(** ** The monad *)

Lemma bind_Done {A B} (m : M A) (k : A → M B) (st st' : State) (b : B) :
  bind m k st = Done b st' ↔ ∃ a st1, m st = Done a st1 ∧ k a st1 = Done b st'.
Proof.
  unfold bind. split.
  - destruct (m st) as [a st1 | |]; [eauto | done | done].
  - intros (a & st1 & -> & ?). done.
Qed.

Lemma bind_Throws {A B} (m : M A) (k : A → M B) (st st' : State) (e : Exn) :
  bind m k st = Throws e st' ↔
    m st = Throws e st' ∨ ∃ a st1, m st = Done a st1 ∧ k a st1 = Throws e st'.
Proof.
  unfold bind. split.
  - destruct (m st) as [a st1 | |]; [eauto | | done].
    intros [= -> ->]. by left.
  - intros [-> | (a & st1 & -> & ?)]; done.
Qed.

Lemma gets_Done {A} (f : State → A) (st st' : State) (a : A) :
  gets f st = Done a st' ↔ a = f st ∧ st' = st.
Proof. unfold gets. split; [intros [= <- <-] | intros [-> ->]]; done. Qed.

Lemma modify_Done (f : State → State) (st st' : State) (u : unit) :
  modify f st = Done u st' ↔ st' = f st.
Proof. unfold modify. destruct u. split; [intros [= <-] | intros ->]; done. Qed.

Lemma ret_Done {A} (a b : A) (st st' : State) :
  ret a st = Done b st' ↔ b = a ∧ st' = st.
Proof. unfold ret. split; [intros [= <- <-] | intros [-> ->]]; done. Qed.

(** A value that is not an object is returned as it is, and nothing
    changes. *)
Lemma observable_primitive
    (call : RId → M unit) (fuel : nat) (val : Value)
    (parentReactionSet : option SetRef) (st : State) :
  is_object val = false →
  observable call (S fuel) val parentReactionSet st = Done val st.
Proof. intros Hv. simpl. rewrite Hv. reflexivity. Qed.

(** ** C5 and C4: the [set] trap *)

(** C5.  Writing to a field the value it already holds, by [===], does
    nothing at all: the trap returns with the state it was called in, so
    nothing was published, no reaction ran, and store and heap are
    untouched.  The same holds for the assignment [proxy[prop] = value] in
    user code. *)
Theorem proxy_set_same_value_is_noop
    (call : RId → M unit) (fuel : nat) (l : Loc) (prop : string)
    (value : Value) (st : State) :
  strict_eq (read_own (get_obj l st) prop) value = true →
  proxy_set call (S fuel) l prop value st = Done tt st
  ∧ (proxied (get_obj l st) = true →
     ∀ k, exec call (S fuel) (SetProp (VRef l) prop value k) st
          = exec call (S fuel) k st).
Proof.
  intros Heq.
  assert (Hset : proxy_set call (S fuel) l prop value st = Done tt st).
  { simpl. unfold bind, gets. by rewrite Heq. }
  split; [done |].
  intros Hp k. cbn [exec]. unfold bind at 1. unfold set_property.
  by rewrite Hp, Hset.
Qed.

Lemma proxy_set_same_value_is_noop_witness :
  strict_eq (read_own (get_obj 3 new_property_state) "bar") (VNum 12) = true
  ∧ proxy_set (invoke 5) 6 3 "bar" (VNum 12) new_property_state
    = Done tt new_property_state
  ∧ (proxied (get_obj 3 new_property_state) = true →
     ∀ k, exec (invoke 5) 6 (SetProp (VRef 3) "bar" (VNum 12) k) new_property_state
          = exec (invoke 5) 6 k new_property_state).
Proof.
  split; [vm_compute; reflexivity |].
  apply (proxy_set_same_value_is_noop (invoke 5) 5 3 "bar" (VNum 12)
           new_property_state).
  vm_compute; reflexivity.
Defined.

Lemma proxy_set_unfold
    (call : RId → M unit) (fuel : nat) (l : Loc) (prop : string) (value : Value) :
  proxy_set call (S fuel) l prop value =
    (let! current := gets (λ st, read_own (get_obj l st) prop) in
     if negb (strict_eq current value) then
       let! newProperty := store_observable call fuel l prop value in
       if newProperty then
         let! parent := gets (λ st, PARENT_REACTIONS (get_obj l st)) in
         match parent with
         | Some _ => publish call fuel parent
         | None => ret tt
         end
       else
         let! handle := gets (λ st, PROPERTY_REACTIONS (get_obj l st) !! prop) in
         publish call fuel handle
     else ret tt).
Proof. reflexivity. Qed.

Lemma lookup_assign_prop (k k' : string) (v : Value) (ps : list (string * Value)) :
  lookup_prop k' (assign_prop k v ps) =
    if decide (k' = k) then Some v else lookup_prop k' ps.
Proof.
  induction ps as [| [k0 v0] ps IH]; simpl.
  - repeat case_decide; congruence.
  - destruct (decide (k0 = k)) as [-> | Hne]; simpl.
    + repeat case_decide; congruence.
    + rewrite IH. repeat case_decide; congruence.
Qed.

Lemma get_obj_insert (l l' : Loc) (o : Obj) (st : State) :
  get_obj l' (with_objs (<[l := o]>) st) = if decide (l' = l) then o else get_obj l' st.
Proof.
  unfold get_obj. simpl. case_decide as H.
  - subst. by rewrite lookup_insert_eq.
  - by rewrite lookup_insert_ne.
Qed.

(** The [set] trap down to the assignment, for a value that is not an
    object: the field has a reaction-set, minted if it had none, the value
    is stored, and nothing else changes. *)
Lemma store_observable_primitive_heap
    (call : RId → M unit) (fuel : nat) (l : Loc) (prop : string)
    (value : Value) (st : State) :
  hasOwnProperty (get_obj l st) "hasOwnProperty" = false →
  is_object value = false →
  ∃ st1,
    store_observable call (S fuel) l prop value st
    = Done (negb (hasOwnProperty (get_obj l st) prop)) st1
    ∧ get_obj l st1
      = write_own prop value
          (mkObj (is_array (get_obj l st)) (props (get_obj l st)) (proxied (get_obj l st))
             (<[prop := default (next_set st) (PROPERTY_REACTIONS (get_obj l st) !! prop)]>
                (PROPERTY_REACTIONS (get_obj l st)))
             (PARENT_REACTIONS (get_obj l st)))
    ∧ (∀ l', l' ≠ l → get_obj l' st1 = get_obj l' st)
    ∧ (∀ s, s ≠ next_set st → get_set s st1 = get_set s st)
    ∧ get_set (next_set st) st1
      = match PROPERTY_REACTIONS (get_obj l st) !! prop with
        | Some _ => get_set (next_set st) st
        | None => []
        end
    ∧ trace st1 = trace st
    ∧ currentActionReactionSets st1 = currentActionReactionSets st
    ∧ currentlyTracking st1 = currentlyTracking st
    ∧ reactionSubscriptionSets st1 = reactionSubscriptionSets st
    ∧ reactions st1 = reactions st
    ∧ next_reaction st1 = next_reaction st
    ∧ next_loc st1 = next_loc st
    ∧ next_set st ≤ next_set st1.
Proof.
  intros Hhop Hv. unfold store_observable.
  unfold bind at 1. unfold not_hasOwnProperty at 1. rewrite Hhop.
  unfold bind at 1. unfold gets at 1.
  destruct (PROPERTY_REACTIONS (get_obj l st) !! prop) as [s |] eqn:Hs.
  - unfold bind, gets, modify, ret. rewrite observable_primitive by done.
    eexists. split; [reflexivity |].
    split.
    { rewrite get_obj_insert, decide_True by done. simpl.
      rewrite insert_id by done. done. }
    split.
    { intros l' Hne. by rewrite get_obj_insert, decide_False. }
    repeat split; done.
  - unfold bind, gets, modify, ret, alloc, new_set. cbv iota beta.
    rewrite observable_primitive by done.
    eexists. split; [reflexivity |].
    split.
    { rewrite !get_obj_insert, !decide_True by done. reflexivity. }
    split.
    { intros l' Hne. by rewrite !get_obj_insert, !decide_False. }
    split.
    { intros s Hne. unfold get_set. simpl. by rewrite lookup_insert_ne. }
    split.
    { unfold get_set. simpl. by rewrite lookup_insert_eq. }
    repeat split; simpl; lia.
Qed.

Lemma publish_in_action
    (call : RId → M unit) (fuel : nat) (s : option SetRef) (st : State)
    (batch : JSSet.t (option SetRef)) :
  currentActionReactionSets st = Some batch →
  publish call fuel s st
  = Done tt (with_action (Some (JSSet.add s batch)) (log (EvPublish s) st)).
Proof. intros Hb. unfold publish, bind, modify. simpl. by rewrite Hb. Qed.




(** The two cases on the state of the test: [s.foo.stuff = 4] adds a field
    and publishes to set 0, the handle of [foo] in [s] and parent of
    [s.foo], which runs the reaction; [s.foo.bar = 13] changes a field and
    publishes to set 1, the handle of [bar]. *)
Example new_field_escalation :
  PARENT_REACTIONS (get_obj 3 new_property_state) = Some 0
  ∧ PROPERTY_REACTIONS (get_obj 3 new_property_state) !! "bar" = Some 1
  ∧ trace new_property_state = [EvPublish (Some 0); EvEffect 0 (VNum 12)]
  ∧ trace (final (proxy_set (invoke 5) 6 3 "stuff" (VNum 4) new_property_state))
    = [EvPublish (Some 0); EvEffect 0 (VNum 12);
       EvPublish (Some 0); EvEffect 0 (VNum 12)]
  ∧ trace (final (proxy_set (invoke 5) 6 3 "bar" (VNum 13) new_property_state))
    = [EvPublish (Some 0); EvEffect 0 (VNum 12);
       EvPublish (Some 1); EvEffect 0 (VNum 13)].
Proof. vm_compute. repeat split. Qed.

(** ** C10: wrapping an array at the root *)

Lemma get_obj_new_obj_ne (o : Obj) (l : Loc) (st : State) :
  l ≠ next_loc st → get_obj l (new_obj o st).2 = get_obj l st.
Proof. intros Hne. unfold get_obj. simpl. by rewrite lookup_insert_ne. Qed.

Lemma get_obj_new_obj (o : Obj) (st : State) :
  get_obj (next_loc st) (new_obj o st).2 = o.
Proof. unfold get_obj. simpl. by rewrite lookup_insert_eq. Qed.

Lemma objs_track (s : SetRef) (st : State) : objs (track s st) = objs st.
Proof. unfold track. by destruct (currentlyTracking st). Qed.

Lemma action_track (s : SetRef) (st : State) :
  currentActionReactionSets (track s st) = currentActionReactionSets st.
Proof. unfold track. by destruct (currentlyTracking st). Qed.

(** A property read returns, and changes at most the tracking frame and the
    subscription record. *)
Lemma read_property_returns (l : Loc) (prop : string) (st : State) :
  ∃ v st', read_property l prop st = Done v st'
    ∧ objs st' = objs st
    ∧ currentActionReactionSets st' = currentActionReactionSets st
    ∧ (is_array (get_obj l st) && bool_decide (prop ∈ ARRAY_MUTATION_METHODS) = false →
       v = read_own (get_obj l st) prop).
Proof.
  unfold read_property, proxy_get.
  destruct (proxied (get_obj l st)); [| by eexists _, _].
  destruct (is_array (get_obj l st) && _) eqn:Hm.
  - by eexists _, _.
  - destruct (PROPERTY_REACTIONS (get_obj l st) !! prop).
    + eexists _, _. split; [done |]. by rewrite objs_track, action_track.
    + by eexists _, _.
Qed.

Lemma PARENT_REACTIONS_apply_method (m : ArrayMethod) (o : Obj) (self : Value) :
  PARENT_REACTIONS (apply_method m o self).1 = PARENT_REACTIONS o.
Proof. unfold apply_method. by destruct m. Qed.

(** A mutation method called on an array that has no parent reaction-set,
    outside an action: the method runs on the target, then [publish]
    throws. *)
Lemma proxy_method_without_parent_throws
    (call : RId → M unit) (fuel : nat) (l : Loc) (m : ArrayMethod) (st : State) :
  PARENT_REACTIONS (get_obj l st) = None →
  currentActionReactionSets st = None →
  ∃ st', proxy_method call fuel l m st
         = Throws (TypeError "undefined is not iterable") st'.
Proof.
  intros Hparent Hbatch. unfold proxy_method.
  unfold bind at 1. unfold alloc.
  pose proof (PARENT_REACTIONS_apply_method m (get_obj l st) (VRef l)) as Hp.
  destruct (apply_method m (get_obj l st) (VRef l)) as [target res]. simpl in Hp.
  unfold bind at 1. unfold gets.
  replace (PARENT_REACTIONS (get_obj l (with_objs <[l:=target]> st))) with (@None nat).
  2: { unfold get_obj. simpl. rewrite lookup_insert_eq. simpl. congruence. }
  unfold bind at 1. unfold publish. unfold bind at 1. unfold modify. simpl.
  rewrite Hbatch. eauto.
Qed.

(** [observable] on an object: the first branch, whatever the object. *)
Lemma observable_object_unfold
    (call : RId → M unit) (fuel : nat) (src : Loc) (parentReactionSet : option SetRef) :
  observable call (S fuel) (VRef src) parentReactionSet =
    (let! arr := gets (λ st, is_array (get_obj src st)) in
     let! proxy := alloc (new_obj (mkObj arr [] true ∅ parentReactionSet)) in
     (if arr then copy_elements call fuel proxy src 0
      else
        let! keys := gets (λ st, fst <$> props (get_obj src st)) in
        copy_properties call fuel proxy src keys);;
     ret (VRef proxy)).
Proof. reflexivity. Qed.

(** C10.  Wrapping a non-empty array with no parent reaction-set, outside
    an action, never returns: the first [push] of the copy loop publishes to
    the absent parent and [publish] throws a [TypeError].  With fuel for the
    two nested calls the throw is reached. *)
Theorem observable_root_array_throws
    (call : RId → M unit) (src : Loc) (st : State) :
  is_array (get_obj src st) = true →
  props (get_obj src st) ≠ [] →
  src < next_loc st →
  currentActionReactionSets st = None →
  (∀ fuel, ∃ st', observable call (S (S fuel)) (VRef src) None st
                  = Throws (TypeError "undefined is not iterable") st')
  ∧ (∀ fuel, returns (observable call fuel (VRef src) None st) = false).
Proof.
  intros Harr Hne Hlt Hbatch.
  assert (Hthrow : ∀ fuel, ∃ st', observable call (S (S fuel)) (VRef src) None st
                  = Throws (TypeError "undefined is not iterable") st').
  { intros fuel. rewrite observable_object_unfold.
    unfold bind at 1. unfold gets at 1. rewrite Harr.
    unfold bind at 1. unfold alloc at 1.
    set (st1 := (new_obj (mkObj true [] true ∅ None) st).2).
    change (new_obj (mkObj true [] true ∅ None) st) with (next_loc st, st1).
    cbv iota beta.
    assert (Hsrc : get_obj src st1 = get_obj src st).
    { apply get_obj_new_obj_ne. lia. }
    assert (Hproxy : get_obj (next_loc st) st1 = mkObj true [] true ∅ None).
    { apply get_obj_new_obj. }
    unfold bind at 1. cbn [copy_elements].
    unfold bind at 1.
    destruct (read_property_returns src "length" st1) as (len & st2 & -> & Ho2 & Hb2 & Hlen).
    rewrite Hlen by (rewrite Hsrc, Harr; reflexivity).
    unfold read_own. rewrite Hsrc, Harr. simpl.
    rewrite bool_decide_eq_true_2.
    2: { destruct (props (get_obj src st)); [done | simpl; lia]. }
    unfold bind at 1.
    destruct (read_property_returns src (pretty 0) st2) as (v & st3 & -> & Ho3 & Hb3 & _).
    unfold bind at 1.
    destruct (proxy_method_without_parent_throws call fuel (next_loc st) (push v) st3)
      as [st' ->].
    - unfold get_obj in *. rewrite Ho3, Ho2. by rewrite Hproxy.
    - rewrite Hb3, Hb2. done.
    - eauto. }
  split; [done |].
  intros [| [| fuel]].
  - reflexivity.
  - rewrite observable_object_unfold. unfold bind, gets, alloc.
    rewrite Harr. reflexivity.
  - destruct (Hthrow fuel) as [st' ->]. reflexivity.
Qed.

Lemma observable_root_array_throws_witness :
  (∀ fuel, ∃ st', observable (invoke 3) (S (S fuel)) (VRef 0) None array_literal_state
                  = Throws (TypeError "undefined is not iterable") st')
  ∧ (∀ fuel, returns (observable (invoke 3) fuel (VRef 0) None array_literal_state)
             = false).
Proof.
  apply (observable_root_array_throws (invoke 3) 0 array_literal_state).
  - reflexivity.
  - simpl. discriminate.
  - simpl. lia.
  - reflexivity.
Defined.

(** The same call as user code, [observable([1])], and inside an object,
    where the array has a parent reaction-set and the call returns. *)
Example observable_array_runs :
  throws (run 10 (Alloc true [("0", VNum 1)] (λ lit, Observable lit Ret)) init) = true
  ∧ returns (run 10 (Alloc true [("0", VNum 1)] (λ a,
                     Alloc false [("xs", a)] (λ lit, Observable lit Ret))) init) = true.
Proof. vm_compute. split; reflexivity. Qed.

(** ** C2: wrapping twice *)

(** An object always gets a new proxy, at the next free location, also
    when it is a proxy already: the test for [PROPERTY_REACTIONS] looks at
    [Object], not at [val]. *)
Lemma observable_object_is_rewrapped
    (call : RId → M unit) (fuel : nat) (src : Loc)
    (parentReactionSet : option SetRef) (st st' : State) (v : Value) :
  observable call fuel (VRef src) parentReactionSet st = Done v st' →
  v = VRef (next_loc st).
Proof.
  destruct fuel as [| fuel]; [done |].
  rewrite observable_object_unfold. intros H.
  apply bind_Done in H as (arr & st1 & H0 & H).
  apply bind_Done in H as (proxy & st2 & Halloc & H).
  apply bind_Done in H as (? & st3 & _ & H).
  apply ret_Done in H as [-> _].
  apply gets_Done in H0 as [_ ->].
  unfold alloc in Halloc. simpl in Halloc. congruence.
Qed.

(** C2 fails on the code.  Wrapping the wrapped object [obs] again returns
    a different object, a new proxy around a copy with handles of its own:
    the reaction that reads [obs.a] is not run by the write to [again.a],
    and [obs.a] still reads 1. *)
Theorem observable_wraps_wrapped_object_again :
  run 10 wrap_twice init
  = Done (VBool false) (final (run 10 wrap_twice init))
  ∧ effects_of 0 (trace (final (run 10 wrap_twice init))) = [VNum 1]
  ∧ proxied (get_obj 1 (final (run 10 wrap_twice init))) = true
  ∧ proxied (get_obj 2 (final (run 10 wrap_twice init))) = true
  ∧ read_own (get_obj 1 (final (run 10 wrap_twice init))) "a" = VNum 1
  ∧ read_own (get_obj 2 (final (run 10 wrap_twice init))) "a" = VNum 2
  ∧ PROPERTY_REACTIONS (get_obj 1 (final (run 10 wrap_twice init))) !! "a" = Some 0
  ∧ PROPERTY_REACTIONS (get_obj 2 (final (run 10 wrap_twice init))) !! "a" = Some 1.
Proof.
  assert (H : ∃ st, run 10 wrap_twice init = Done (VBool false) st).
  { vm_compute. eexists. reflexivity. }
  destruct H as [st H]. rewrite H. simpl final.
  split; [reflexivity |].
  assert (Hst : st = final (run 10 wrap_twice init)) by by rewrite H.
  rewrite Hst. vm_compute. repeat split.
Qed.

(** ** Fuel *)

(** More fuel does not change a result, it only turns a timeout into
    one. *)

Lemma below_refl {A} (m : M A) : below m m.
Proof. intros st. by right. Qed.

Lemma below_bind {A B} (m1 m2 : M A) (k1 k2 : A → M B) :
  below m1 m2 → (∀ a, below (k1 a) (k2 a)) → below (bind m1 k1) (bind m2 k2).
Proof.
  intros Hm Hk st. unfold bind.
  destruct (Hm st) as [-> | ->]; [by left |].
  destruct (m2 st) as [a st' | e st' |]; [apply Hk | by right | by left].
Qed.

Section Fuel.
Variables call1 call2 : RId → M unit.
Hypothesis call_below : ∀ r, below (call1 r) (call2 r).

Lemma publish_loop_below (fuel1 fuel2 : nat) (s : SetRef) (i : nat) :
  fuel1 ≤ fuel2 →
  below (publish_loop call1 fuel1 s i) (publish_loop call2 fuel2 s i).
Proof.
  revert fuel2 i. induction fuel1 as [| fuel1 IH]; intros fuel2 i Hle st; [by left |].
  destruct fuel2 as [| fuel2]; [lia |]. simpl.
  destruct (get_set s st !! i) as [[r |] |].
  - apply below_bind; [apply call_below |]. intros _. apply IH. lia.
  - apply IH. lia.
  - by right.
Qed.

Lemma publish_below (fuel1 fuel2 : nat) (s : option SetRef) :
  fuel1 ≤ fuel2 → below (publish call1 fuel1 s) (publish call2 fuel2 s).
Proof.
  intros Hle. unfold publish. apply below_bind; [apply below_refl |].
  intros _ st. destruct (currentActionReactionSets st); [by right |].
  destruct s as [s |]; [| by right]. by apply publish_loop_below.
Qed.

Lemma run_all_below (rs : list RId) : below (run_all call1 rs) (run_all call2 rs).
Proof.
  induction rs as [| r rs IH]; simpl; [apply below_refl |].
  apply below_bind; [apply call_below | done].
Qed.

Lemma publishAll_below (reactionSets : JSSet.t (option SetRef)) :
  below (publishAll call1 reactionSets) (publishAll call2 reactionSets).
Proof.
  intros st. unfold publishAll.
  destruct (currentActionReactionSets st); [by right |].
  destruct (collect_reactions _ _ _); [apply run_all_below | by right].
Qed.

Lemma completeAction_below : below (completeAction call1) (completeAction call2).
Proof.
  intros st. unfold completeAction.
  destruct (currentActionReactionSets st); [apply publishAll_below | by right].
Qed.

Lemma proxy_method_below (fuel1 fuel2 : nat) (l : Loc) (m : ArrayMethod) :
  fuel1 ≤ fuel2 →
  below (proxy_method call1 fuel1 l m) (proxy_method call2 fuel2 l m).
Proof.
  intros Hle. unfold proxy_method.
  apply below_bind; [apply below_refl |]. intros res.
  apply below_bind; [apply below_refl |]. intros parent.
  apply below_bind; [by apply publish_below |]. intros _. apply below_refl.
Qed.

Lemma copy_elements_below (fuel1 fuel2 : nat) (proxy src : Loc) (i : nat) :
  fuel1 ≤ fuel2 →
  below (copy_elements call1 fuel1 proxy src i) (copy_elements call2 fuel2 proxy src i).
Proof.
  revert fuel2 i. induction fuel1 as [| fuel1 IH]; intros fuel2 i Hle; [by left |].
  destruct fuel2 as [| fuel2]; [lia |]. simpl.
  apply below_bind; [apply below_refl |].
  intros [| | | n | | |]; try apply below_refl.
  case_bool_decide; [| apply below_refl].
  apply below_bind; [apply below_refl |]. intros v.
  apply below_bind; [apply proxy_method_below; lia |]. intros _. apply IH. lia.
Qed.

Lemma observable_proxy_set_below (fuel1 : nat) :
  ∀ fuel2, fuel1 ≤ fuel2 →
    (∀ val parent,
       below (observable call1 fuel1 val parent) (observable call2 fuel2 val parent))
    ∧ (∀ l prop value,
         below (proxy_set call1 fuel1 l prop value) (proxy_set call2 fuel2 l prop value))
    ∧ (∀ proxy src keys,
         below (copy_properties call1 fuel1 proxy src keys)
           (copy_properties call2 fuel2 proxy src keys)).
Proof.
  induction fuel1 as [| fuel1 IH]; intros fuel2 Hle.
  { repeat split; intros; by left. }
  destruct fuel2 as [| fuel2]; [lia |].
  destruct (IH fuel2) as (IHo & IHs & IHc); [lia |].
  split; [| split].
  - intros val parent. destruct val; try apply below_refl.
    rewrite !observable_object_unfold.
    apply below_bind; [apply below_refl |]. intros arr.
    apply below_bind; [apply below_refl |]. intros proxy.
    apply below_bind; [| intros; apply below_refl].
    destruct arr; [apply copy_elements_below; lia |].
    apply below_bind; [apply below_refl |]. intros keys. apply IHc.
  - intros l prop value. rewrite !proxy_set_unfold.
    apply below_bind; [apply below_refl |]. intros current.
    destruct (negb _); [| apply below_refl].
    apply below_bind.
    + unfold store_observable.
      apply below_bind; [apply below_refl |]. intros newProperty.
      apply below_bind; [apply below_refl |]. intros existing.
      apply below_bind; [apply below_refl |]. intros _.
      apply below_bind; [apply below_refl |]. intros handle.
      apply below_bind; [apply IHo |]. intros wrapped. apply below_refl.
    + intros [|].
      * apply below_bind; [apply below_refl |].
        intros [parent |]; [apply publish_below; lia | apply below_refl].
      * apply below_bind; [apply below_refl |].
        intros handle. apply publish_below. lia.
  - intros proxy src [| key keys]; simpl; [apply below_refl |].
    apply below_bind; [apply below_refl |]. intros v.
    apply below_bind; [apply IHs |]. intros _. apply IHc.
Qed.

Lemma exec_below (fuel1 fuel2 : nat) (p : Prog) :
  fuel1 ≤ fuel2 → below (exec call1 fuel1 p) (exec call2 fuel2 p).
Proof.
  intros Hle.
  destruct (observable_proxy_set_below fuel1 fuel2 Hle) as (Ho & Hs & _).
  induction p as [v | v | arr ps k IH | v k IH | o prop k IH | o prop v k IH
                 | o k IH | o m k IH | t IHt e IHe k IH | fn IHfn k IH | r k IH];
    simpl.
  - apply below_refl.
  - apply below_refl.
  - apply below_bind; [apply below_refl | done].
  - apply below_bind; [apply Ho | done].
  - apply below_bind; [apply below_refl | done].
  - apply below_bind; [| done].
    destruct o; simpl; try apply below_refl.
    intros st. destruct (proxied (get_obj l st)); [apply Hs | by right].
  - apply below_bind; [apply below_refl | done].
  - apply below_bind; [| done].
    destruct o; simpl; try apply below_refl.
    intros st. destruct (proxied (get_obj l st)), (is_array (get_obj l st));
      try by right.
    by apply proxy_method_below.
  - apply below_bind; [apply below_refl |]. intros r.
    apply below_bind; [apply call_below | done].
  - apply below_bind; [apply below_refl |]. intros _.
    apply below_bind; [done |]. intros _.
    apply below_bind; [apply completeAction_below | done].
  - apply below_bind; [apply below_refl | done].
Qed.

Lemma reactionFn_below (fuel1 fuel2 : nat) (r : RId) :
  fuel1 ≤ fuel2 → below (reactionFn call1 fuel1 r) (reactionFn call2 fuel2 r).
Proof.
  intros Hle. unfold reactionFn.
  apply below_bind; [apply below_refl |].
  intros [[trackedFn effectFn] |]; [| apply below_refl].
  apply below_bind; [apply below_refl |]. intros _.
  apply below_bind; [by apply exec_below |]. intros result.
  apply below_bind; [apply below_refl |]. intros _.
  apply below_bind; [apply below_refl |]. intros _.
  apply below_bind; [by apply exec_below |]. intros _. apply below_refl.
Qed.
End Fuel.

Lemma invoke_below (n m : nat) (r : RId) :
  n ≤ m → below (invoke n r) (invoke m r).
Proof.
  revert m r. induction n as [| n IH]; intros m r Hle; [by left |].
  destruct m as [| m]; [lia |]. cbn [invoke].
  apply reactionFn_below; [| lia]. intros r'. apply IH. lia.
Qed.

Lemma run_below (n m : nat) (p : Prog) : n ≤ m → below (run n p) (run m p).
Proof.
  intros Hle. unfold run. apply exec_below; [| done].
  intros r. by apply invoke_below.
Qed.

(** A run that returns or throws does the same with more fuel. *)
Lemma run_Done_more_fuel (n m : nat) (p : Prog) (st st' : State) (v : Value) :
  n ≤ m → run n p st = Done v st' → run m p st = Done v st'.
Proof.
  intros Hle Hrun. destruct (run_below n m p Hle st) as [H | H]; congruence.
Qed.

Lemma run_Throws_more_fuel (n m : nat) (p : Prog) (st st' : State) (e : Exn) :
  n ≤ m → run n p st = Throws e st' → run m p st = Throws e st'.
Proof.
  intros Hle Hrun. destruct (run_below n m p Hle st) as [H | H]; congruence.
Qed.

(** ** Invariants of a run *)

Lemma action_guarded_True (p : Prog) : action_guarded True p.
Proof. induction p; simpl; auto. Qed.

(** The members of [allReactions] come from the reaction-sets. *)
Lemma elem_of_foldl_add (xs : list RId) (acc : JSSet.t RId) (r : RId) :
  Some r ∈ foldl (λ acc reaction, JSSet.add reaction acc) acc xs →
  Some r ∈ acc ∨ r ∈ xs.
Proof.
  revert acc. induction xs as [| x xs IH]; intros acc; simpl; [auto |].
  intros [Hin | Hin]%IH; [| right; by right].
  apply JSSetFacts.elem_of_add in Hin as [-> | Hin]; [right; by left | auto].
Qed.

Lemma elem_of_collect_reactions st (l : list (option SetRef))
    (acc allReactions : JSSet.t RId) (r : RId) :
  collect_reactions st l acc = Some allReactions →
  Some r ∈ allReactions →
  Some r ∈ acc ∨ ∃ s, Some r ∈ get_set s st.
Proof.
  revert acc. induction l as [| [s |] l IH]; intros acc; simpl.
  - intros [= ->]. auto.
  - intros Hc Hin. destruct (IH _ Hc Hin) as [Hacc | ?]; [| auto].
    apply elem_of_foldl_add in Hacc as [? | Hs]; [auto |].
    right. exists s. by apply JSSetFacts.elem_of_elements.
  - done.
Qed.

(** A property of states that every step of the runtime keeps, given that
    the state changes the runtime is built from keep it and that running a
    reaction keeps it.  Reactions are run from a reaction-set, or when they
    are created; [callable r st] describes those that may be met in state
    [st].  The property
    either implies that an action is open, and then no reaction-set is ever
    iterated, or it bounds the members of the reaction-sets. *)
Section Invariant.
Variable Inv : State → Prop.
Variable callable : RId → State → Prop.
Variable allow : Prop.
Variable call : RId → M unit.

Hypothesis Inv_log_publish : ∀ st s, Inv st → Inv (log (EvPublish s) st).
Hypothesis Inv_batch : ∀ st b,
  Inv st → currentActionReactionSets st ≠ None → Inv (with_action (Some b) st).
Hypothesis Inv_track : ∀ st s, Inv st → Inv (track s st).
Hypothesis Inv_objs : ∀ st f, Inv st → Inv (with_objs f st).
Hypothesis Inv_new_set : ∀ st, Inv st → Inv (new_set st).2.
Hypothesis Inv_new_obj : ∀ st o, Inv st → Inv (new_obj o st).2.
Hypothesis Inv_new_reaction : ∀ st t e,
  Inv st → action_guarded allow t → (∀ v, action_guarded allow (e v)) →
  Inv (new_reaction t e st).2
  ∧ callable (next_reaction st) (new_reaction t e st).2.
Hypothesis Inv_dispose : ∀ st r, Inv st → Inv (dispose r st).
Hypothesis Inv_beginAction : allow → ∀ st, Inv st → Inv (beginAction st).
Hypothesis Inv_endAction : allow → ∀ st, Inv st → Inv (with_action None st).
Hypothesis Inv_publish :
  (∀ st, Inv st → currentActionReactionSets st ≠ None)
  ∨ (∀ st s r, Inv st → Some r ∈ get_set s st → ∀ st', Inv st' → callable r st').
Hypothesis Inv_call : ∀ r st, callable r st → Inv st → holds_after Inv (call r st).

Lemma preserves_ret {A} (a : A) : preserves Inv (ret a).
Proof. by intros st HI. Qed.

Lemma preserves_throw {A} (e : Exn) : preserves Inv (@throw A e).
Proof. by intros st HI. Qed.

Lemma preserves_gets {A} (f : State → A) : preserves Inv (gets f).
Proof. by intros st HI. Qed.

Lemma preserves_modify (f : State → State) :
  (∀ st, Inv st → Inv (f st)) → preserves Inv (modify f).
Proof. intros Hf st HI. by apply Hf. Qed.

Lemma preserves_alloc {A} (f : State → A * State) :
  (∀ st, Inv st → Inv (f st).2) → preserves Inv (alloc f).
Proof.
  intros Hf st HI. unfold alloc. specialize (Hf st HI).
  by destruct (f st).
Qed.

Lemma preserves_not_hasOwnProperty (l : Loc) (prop : string) :
  preserves Inv (not_hasOwnProperty l prop).
Proof.
  intros st HI. unfold not_hasOwnProperty.
  by destruct (hasOwnProperty (get_obj l st) "hasOwnProperty").
Qed.

Lemma preserves_bind {A B} (m : M A) (k : A → M B) :
  preserves Inv m → (∀ a, preserves Inv (k a)) → preserves Inv (bind m k).
Proof.
  intros Hm Hk st HI. unfold bind. specialize (Hm st HI).
  destruct (m st) as [a st' | e st' |]; [| done | done].
  by apply Hk.
Qed.

Lemma publish_loop_preserves (fuel : nat) (s : SetRef) (i : nat) :
  (∀ st s r, Inv st → Some r ∈ get_set s st → ∀ st', Inv st' → callable r st') →
  preserves Inv (publish_loop call fuel s i).
Proof.
  intros Hmem. revert i. induction fuel as [| fuel IH]; intros i st HI; [done |].
  simpl. destruct (get_set s st !! i) as [[r |] |] eqn:Hi.
  - assert (Hr : ∀ st', Inv st' → callable r st').
    { eapply Hmem; [exact HI |]. eapply list_elem_of_lookup_2. exact Hi. }
    apply preserves_bind; [| by intros; apply IH | done].
    intros st' HI'. apply Inv_call; auto.
  - by apply IH.
  - done.
Qed.

Lemma publish_preserves (fuel : nat) (s : option SetRef) :
  preserves Inv (publish call fuel s).
Proof.
  unfold publish. apply preserves_bind.
  { apply preserves_modify. auto. }
  intros _ st HI.
  destruct (currentActionReactionSets st) as [b |] eqn:Hb.
  - apply Inv_batch; [done | congruence].
  - destruct Inv_publish as [Hopen | Hmem]; [by destruct (Hopen st HI) |].
    destruct s as [s |]; [| done].
    by apply publish_loop_preserves.
Qed.

Lemma run_all_preserves (rs : list RId) :
  Forall (λ r, ∀ st, Inv st → callable r st) rs → preserves Inv (run_all call rs).
Proof.
  induction 1 as [| r rs Hr _ IH]; simpl.
  - apply preserves_ret.
  - apply preserves_bind; [| done].
    intros st HI. apply Inv_call; auto.
Qed.

Lemma publishAll_preserves (reactionSets : JSSet.t (option SetRef)) :
  preserves Inv (publishAll call reactionSets).
Proof.
  intros st HI. unfold publishAll.
  destruct (currentActionReactionSets st) as [b |] eqn:Hb.
  - apply Inv_batch; [done | congruence].
  - destruct Inv_publish as [Hopen | Hmem]; [by destruct (Hopen st HI) |].
    destruct (collect_reactions _ _ _) as [allReactions |] eqn:Hc; [| done].
    apply run_all_preserves; [| done].
    apply Forall_forall. intros r Hr%JSSetFacts.elem_of_elements.
    destruct (elem_of_collect_reactions _ _ _ _ _ Hc Hr) as [Hacc | [s Hs]].
    + by apply elem_of_nil in Hacc.
    + eapply Hmem; [exact HI | exact Hs].
Qed.

Lemma completeAction_preserves : allow → preserves Inv (completeAction call).
Proof.
  intros Hallow st HI. unfold completeAction.
  pose proof (Inv_endAction Hallow st HI) as HI'.
  destruct (currentActionReactionSets st); [| done].
  by apply publishAll_preserves.
Qed.

Lemma proxy_get_preserves (l : Loc) (prop : string) :
  preserves Inv (proxy_get l prop).
Proof.
  intros st HI. unfold proxy_get.
  destruct (is_array (get_obj l st) && _); [done |].
  destruct (PROPERTY_REACTIONS (get_obj l st) !! prop); simpl; auto.
Qed.

Lemma read_property_preserves (l : Loc) (prop : string) :
  preserves Inv (read_property l prop).
Proof.
  intros st HI. unfold read_property.
  destruct (proxied (get_obj l st)); [| done].
  by apply proxy_get_preserves.
Qed.

Lemma proxy_method_preserves (fuel : nat) (l : Loc) (m : ArrayMethod) :
  preserves Inv (proxy_method call fuel l m).
Proof.
  unfold proxy_method. apply preserves_bind.
  { apply preserves_alloc. intros st HI.
    destruct (apply_method _ _ _). simpl. auto. }
  intros res. apply preserves_bind; [apply preserves_gets |].
  intros parent. apply preserves_bind; [apply publish_preserves |].
  intros _. apply preserves_ret.
Qed.

Lemma copy_elements_preserves (fuel : nat) (proxy src : Loc) (i : nat) :
  preserves Inv (copy_elements call fuel proxy src i).
Proof.
  revert i. induction fuel as [| fuel IH]; intros i; [done |].
  simpl. apply preserves_bind; [apply read_property_preserves |].
  intros [| | | n | | |]; try apply preserves_ret.
  case_bool_decide; [| apply preserves_ret].
  apply preserves_bind; [apply read_property_preserves |].
  intros v. apply preserves_bind; [apply proxy_method_preserves |].
  intros _. apply IH.
Qed.

Lemma observable_proxy_set_preserve (fuel : nat) :
  (∀ val parent, preserves Inv (observable call fuel val parent))
  ∧ (∀ l prop value, preserves Inv (proxy_set call fuel l prop value))
  ∧ (∀ proxy src keys, preserves Inv (copy_properties call fuel proxy src keys)).
Proof.
  induction fuel as [| fuel (IHo & IHs & IHc)]; [done |].
  split; [| split].
  - intros val parent. destruct val; try apply preserves_ret.
    rewrite observable_object_unfold.
    apply preserves_bind; [apply preserves_gets |]. intros arr.
    apply preserves_bind; [apply preserves_alloc; auto |]. intros proxy.
    apply preserves_bind; [| intros; apply preserves_ret].
    destruct arr; [apply copy_elements_preserves |].
    apply preserves_bind; [apply preserves_gets |]. intros keys. apply IHc.
  - intros l prop value. rewrite proxy_set_unfold.
    apply preserves_bind; [apply preserves_gets |]. intros current.
    destruct (negb _); [| apply preserves_ret].
    apply preserves_bind.
    + unfold store_observable.
      apply preserves_bind; [apply preserves_not_hasOwnProperty |]. intros newProperty.
      apply preserves_bind; [apply preserves_gets |]. intros existing.
      apply preserves_bind.
      { destruct existing; [apply preserves_ret |].
        apply preserves_bind; [apply preserves_alloc; auto |]. intros s.
        apply preserves_modify. auto. }
      intros _. apply preserves_bind; [apply preserves_gets |]. intros handle.
      apply preserves_bind; [apply IHo |]. intros wrapped.
      apply preserves_bind; [apply preserves_modify; auto |].
      intros _. apply preserves_ret.
    + intros [|].
      * apply preserves_bind; [apply preserves_gets |].
        intros [parent |]; [apply publish_preserves | apply preserves_ret].
      * apply preserves_bind; [apply preserves_gets |].
        intros handle. apply publish_preserves.
  - intros proxy src [| key keys]; simpl; [apply preserves_ret |].
    apply preserves_bind; [apply read_property_preserves |]. intros v.
    apply preserves_bind; [apply IHs |]. intros _. apply IHc.
Qed.

Lemma observable_preserves fuel val parent :
  preserves Inv (observable call fuel val parent).
Proof. apply observable_proxy_set_preserve. Qed.

Lemma proxy_set_preserves fuel l prop value :
  preserves Inv (proxy_set call fuel l prop value).
Proof. apply observable_proxy_set_preserve. Qed.

Lemma get_property_preserves (o : Value) (prop : string) :
  preserves Inv (get_property o prop).
Proof.
  destruct o; simpl; try apply preserves_ret; try apply preserves_throw.
  apply read_property_preserves.
Qed.

Lemma set_property_preserves (fuel : nat) (o : Value) (prop : string) (v : Value) :
  preserves Inv (set_property call fuel o prop v).
Proof.
  destruct o; simpl; try apply preserves_throw.
  intros st HI. destruct (proxied (get_obj l st)).
  - by apply proxy_set_preserves.
  - simpl. auto.
Qed.

Lemma object_keys_preserves (o : Value) : preserves Inv (object_keys o).
Proof.
  destruct o; simpl; try apply preserves_ret; try apply preserves_throw.
  apply preserves_gets.
Qed.

Lemma call_method_preserves (fuel : nat) (o : Value) (m : ArrayMethod) :
  preserves Inv (call_method call fuel o m).
Proof.
  destruct o; simpl; try apply preserves_throw.
  intros st HI. destruct (proxied (get_obj l st)), (is_array (get_obj l st)).
  - by apply proxy_method_preserves.
  - revert st HI.
    apply preserves_bind; [apply proxy_get_preserves |].
    intros _. apply preserves_throw.
  - destruct (apply_method _ _ _). simpl. auto.
  - done.
Qed.

(** User code keeps the property. *)
Lemma exec_preserves (fuel : nat) (p : Prog) :
  action_guarded allow p → preserves Inv (exec call fuel p).
Proof.
  induction p as [v | v | arr ps k IH | v k IH | o prop k IH | o prop v k IH
                 | o k IH | o m k IH | t IHt e IHe k IH | fn IHfn k IH | r k IH];
    simpl; intros Hp.
  - apply preserves_ret.
  - apply preserves_throw.
  - apply preserves_bind; [apply preserves_alloc; auto |]. intros l. by apply IH.
  - apply preserves_bind; [apply observable_preserves |]. intros w. by apply IH.
  - apply preserves_bind; [apply get_property_preserves |]. intros w. by apply IH.
  - apply preserves_bind; [apply set_property_preserves |]. intros _. by apply IH.
  - apply preserves_bind; [apply object_keys_preserves |]. intros ks. by apply IH.
  - apply preserves_bind; [apply call_method_preserves |]. intros w. by apply IH.
  - destruct Hp as (Ht & He & Hk).
    intros st HI. unfold bind at 1. unfold alloc.
    destruct (Inv_new_reaction st t e HI Ht He) as [HI' Hcall]. simpl.
    unfold bind at 1. pose proof (Inv_call _ _ Hcall HI') as Hres.
    destruct (call _ _) as [[] st' | |]; [| done | done].
    by apply IH.
  - destruct Hp as (Hallow & Hfn & Hk).
    apply preserves_bind; [apply preserves_modify; auto |]. intros _.
    apply preserves_bind; [by apply IHfn |]. intros _.
    apply preserves_bind; [by apply completeAction_preserves |]. intros _.
    by apply IH.
  - apply preserves_bind; [apply preserves_modify; auto |]. intros _. by apply IH.
Qed.
End Invariant.

(** ** A reaction that belongs to no reaction-set is not run *)

Lemma effects_of_app (r : RId) (tr1 tr2 : list Event) :
  effects_of r (tr1 ++ tr2) = effects_of r tr1 ++ effects_of r tr2.
Proof. unfold effects_of. apply omap_app. Qed.

Lemma effects_of_log_publish (r : RId) (s : option SetRef) (st : State) :
  effects_of r (trace (log (EvPublish s) st)) = effects_of r (trace st).
Proof. simpl. rewrite effects_of_app. simpl. by rewrite app_nil_r. Qed.

Lemma effects_of_log_other (r r' : RId) (v : Value) (st : State) :
  r' ≠ r →
  effects_of r (trace (log (EvEffect r' v) st)) = effects_of r (trace st).
Proof.
  intros Hne. simpl. rewrite effects_of_app. simpl.
  case_decide; [done |]. by rewrite app_nil_r.
Qed.

Lemma effects_of_log_same (r : RId) (v : Value) (st : State) :
  effects_of r (trace (log (EvEffect r v) st)) = effects_of r (trace st) ++ [v].
Proof. simpl. rewrite effects_of_app. simpl. by case_decide. Qed.

Lemma track_fields (s : SetRef) (st : State) :
  sets (track s st) = sets st
  ∧ next_reaction (track s st) = next_reaction st
  ∧ trace (track s st) = trace st
  ∧ (trackedFunction <$> currentlyTracking (track s st))
    = (trackedFunction <$> currentlyTracking st).
Proof.
  unfold track. destruct (currentlyTracking st) eqn:Hfr; simpl; [done |].
  by rewrite Hfr.
Qed.

Lemma dispose_fields (r : RId) (st : State) :
  next_reaction (dispose r st) = next_reaction st
  ∧ trace (dispose r st) = trace st
  ∧ currentlyTracking (dispose r st) = currentlyTracking st
  ∧ currentActionReactionSets (dispose r st) = currentActionReactionSets st
  ∧ reactions (dispose r st) = reactions st.
Proof.
  unfold dispose. destruct (reactionSubscriptionSets st !! r) as [rs |]; [| done].
  simpl. generalize (JSSet.elements rs). intros l. revert st.
  induction l as [| s l IH]; intros st; simpl; [done |].
  destruct (IH (set_delete s r st)) as (-> & -> & -> & -> & ->). done.
Qed.

Lemma get_set_dispose (r : RId) (s : SetRef) (st : State) :
  get_set s (dispose r st) = get_set s st
  ∨ get_set s (dispose r st) = JSSet.delete r (get_set s st).
Proof.
  unfold dispose. destruct (reactionSubscriptionSets st !! r) as [rs |]; [| by left].
  change (get_set s (with_subscriptions (delete r) ?st')) with (get_set s st').
  rewrite get_set_foldl_delete. case_bool_decide; auto.
Qed.

Lemma completeTracking_fields (st : State) :
  next_reaction (completeTracking st) = next_reaction st
  ∧ trace (completeTracking st) = trace st
  ∧ currentActionReactionSets (completeTracking st) = currentActionReactionSets st
  ∧ reactions (completeTracking st) = reactions st.
Proof.
  unfold completeTracking. destruct (currentlyTracking st) as [fr |]; [| done].
  simpl. generalize (JSSet.elements (reactionSets fr)). intros l. revert st.
  induction l as [| s l IH]; intros st; simpl; [done |].
  destruct (IH (set_add s (trackedFunction fr) st)) as (-> & -> & -> & ->). done.
Qed.

Section Silent.
Variable r0 : RId.
Variable L : list Value.
Variable framed : bool.

Lemma silent_sets_eq (st st' : State) :
  next_reaction st ≤ next_reaction st' →
  sets st' = sets st →
  trace st' = trace st →
  (trackedFunction <$> currentlyTracking st' = trackedFunction <$> currentlyTracking st
   ∨ currentlyTracking st' = None) →
  silent r0 L framed st → silent r0 L framed st'.
Proof.
  intros Hn Hs Ht Hf (Hlt & Hun & HL & Hfr).
  split; [lia |]. split.
  { intros s. unfold get_set. rewrite Hs. apply Hun. }
  split; [by rewrite Ht |].
  intros Hb fr' Hfr'. specialize (Hfr Hb).
  destruct Hf as [Hf | Hf]; [| congruence].
  rewrite Hfr' in Hf. simpl in Hf.
  destruct (currentlyTracking st) as [fr |] eqn:Hc; [| done].
  simpl in Hf. injection Hf as ->. by apply Hfr.
Qed.

Lemma silent_log_publish st s :
  silent r0 L framed st → silent r0 L framed (log (EvPublish s) st).
Proof.
  intros (Hlt & Hun & HL & Hfr). split; [done |]. split; [done |].
  split; [| done]. by rewrite effects_of_log_publish.
Qed.

Lemma silent_track st s :
  silent r0 L framed st → silent r0 L framed (track s st).
Proof.
  destruct (track_fields s st) as (Hs & Hn & Ht & Hf).
  apply silent_sets_eq; [lia | done | done | by left].
Qed.

Lemma silent_new_set st :
  silent r0 L framed st → silent r0 L framed (new_set st).2.
Proof.
  intros (Hlt & Hun & HL & Hfr). split; [done |]. split; [| done].
  intros s. unfold get_set. simpl.
  destruct (decide (s = next_set st)) as [-> | Hne].
  - rewrite lookup_insert_eq. simpl. apply not_elem_of_nil.
  - rewrite lookup_insert_ne by done. apply Hun.
Qed.

Lemma silent_new_reaction st t e :
  silent r0 L framed st →
  silent r0 L framed (new_reaction t e st).2 ∧ next_reaction st ≠ r0.
Proof.
  intros HS. split; [| destruct HS; lia].
  revert HS. apply silent_sets_eq; simpl; [lia | done | done | by left].
Qed.

Lemma silent_dispose st r :
  silent r0 L framed st → silent r0 L framed (dispose r st).
Proof.
  intros (Hlt & Hun & HL & Hfr).
  destruct (dispose_fields r st) as (Hn & Ht & Hf & _).
  split; [lia |]. split.
  { intros s Hin. apply (Hun s).
    destruct (get_set_dispose r s st) as [Heq | Heq]; rewrite Heq in Hin; [done |].
    by apply JSSetFacts.elem_of_delete in Hin as [_ ?]. }
  split; [by rewrite Ht |].
  intros Hb fr. rewrite Hf. by apply Hfr.
Qed.

Lemma silent_member st s r :
  silent r0 L framed st → Some r ∈ get_set s st → r ≠ r0.
Proof. intros (_ & Hun & _) Hin ->. by apply (Hun s). Qed.

(** User code keeps [r0] silent if the reactions it runs do. *)
Lemma exec_silent (call : RId → M unit) (fuel : nat) (p : Prog) :
  (∀ r st, r ≠ r0 → silent r0 L framed st →
           holds_after (silent r0 L framed) (call r st)) →
  preserves (silent r0 L framed) (exec call fuel p).
Proof.
  intros Hcall.
  apply (exec_preserves (silent r0 L framed) (λ r _, r ≠ r0) True call).
  - apply silent_log_publish.
  - intros st b HS _. revert HS.
    apply silent_sets_eq; [done | done | done | by left].
  - apply silent_track.
  - intros st f. apply silent_sets_eq; [done | done | done | by left].
  - apply silent_new_set.
  - intros st o. apply silent_sets_eq; [done | done | done | by left].
  - intros st t e HS _ _. by apply silent_new_reaction.
  - apply silent_dispose.
  - intros _ st. apply silent_sets_eq; [done | done | done | by left].
  - intros _ st. apply silent_sets_eq; [done | done | done | by left].
  - right. intros st s r HS Hin _ _. by eapply silent_member.
  - intros r st. apply Hcall.
  - apply action_guarded_True.
Qed.
End Silent.

Lemma holds_after_impl {A} (P Q : State → Prop) (res : Result A) :
  (∀ st, P st → Q st) → holds_after P res → holds_after Q res.
Proof. intros HPQ. destruct res; simpl; auto. Qed.

Lemma silent_unframed (r0 : RId) (L : list Value) (framed : bool) (st : State) :
  silent r0 L true st → silent r0 L framed st.
Proof. intros (? & ? & ? & Hfr). repeat split; auto. Qed.

Lemma silent_beginTracking (r0 r : RId) (L : list Value) (framed : bool) (st : State) :
  r ≠ r0 → silent r0 L framed st → silent r0 L true (beginTracking r st).
Proof.
  intros Hne (Hlt & Hun & HL & _).
  destruct (beginTracking_frame r st) as (Hfr & Hs & _ & Ht & Hn & _).
  split; [lia |]. split.
  { intros s. unfold get_set. rewrite Hs. apply Hun. }
  split; [by rewrite Ht |].
  intros _ fr. rewrite Hfr. by intros [= <-].
Qed.

Lemma silent_completeTracking (r0 : RId) (L : list Value) (st : State) :
  silent r0 L true st → silent r0 L true (completeTracking st).
Proof.
  intros (Hlt & Hun & HL & Hfr).
  destruct (completeTracking_fields st) as (Hn & Ht & _).
  split; [lia |]. split; [| split; [by rewrite Ht |]].
  - intros s. rewrite get_set_completeTracking.
    destruct (currentlyTracking st) as [fr |] eqn:Hc; [| apply Hun].
    case_bool_decide; [| apply Hun].
    intros [-> | Hin]%JSSetFacts.elem_of_add; [| by apply (Hun s)].
    by apply (Hfr eq_refl fr).
  - intros _ fr. unfold completeTracking.
    destruct (currentlyTracking st) eqn:Hc; simpl; [done |].
    rewrite Hc. done.
Qed.

Lemma silent_log_effect (r0 r : RId) (L : list Value) (framed : bool)
    (v : Value) (st : State) :
  r ≠ r0 → silent r0 L framed st → silent r0 L framed (log (EvEffect r v) st).
Proof.
  intros Hne (Hlt & Hun & HL & Hfr). split; [done |]. split; [done |].
  split; [| done]. by rewrite effects_of_log_other.
Qed.

(** Running any other reaction keeps [r0] silent: it joins no reaction-set
    and its effect function is not called. *)
Lemma invoke_silent (r0 : RId) (L : list Value) (n : nat) :
  ∀ (framed : bool) (r : RId) (st : State),
    r ≠ r0 → silent r0 L framed st →
    holds_after (silent r0 L framed) (invoke n r st).
Proof.
  induction n as [| n IH]; intros framed r st Hne HS; [done |].
  simpl. unfold reactionFn. unfold bind at 1. unfold gets.
  destruct (reactions st !! r) as [[trackedFn effectFn] |]; [| done].
  apply (holds_after_impl (silent r0 L true)); [apply silent_unframed |].
  unfold bind at 1. unfold modify.
  pose proof (silent_beginTracking r0 r L framed st Hne HS) as HS1.
  revert HS1. generalize (beginTracking r st). clear st HS.
  change (preserves (silent r0 L true)
    (let! result := exec (invoke n) n trackedFn in
     modify completeTracking;;
     modify (log (EvEffect r result));;
     exec (invoke n) n (effectFn result);; ret tt)).
  apply preserves_bind; [apply exec_silent; apply IH |]. intros result.
  apply preserves_bind.
  { apply preserves_modify. apply silent_completeTracking. }
  intros _. apply preserves_bind.
  { apply preserves_modify. intros st. by apply silent_log_effect. }
  intros _. apply preserves_bind; [apply exec_silent; apply IH |].
  intros _. apply preserves_ret.
Qed.

(** A program keeps a silent reaction silent. *)
Lemma run_silent (r0 : RId) (L : list Value) (framed : bool) (n : nat)
    (p : Prog) (st : State) :
  silent r0 L framed st → holds_after (silent r0 L framed) (run n p st).
Proof.
  revert st. unfold run.
  change (preserves (silent r0 L framed) (exec (invoke n) n p)).
  apply exec_silent. intros r st. apply invoke_silent.
Qed.

Lemma unsubscribed_decide (r : RId) (st : State) :
  bool_decide (map_Forall (λ _ rs, Some r ∉ rs) (sets st)) = true →
  unsubscribed r st.
Proof.
  intros H%bool_decide_eq_true s. unfold get_set.
  destruct (sets st !! s) as [rs |] eqn:Hs; simpl.
  - by apply (H s).
  - apply not_elem_of_nil.
Qed.

(** ** C6: the first run of a reaction *)

(** C6, as amended.  Let [r] be the reaction function [reaction] creates,
    belonging to no reaction-set yet.  If the tracked function returns [v]
    and the body of the effect function, called with [v], returns without
    triggering [r] again, then [reaction] returns (with that fuel and one
    level more, or any more), and up to that point the effect function was
    called exactly once, with [v]: nothing the tracked function does can
    run [r]. *)
Theorem reaction_calls_effect_once
    (n : nat) (trackedFn : Prog) (effectFn : Value → Prog) (k : RId → Prog)
    (st st1 st2 : State) (v w : Value) :
  unsubscribed (next_reaction st) st →
  run n trackedFn (beginTracking (next_reaction st) (new_reaction trackedFn effectFn st).2)
    = Done v st1 →
  run n (effectFn v) (log (EvEffect (next_reaction st) v) (completeTracking st1))
    = Done w st2 →
  effects_of (next_reaction st) (trace st2)
    = effects_of (next_reaction st)
        (trace (log (EvEffect (next_reaction st) v) (completeTracking st1))) →
  (∀ m, n < m →
        run m (Reaction trackedFn effectFn k) st = run m (k (next_reaction st)) st2)
  ∧ effects_of (next_reaction st) (trace st2)
    = effects_of (next_reaction st) (trace st) ++ [v].
Proof.
  intros Hun Ht He Hquiet. set (r := next_reaction st) in *.
  split.
  - intros [| m] Hm; [lia |].
    apply (run_Done_more_fuel n m) in Ht; [| lia].
    apply (run_Done_more_fuel n m) in He; [| lia].
    unfold run. cbn [exec]. unfold bind at 1. unfold alloc.
    change (new_reaction trackedFn effectFn st)
      with (r, (new_reaction trackedFn effectFn st).2).
    cbv iota beta. unfold bind at 1.
    cbn [invoke]. unfold reactionFn. unfold bind at 1. unfold gets.
    replace (reactions (new_reaction trackedFn effectFn st).2 !! r)
      with (Some (trackedFn, effectFn)) by (simpl; by rewrite lookup_insert_eq).
    unfold bind at 1. unfold modify at 1.
    unfold bind at 1. fold (run m trackedFn). rewrite Ht.
    unfold bind at 1. unfold modify at 1.
    unfold bind at 1. unfold modify at 1.
    unfold bind at 1. fold (run m (effectFn v)). rewrite He.
    reflexivity.
  - rewrite Hquiet, effects_of_log_same. f_equal.
    destruct (completeTracking_fields st1) as (_ & -> & _).
    assert (HS : silent r (effects_of r (trace st)) false
                   (beginTracking r (new_reaction trackedFn effectFn st).2)).
    { destruct (beginTracking_frame r (new_reaction trackedFn effectFn st).2)
        as (_ & Hs & _ & Htr & Hn & _).
      split; [rewrite Hn; simpl; unfold r; lia |].
      split; [| split; [by rewrite Htr | done]].
      intros s. unfold get_set. rewrite Hs. apply Hun. }
    pose proof (run_silent r _ false n trackedFn _ HS) as Hrun.
    rewrite Ht in Hrun. by destruct Hrun as (_ & _ & ? & _).
Qed.

Lemma reaction_calls_effect_once_witness :
  (∀ m, 5 < m →
        run m (Reaction (GetProp (VRef 1) "x" Ret) (λ _, Ret VUndef) (λ _, Ret VUndef))
          counter_state
        = run m (Ret VUndef)
            (log (EvEffect 0 (VNum 0)) (completeTracking counter_tracked)))
  ∧ effects_of 0 (trace (log (EvEffect 0 (VNum 0)) (completeTracking counter_tracked)))
    = effects_of 0 (trace counter_state) ++ [VNum 0].
Proof.
  apply (reaction_calls_effect_once 5 (GetProp (VRef 1) "x" Ret) (λ _, Ret VUndef)
           (λ _, Ret VUndef) counter_state counter_tracked
           (log (EvEffect 0 (VNum 0)) (completeTracking counter_tracked))
           (VNum 0) VUndef).
  - apply unsubscribed_decide. vm_compute. reflexivity.
  - vm_compute. reflexivity.
  - vm_compute. reflexivity.
  - reflexivity.
Defined.

(** Counterexample to C6 as stated.  The effect function writes the field
    the tracked function read; the write publishes to the reaction, which
    runs again inside the first call of the effect function.  When
    [reaction] returns, the effect function has been called twice, with 0
    and with 1. *)
Lemma reaction_effect_called_twice :
  returns (run 10 self_triggering init) = true
  ∧ effects_of 0 (trace (final (run 10 self_triggering init))) = [VNum 0; VNum 1].
Proof. vm_compute. split; reflexivity. Qed.

(** ** C8: [dispose] *)

(** What [dispose] achieves when the record is complete: the reaction is in
    no reaction-set, and whatever the caller does next, with any fuel, the
    effect function is not called again.  (A call of the reaction function
    that is already under way or already scheduled when [dispose] is called
    is not part of what the caller does next.) *)
Lemma dispose_silences (r : RId) (st : State) :
  r < next_reaction st →
  subscriptions_recorded r st →
  unsubscribed r (dispose r st)
  ∧ ∀ n p, holds_after (silent r (effects_of r (trace st)) false)
             (run n p (dispose r st)).
Proof.
  intros Hlt Hrec.
  assert (Hun : unsubscribed r (dispose r st)).
  { intros s Hin. unfold dispose in Hin.
    destruct (reactionSubscriptionSets st !! r) as [rec |] eqn:Hsub.
    - revert Hin.
      change (get_set s (with_subscriptions (delete r) ?st')) with (get_set s st').
      rewrite get_set_foldl_delete. case_bool_decide as Hs.
      + apply JSSetFacts.not_elem_of_delete.
      + intros Hin. destruct (Hrec s Hin) as (rec' & Heq & Hs').
        rewrite Hsub in Heq. injection Heq as <-.
        by apply Hs, JSSetFacts.elem_of_elements.
    - destruct (Hrec s Hin) as (rec' & ? & _). congruence. }
  split; [done |].
  intros n p. apply run_silent.
  destruct (dispose_fields r st) as (Hn & Ht & _).
  split; [lia |]. split; [done |]. split; [by rewrite Ht | done].
Qed.

(** C8 fails on the code.  Reaction 0 reads [y]; it is disposed by the
    effect function of reaction 1 while [completeAction] is running the
    reactions of a batch in which both are listed.  [publishAll] runs
    reaction 0 all the same: its effect function is called with 1 after the
    disposal, the run subscribes it to the handle of [y] (set 1) again, and
    the later write [obs.y = 2] calls the effect function once more. *)
Theorem disposed_reaction_runs_again :
  returns (run 10 dispose_during_flush init) = true
  ∧ effects_of 1 (trace (final (run 10 dispose_during_flush_action init)))
    = [VNum 0; VNum 1]
  ∧ effects_of 0 (trace (final (run 10 dispose_during_flush_action init)))
    = [VNum 0; VNum 1]
  ∧ get_set 1 (final (run 10 dispose_during_flush_action init)) = [None; Some 0]
  ∧ effects_of 0 (trace (final (run 10 dispose_during_flush init)))
    = [VNum 0; VNum 1; VNum 2].
Proof. vm_compute. repeat split. Qed.

(** Outside an action the loop of [publish] reads the reaction-set itself:
    a reaction disposed by a reaction that runs before it in the same loop
    is skipped, and stays disposed. *)
Example dispose_during_publish_is_honoured :
  returns (run 10 dispose_during_publish init) = true
  ∧ effects_of 0 (trace (final (run 10 dispose_during_publish init)))
    = [VNum 0; VNum 1; VNum 2]
  ∧ effects_of 1 (trace (final (run 10 dispose_during_publish init))) = [VNum 0]
  ∧ get_set 0 (final (run 10 dispose_during_publish init)) = [Some 0; None].
Proof. vm_compute. repeat split. Qed.

(** ** C9: an action whose body throws *)

Lemma batching_fields (base : RId) (st st' : State) :
  currentActionReactionSets st' = currentActionReactionSets st →
  next_reaction st' = next_reaction st →
  reactions st' = reactions st →
  batching base st → batching base st'.
Proof. intros Hb Hn Hr (? & ? & ?). unfold batching. by rewrite Hb, Hn, Hr. Qed.

Lemma track_reactions (s : SetRef) (st : State) :
  reactions (track s st) = reactions st.
Proof. unfold track. by destruct (currentlyTracking st). Qed.

(** User code that calls no action leaves the action open if the reactions
    it creates do. *)
Lemma exec_batching (base : RId) (call : RId → M unit) (fuel : nat) (p : Prog) :
  (∀ r st, base ≤ r < next_reaction st → batching base st →
           holds_after (batching base) (call r st)) →
  action_free p →
  preserves (batching base) (exec call fuel p).
Proof.
  intros Hcall Hp.
  apply (exec_preserves (batching base) (λ r st, base ≤ r < next_reaction st)
           False call).
  - intros st s. by apply batching_fields.
  - intros st b (_ & ? & ?) _. by split.
  - intros st s. apply batching_fields;
      [apply action_track | apply track_fields | apply track_reactions].
  - intros st f. by apply batching_fields.
  - intros st. by apply batching_fields.
  - intros st o. by apply batching_fields.
  - intros st t e (Hb & Hn & Hcl) Ht He. split; [| simpl; lia].
    split; [done |]. split; [simpl; lia |].
    intros r t' e' Hr. simpl in *.
    destruct (decide (r = next_reaction st)) as [-> | Hne].
    + rewrite lookup_insert_eq. by intros [= <- <-].
    + rewrite lookup_insert_ne by done. apply Hcl. lia.
  - intros st r. destruct (dispose_fields r st) as (? & _ & _ & ? & ?).
    by apply batching_fields.
  - done.
  - done.
  - left. by intros st (? & _).
  - done.
  - done.
Qed.

Lemma invoke_batching (base : RId) (n : nat) :
  ∀ (r : RId) (st : State),
    base ≤ r < next_reaction st → batching base st →
    holds_after (batching base) (invoke n r st).
Proof.
  induction n as [| n IH]; intros r st Hr HB; [done |].
  cbn [invoke]. unfold reactionFn. unfold bind at 1. unfold gets.
  destruct (reactions st !! r) as [[trackedFn effectFn] |] eqn:Hcl; [| done].
  destruct (proj2 (proj2 HB) r _ _ Hr Hcl) as [Ht He]. clear Hcl Hr.
  revert st HB.
  change (preserves (batching base)
    (modify (beginTracking r);;
     let! result := exec (invoke n) n trackedFn in
     modify completeTracking;;
     modify (log (EvEffect r result));;
     exec (invoke n) n (effectFn result);; ret tt)).
  apply preserves_bind.
  { apply preserves_modify. intros st.
    destruct (beginTracking_frame r st) as (_ & _ & ? & _ & ? & ?).
    by apply batching_fields. }
  intros _. apply preserves_bind; [by apply exec_batching |]. intros result.
  apply preserves_bind.
  { apply preserves_modify. intros st.
    destruct (completeTracking_fields st) as (? & _ & ? & ?).
    by apply batching_fields. }
  intros _. apply preserves_bind.
  { apply preserves_modify. intros st. by apply batching_fields. }
  intros _. apply preserves_bind; [by apply exec_batching |].
  intros _. apply preserves_ret.
Qed.

(** User code that calls no action, run while an action is open, leaves it
    open and runs no reaction that existed before [base]. *)
Lemma deferring_fields (base : RId) (L : RId → list Value) (st st' : State) :
  currentActionReactionSets st' = currentActionReactionSets st →
  next_reaction st' = next_reaction st →
  reactions st' = reactions st →
  trace st' = trace st →
  deferring base L st → deferring base L st'.
Proof.
  intros Hb Hn Hr Ht [HB HL]. split.
  - by apply (batching_fields base st st').
  - intros r Hlt. rewrite Ht. by apply HL.
Qed.

Lemma exec_deferring (base : RId) (L : RId → list Value)
    (call : RId → M unit) (fuel : nat) (p : Prog) :
  (∀ r st, base ≤ r < next_reaction st → deferring base L st →
           holds_after (deferring base L) (call r st)) →
  action_free p →
  preserves (deferring base L) (exec call fuel p).
Proof.
  intros Hcall Hp.
  apply (exec_preserves (deferring base L) (λ r st, base ≤ r < next_reaction st)
           False call).
  - intros st s [HB HL]. split; [by apply (batching_fields base st) |].
    intros r Hr. rewrite effects_of_log_publish. by apply HL.
  - intros st b [(_ & ? & ?) HL] _. split; [by split |]. done.
  - intros st s. destruct (track_fields s st) as (_ & ? & ? & _).
    apply deferring_fields; [apply action_track | done | apply track_reactions | done].
  - intros st f. by apply deferring_fields.
  - intros st. by apply deferring_fields.
  - intros st o. by apply deferring_fields.
  - intros st t e [(Hb & Hn & Hcl) HL] Ht He. split; [| simpl; lia].
    split; [| done].
    split; [done |]. split; [simpl; lia |].
    intros r t' e' Hr. simpl in *.
    destruct (decide (r = next_reaction st)) as [-> | Hne].
    + rewrite lookup_insert_eq. by intros [= <- <-].
    + rewrite lookup_insert_ne by done. apply Hcl. lia.
  - intros st r. destruct (dispose_fields r st) as (? & ? & _ & ? & ?).
    by apply deferring_fields.
  - done.
  - done.
  - left. by intros st [(? & _) _].
  - done.
  - done.
Qed.

Lemma invoke_deferring (base : RId) (L : RId → list Value) (n : nat) :
  ∀ (r : RId) (st : State),
    base ≤ r < next_reaction st → deferring base L st →
    holds_after (deferring base L) (invoke n r st).
Proof.
  induction n as [| n IH]; intros r st Hr HD; [done |].
  cbn [invoke]. unfold reactionFn. unfold bind at 1. unfold gets.
  destruct (reactions st !! r) as [[trackedFn effectFn] |] eqn:Hcl; [| done].
  destruct (proj2 (proj2 (proj1 HD)) r _ _ Hr Hcl) as [Ht He].
  assert (Hbase : base ≤ r) by lia. clear Hcl Hr.
  revert st HD.
  change (preserves (deferring base L)
    (modify (beginTracking r);;
     let! result := exec (invoke n) n trackedFn in
     modify completeTracking;;
     modify (log (EvEffect r result));;
     exec (invoke n) n (effectFn result);; ret tt)).
  apply preserves_bind.
  { apply preserves_modify. intros st.
    destruct (beginTracking_frame r st) as (_ & _ & ? & ? & ? & ?).
    by apply deferring_fields. }
  intros _. apply preserves_bind; [by apply exec_deferring |]. intros result.
  apply preserves_bind.
  { apply preserves_modify. intros st.
    destruct (completeTracking_fields st) as (? & ? & ? & ?).
    by apply deferring_fields. }
  intros _. apply preserves_bind.
  { apply preserves_modify. intros st [HB HL]. split.
    - by apply (batching_fields base st).
    - intros r' Hr'. rewrite effects_of_log_other by lia. by apply HL. }
  intros _. apply preserves_bind; [by apply exec_deferring |].
  intros _. apply preserves_ret.
Qed.

(** C9, as amended.  When the body [fn] of an action throws, the call of
    the action throws the same exception in the same state, with that fuel
    or more: [completeAction] has not run.  If [fn] calls no action itself
    (actions do not nest), the batch it was collecting is still open in
    that state: there [publish] only adds its argument to the batch and
    returns, and this lasts for as long as no action is called.  Whatever
    code that calls no action runs from that state, with any fuel, the
    batch is open when it returns or throws, and no effect function of a
    reaction that existed when the call failed has been called. *)
Theorem action_throw_leaves_batch_open
    (n : nat) (fn k : Prog) (st st1 : State) (e : Exn) :
  run n fn (beginAction st) = Throws e st1 →
  (∀ m, n ≤ m → run m (Action fn k) st = Throws e st1)
  ∧ (action_free fn →
     (∃ batch, currentActionReactionSets st1 = Some batch
        ∧ ∀ call fuel s,
            publish call fuel s st1
            = Done tt (with_action (Some (JSSet.add s batch)) (log (EvPublish s) st1)))
     ∧ ∀ m q, action_free q →
         holds_after
           (λ st2, currentActionReactionSets st2 ≠ None
                   ∧ ∀ r, r < next_reaction st1 →
                          effects_of r (trace st2) = effects_of r (trace st1))
           (run m q st1)).
Proof.
  intros Hthrow. split.
  - intros m Hm. apply (run_Throws_more_fuel n m) in Hthrow; [| done].
    unfold run in *. cbn [exec]. unfold bind at 1. unfold modify at 1.
    unfold bind at 1. by rewrite Hthrow.
  - intros Hfree.
    assert (HB : batching (next_reaction st) (beginAction st)).
    { split; [done |]. split; [done |].
      intros r t e' Hr. simpl in Hr. lia. }
    pose proof (exec_batching (next_reaction st) (invoke n) n fn
                  (invoke_batching _ n) Hfree _ HB) as Hres.
    fold (run n fn) in Hres. rewrite Hthrow in Hres. destruct Hres as (Hb & _).
    destruct (currentActionReactionSets st1) as [batch |] eqn:Hbatch; [| done].
    split.
    + exists batch. split; [done |].
      intros call fuel s. unfold publish, bind, modify. simpl. by rewrite Hbatch.
    + intros m q Hq.
      assert (HD : deferring (next_reaction st1) (λ r, effects_of r (trace st1)) st1).
      { split; [| done]. split; [by rewrite Hbatch |]. split; [done |].
        intros r t e' Hr. lia. }
      pose proof (exec_deferring (next_reaction st1) _ (invoke m) m q
                    (invoke_deferring _ _ m) Hq _ HD) as Hres.
      fold (run m q) in Hres.
      destruct (run m q st1) as [v st2 | e' st2 |]; [| | done].
      * destruct Hres as [(? & _) ?]. by split.
      * destruct Hres as [(? & _) ?]. by split.
Qed.

Lemma action_throw_leaves_batch_open_witness :
  (∀ m, 5 ≤ m →
        run m (Action (SetProp (VRef 1) "x" (VNum 1) (Raise (VStr "boom"))) (Ret VUndef))
          counter_state
        = Throws (Thrown_value (VStr "boom")) thrown_in_action)
  ∧ (action_free (SetProp (VRef 1) "x" (VNum 1) (Raise (VStr "boom"))) →
     (∃ batch,
        currentActionReactionSets thrown_in_action = Some batch
        ∧ ∀ call fuel s,
            publish call fuel s thrown_in_action
            = Done tt (with_action (Some (JSSet.add s batch))
                 (log (EvPublish s) thrown_in_action)))
     ∧ ∀ m q, action_free q →
         holds_after
           (λ st2, currentActionReactionSets st2 ≠ None
                   ∧ ∀ r, r < next_reaction thrown_in_action →
                          effects_of r (trace st2) = effects_of r (trace thrown_in_action))
           (run m q thrown_in_action)).
Proof.
  apply (action_throw_leaves_batch_open 5
           (SetProp (VRef 1) "x" (VNum 1) (Raise (VStr "boom"))) (Ret VUndef)
           counter_state thrown_in_action (Thrown_value (VStr "boom"))).
  vm_compute. reflexivity.
Defined.

(** Counterexample to C9 as stated.  The body
    [() => { action(() => {})(); throw "boom" }] runs an action of its own
    before it throws: the inner [completeAction] has closed the batch, so
    after the failed call the currently-batching set is null and
    publication is not deferred. *)
Lemma nested_action_closes_batch :
  throws (run 5 (Action (Action (Ret VUndef) (Raise (VStr "boom"))) (Ret VUndef))
            counter_state) = true
  ∧ currentActionReactionSets
      (final (run 5 (Action (Action (Ret VUndef) (Raise (VStr "boom"))) (Ret VUndef))
                counter_state))
    = None.
Proof. vm_compute. split; reflexivity. Qed.

(** After the failed action, a write to [obs.x], read by a reaction, no
    longer reaches the reaction. *)
Example stale_batch_swallows_writes :
  let p :=
    Alloc false [("x", VNum 0)] (λ lit,
    Observable lit (λ obs,
    Reaction (GetProp obs "x" Ret) (λ _, Ret VUndef) (λ _,
    Ret obs))) in
  let st := final (run 10 p init) in
  let st1 := final (run 10 (Action (Raise (VStr "boom")) (Ret VUndef)) st) in
  effects_of 0 (trace st) = [VNum 0]
  ∧ currentActionReactionSets st1 = Some []
  ∧ effects_of 0 (trace (final (run 10 (SetProp (VRef 1) "x" (VNum 7) (Ret VUndef)) st1)))
    = [VNum 0]
  ∧ effects_of 0 (trace (final (run 10 (SetProp (VRef 1) "x" (VNum 7) (Ret VUndef)) st)))
    = [VNum 0; VNum 7].
Proof. vm_compute. repeat split. Qed.

(** ** C3: computeds inside an action *)

(** C3 fails on the code.  [completeAction] closes the batch before it runs
    the reactions of the batch, [c1] and [c2], once each.  Each of them
    writes its cache outside any action, and that write publishes at once:
    the reaction of [c3] runs after [c1] alone has changed, with the new
    [c1] and the old [c2] (10 + 2), and again after [c2] has changed
    (10 + 20).  So after the action the combining computed recomputes
    twice, and the reaction that reads it fires twice. *)
Theorem combining_computed_fires_twice :
  returns (run 12 diamond init) = true
  ∧ effects_of 0 (trace (final (run 12 diamond init))) = [VNum 1; VNum 10]
  ∧ effects_of 1 (trace (final (run 12 diamond init))) = [VNum 2; VNum 20]
  ∧ effects_of 2 (trace (final (run 12 diamond init)))
    = [VNum 3; VNum 12; VNum 30]
  ∧ effects_of 3 (trace (final (run 12 diamond init)))
    = [VNum 3; VNum 12; VNum 30].
Proof. vm_compute. repeat split. Qed.

(** One computed over both fields, as in the test [testAction]: the batch
    lists its reaction once, and it and the reaction that reads it run
    once after the action. *)
Example single_computed_fires_once :
  let p :=
    Alloc false [("a", VNum 1); ("b", VNum 2)] (λ lit,
    Observable lit (λ obs,
    computed (GetProp obs "a" (λ x, GetProp obs "b" (λ y, Ret (plus x y)))) (λ c,
    Reaction (call_computed c Ret) (λ _, Ret VUndef) (λ _,
    Action (SetProp obs "a" (VNum 10) (SetProp obs "b" (VNum 20) (Ret VUndef)))
    (Ret VUndef))))) in
  effects_of 0 (trace (final (run 12 p init))) = [VNum 3; VNum 30]
  ∧ effects_of 1 (trace (final (run 12 p init))) = [VNum 3; VNum 30].
Proof. vm_compute. split; reflexivity. Qed.

(** What deduplication covers: [completeAction] closes the batch and then
    calls the reactions listed in the batched reaction-sets, each once.
    What these reactions publish while they run is published at once. *)
Lemma collect_reactions_NoDup st (l : list (option SetRef))
    (acc allReactions : JSSet.t RId) :
  NoDup (JSSet.elements acc) →
  collect_reactions st l acc = Some allReactions →
  NoDup (JSSet.elements allReactions).
Proof.
  assert (Hadd : ∀ (x : RId) (s : JSSet.t RId),
    NoDup (JSSet.elements s) → NoDup (JSSet.elements (JSSet.add x s))).
  { intros x s Hs. unfold JSSet.add, JSSet.has. case_bool_decide as Hx; [done |].
    unfold JSSet.elements. rewrite omap_app. simpl.
    apply NoDup_app. split; [done |]. split; [| apply NoDup_singleton].
    intros y Hy ->%list_elem_of_singleton. apply Hx.
    by apply (JSSetFacts.elem_of_elements x s). }
  assert (Hfold : ∀ (xs : list RId) (s : JSSet.t RId),
    NoDup (JSSet.elements s) →
    NoDup (JSSet.elements (foldl (λ acc reaction, JSSet.add reaction acc) s xs))).
  { induction xs as [| x xs IH]; intros s Hs; simpl; [done |]. apply IH, Hadd, Hs. }
  revert acc. induction l as [| [s |] l IH]; intros acc Hacc; simpl.
  - by intros [= <-].
  - apply IH, Hfold, Hacc.
  - done.
Qed.

Lemma completeAction_runs_each_once
    (call : RId → M unit) (st : State) (batch : JSSet.t (option SetRef))
    (allReactions : JSSet.t RId) :
  currentActionReactionSets st = Some batch →
  collect_reactions (with_action None st) (JSSet.elements batch) JSSet.empty
    = Some allReactions →
  NoDup (JSSet.elements allReactions)
  ∧ completeAction call st
    = run_all call (JSSet.elements allReactions) (with_action None st).
Proof.
  intros Hb Hc. split.
  - eapply collect_reactions_NoDup; [| exact Hc]. apply NoDup_nil_2.
  - unfold completeAction. rewrite Hb. unfold publishAll. simpl.
    by rewrite Hc.
Qed.

(** * Further properties of the runtime *)

(** Properties of the functions of [crowdx.mjs] beyond those the
    specification states (X1 to X21). *)


(** ** The tracking store on its own *)

Lemma subscriptions_foldl_delete (r : RId) (l : list SetRef) (st : State) :
  reactionSubscriptionSets (foldl (λ st reactionSet, set_delete reactionSet r st) st l)
  = reactionSubscriptionSets st.
Proof. revert st. induction l as [| s l IH]; intros st; simpl; [done |]. by rewrite IH. Qed.

Lemma subscriptions_foldl_add (r : RId) (l : list SetRef) (st : State) :
  reactionSubscriptionSets (foldl (λ st reactionSet, set_add reactionSet r st) st l)
  = reactionSubscriptionSets st.
Proof. revert st. induction l as [| s l IH]; intros st; simpl; [done |]. by rewrite IH. Qed.

Lemma subscriptions_dispose (r r' : RId) (st : State) :
  reactionSubscriptionSets (dispose r st) !! r' =
    if decide (r' = r) then None else reactionSubscriptionSets st !! r'.
Proof.
  unfold dispose. destruct (reactionSubscriptionSets st !! r) as [rec |] eqn:Hrec.
  - simpl. rewrite subscriptions_foldl_delete.
    case_decide as Hr; [subst; apply lookup_delete_eq | by apply lookup_delete_ne].
  - case_decide; [by subst |]. done.
Qed.

Lemma subscriptions_completeTracking (st : State) :
  reactionSubscriptionSets (completeTracking st) = reactionSubscriptionSets st.
Proof.
  unfold completeTracking. destruct (currentlyTracking st) as [fr |]; [| done].
  simpl. apply subscriptions_foldl_add.
Qed.

(** X1.  [dispose] forgets the subscription record of the reaction and of
    no other reaction; a reaction without a record (never run, or disposed
    already) is left alone, so disposing twice is disposing once. *)
Theorem dispose_twice_is_dispose_once (r : RId) (st : State) :
  reactionSubscriptionSets (dispose r st) !! r = None
  ∧ (∀ r', r' ≠ r →
       reactionSubscriptionSets (dispose r st) !! r' = reactionSubscriptionSets st !! r')
  ∧ dispose r (dispose r st) = dispose r st.
Proof.
  assert (H : reactionSubscriptionSets (dispose r st) !! r = None).
  { rewrite subscriptions_dispose. by case_decide. }
  split; [done |]. split.
  - intros r' Hne. rewrite subscriptions_dispose. by case_decide.
  - unfold dispose at 1. by rewrite H.
Qed.

(** X2.  [dispose] takes the reaction out of every reaction-set of its
    record and touches nothing else: every other reaction keeps its place
    in every reaction-set, so a loop of [publish] that is under way neither
    skips nor repeats another reaction. *)
Theorem dispose_removes_only_the_reaction (r : RId) (st : State) :
  (∀ rec s, reactionSubscriptionSets st !! r = Some rec → Some s ∈ rec →
            Some r ∉ get_set s (dispose r st))
  ∧ (∀ s i r', r' ≠ r →
       (get_set s (dispose r st) !! i = Some (Some r')
        ↔ get_set s st !! i = Some (Some r')))
  ∧ (∀ s, length (get_set s (dispose r st)) = length (get_set s st)).
Proof.
  split; [| split].
  - intros rec s Hrec Hs. unfold dispose. rewrite Hrec.
    change (get_set s (with_subscriptions (delete r) ?st')) with (get_set s st').
    rewrite get_set_foldl_delete.
    rewrite bool_decide_eq_true_2 by by apply JSSetFacts.elem_of_elements.
    apply JSSetFacts.not_elem_of_delete.
  - intros s i r' Hne.
    destruct (get_set_dispose r s st) as [-> | ->]; [done |].
    unfold JSSet.delete, JSSet.t. rewrite list_lookup_fmap.
    destruct (_ !! i) as [e |]; simpl; [| by split].
    case_decide as He; [subst e |]; split; intros [= H]; congruence.
  - intros s. destruct (get_set_dispose r s st) as [-> | ->]; [done |].
    unfold JSSet.delete. by rewrite length_fmap.
Qed.

(** X3.  [track] outside a tracked function does nothing, and inside one
    it collects a reaction-set once: tracking it again changes nothing. *)
Theorem track_is_idempotent (s : SetRef) (st : State) :
  (currentlyTracking st = None → track s st = st)
  ∧ track s (track s st) = track s st.
Proof.
  split.
  - intros H. unfold track. by rewrite H.
  - unfold track. destruct (currentlyTracking st) as [fr |] eqn:Hfr; simpl.
    + unfold with_subscriptions, with_tracking. simpl.
      rewrite add_add. f_equal.
      rewrite alter_alter_eq. apply alter_ext. intros rec _. simpl.
      apply add_add.
    + by rewrite Hfr.
Qed.

Lemma frame_track_beginTracking (r : RId) (s : SetRef) (st : State) :
  currentlyTracking (track s (beginTracking r st)) = Some (mkFrame r [Some s]).
Proof.
  unfold track. destruct (beginTracking_frame r st) as (-> & _). reflexivity.
Qed.

Lemma subscriptions_beginTracking (r r' : RId) (st : State) :
  reactionSubscriptionSets (beginTracking r st) !! r' =
    if decide (r' = r)
    then Some (default JSSet.empty (reactionSubscriptionSets st !! r))
    else reactionSubscriptionSets st !! r'.
Proof.
  unfold beginTracking. case_bool_decide as Hr; simpl in *.
  - case_decide; [subst r' |]; [| done]. by destruct Hr as [rec ->].
  - apply eq_None_not_Some in Hr. rewrite Hr. simpl.
    case_decide; [subst r'; apply lookup_insert_eq | by apply lookup_insert_ne].
Qed.

(** X4.  The life of a subscription.  A reaction begins tracking, one
    reaction-set is tracked, tracking completes: the reaction is a member of
    that reaction-set, the set is in the record of the reaction, and no
    frame is open.  [dispose] then takes the reaction out of the set. *)
Theorem tracked_set_is_joined_until_dispose (r : RId) (s : SetRef) (st : State) :
  Some r ∈ get_set s (completeTracking (track s (beginTracking r st)))
  ∧ currentlyTracking (completeTracking (track s (beginTracking r st))) = None
  ∧ (∃ rec,
       reactionSubscriptionSets (completeTracking (track s (beginTracking r st))) !! r
       = Some rec ∧ Some s ∈ rec)
  ∧ Some r ∉ get_set s (dispose r (completeTracking (track s (beginTracking r st)))).
Proof.
  set (st1 := track s (beginTracking r st)).
  assert (Hfr : currentlyTracking st1 = Some (mkFrame r [Some s])).
  { apply frame_track_beginTracking. }
  assert (Hrec : ∃ rec, reactionSubscriptionSets (completeTracking st1) !! r = Some rec
                        ∧ Some s ∈ rec).
  { rewrite subscriptions_completeTracking. unfold st1, track.
    destruct (beginTracking_frame r st) as (-> & _). simpl.
    rewrite lookup_alter_eq, subscriptions_beginTracking.
    rewrite decide_True by done. simpl. eexists. split; [done |].
    apply JSSetFacts.elem_of_add_same. }
  split; [| split; [| split; [done |]]].
  - rewrite get_set_completeTracking, Hfr. simpl.
    rewrite bool_decide_eq_true_2 by by apply list_elem_of_singleton.
    apply JSSetFacts.elem_of_add_same.
  - unfold completeTracking. by rewrite Hfr.
  - destruct Hrec as (rec & Hrec & Hs). unfold dispose. rewrite Hrec.
    change (get_set s (with_subscriptions (delete r) ?st')) with (get_set s st').
    rewrite get_set_foldl_delete.
    rewrite bool_decide_eq_true_2 by by apply JSSetFacts.elem_of_elements.
    apply JSSetFacts.not_elem_of_delete.
Qed.

(** X5.  A reaction disposed while its own tracked function runs.  The
    record is gone, so what the function reads afterwards is collected in
    the frame but recorded nowhere ([?.add] on the missing record): when
    tracking completes the reaction joins that reaction-set all the same,
    and a later [dispose] finds no record and removes nothing. *)
Theorem dispose_while_tracking_leaves_unrecorded_subscription
    (r : RId) (s : SetRef) (st : State) :
  Some r ∈ get_set s (completeTracking (track s (dispose r (beginTracking r st))))
  ∧ reactionSubscriptionSets
      (completeTracking (track s (dispose r (beginTracking r st)))) !! r = None
  ∧ dispose r (completeTracking (track s (dispose r (beginTracking r st))))
    = completeTracking (track s (dispose r (beginTracking r st))).
Proof.
  set (st0 := dispose r (beginTracking r st)).
  assert (Hfr0 : currentlyTracking st0 = Some (mkFrame r JSSet.empty)).
  { unfold st0. destruct (dispose_fields r (beginTracking r st)) as (_ & _ & -> & _).
    apply beginTracking_frame. }
  assert (Hsub0 : reactionSubscriptionSets st0 !! r = None).
  { unfold st0. rewrite subscriptions_dispose. by case_decide. }
  assert (Hfr : currentlyTracking (track s st0) = Some (mkFrame r [Some s])).
  { unfold track. by rewrite Hfr0. }
  assert (Hsub : reactionSubscriptionSets (completeTracking (track s st0)) !! r = None).
  { rewrite subscriptions_completeTracking. unfold track. rewrite Hfr0. simpl.
    by rewrite lookup_alter_eq, Hsub0. }
  split; [| split; [done |]].
  - rewrite get_set_completeTracking, Hfr. simpl.
    rewrite bool_decide_eq_true_2 by by apply list_elem_of_singleton.
    apply JSSetFacts.elem_of_add_same.
  - unfold dispose at 1. by rewrite Hsub.
Qed.


(** ** Flushing a batch *)

Lemma collect_reactions_undefined st (l : list (option SetRef)) (acc : JSSet.t RId) :
  None ∈ l → collect_reactions st l acc = None.
Proof.
  revert acc. induction l as [| [s |] l IH]; intros acc Hin; simpl.
  - by apply elem_of_nil in Hin.
  - apply IH. by apply elem_of_cons in Hin as [? | ?].
  - done.
Qed.

Lemma elem_of_foldl_add_iff (xs : list RId) (acc : JSSet.t RId) (r : RId) :
  Some r ∈ foldl (λ acc reaction, JSSet.add reaction acc) acc xs
  ↔ Some r ∈ acc ∨ r ∈ xs.
Proof.
  revert acc. induction xs as [| x xs IH]; intros acc; simpl.
  - split; [auto | intros [? | Hin]; [done | by apply elem_of_nil in Hin]].
  - rewrite IH, JSSetFacts.elem_of_add, elem_of_cons. tauto.
Qed.

Lemma collect_reactions_members st (l : list (option SetRef)) (acc : JSSet.t RId) :
  None ∉ l →
  ∃ allReactions,
    collect_reactions st l acc = Some allReactions
    ∧ ∀ r, Some r ∈ allReactions
           ↔ Some r ∈ acc ∨ ∃ s, Some s ∈ l ∧ Some r ∈ get_set s st.
Proof.
  revert acc. induction l as [| [s |] l IH]; intros acc Hl; simpl.
  - exists acc. split; [done |]. intros r. split; [auto |].
    intros [? | (s & Hs & _)]; [done | by apply elem_of_nil in Hs].
  - destruct (IH (foldl (λ acc reaction, JSSet.add reaction acc) acc
                    (JSSet.elements (get_set s st)))) as (allReactions & -> & Hall).
    { intros Hin. apply Hl. by right. }
    exists allReactions. split; [done |]. intros r.
    rewrite Hall, elem_of_foldl_add_iff, JSSetFacts.elem_of_elements. split.
    + intros [[? | ?] | (s' & Hs' & ?)]; [auto | |].
      * right. exists s. split; [by left | done].
      * right. exists s'. split; [by right | done].
    + intros [? | (s' & Hs' & Hr)]; [auto |].
      apply elem_of_cons in Hs' as [[= ->] | Hs']; [auto |].
      right. by exists s'.
  - destruct Hl. by left.
Qed.

(** X6.  [undefined] in a batch.  Inside an action [publish(undefined)],
    which a mutation method of an array without parent reaction-set calls,
    is accepted: [undefined] joins the batch.  [completeAction] then closes
    the batch and throws a [TypeError] while it collects the reactions,
    before it has run any of them: the writes of the action reach no
    reaction. *)
Theorem completeAction_throws_on_undefined
    (call : RId → M unit) (fuel : nat) (st : State) (batch : JSSet.t (option SetRef)) :
  currentActionReactionSets st = Some batch →
  publish call fuel None st
  = Done tt (with_action (Some (JSSet.add None batch)) (log (EvPublish None) st))
  ∧ ∀ st1 batch1,
      currentActionReactionSets st1 = Some batch1 → Some None ∈ batch1 →
      completeAction call st1
      = Throws (TypeError "undefined is not iterable") (with_action None st1).
Proof.
  intros Hb. split.
  - unfold publish, bind, modify. simpl. by rewrite Hb.
  - intros st1 batch1 Hb1 Hin. unfold completeAction. rewrite Hb1.
    unfold publishAll. simpl.
    rewrite collect_reactions_undefined; [done |].
    by apply JSSetFacts.elem_of_elements.
Qed.

Lemma completeAction_throws_on_undefined_witness :
  publish (invoke 3) 3 None (beginAction init)
  = Done tt (with_action (Some (JSSet.add None [])) (log (EvPublish None) (beginAction init)))
  ∧ ∀ st1 batch1,
      currentActionReactionSets st1 = Some batch1 → Some None ∈ batch1 →
      completeAction (invoke 3) st1
      = Throws (TypeError "undefined is not iterable") (with_action None st1).
Proof.
  apply (completeAction_throws_on_undefined (invoke 3) 3 (beginAction init) []).
  reflexivity.
Defined.

(** X7.  What [completeAction] runs.  With a batch of reaction-sets, none
    of them [undefined], it closes the batch and then calls, one after the
    other, the reactions that are members of a batched reaction-set when
    the action completes: each of them once, however many of the batched
    sets it belongs to. *)
Theorem completeAction_calls_each_member_once
    (call : RId → M unit) (st : State) (batch : JSSet.t (option SetRef)) :
  currentActionReactionSets st = Some batch →
  Some None ∉ batch →
  ∃ rs : list RId,
    NoDup rs
    ∧ (∀ r, r ∈ rs ↔ ∃ s, Some (Some s) ∈ batch ∧ Some r ∈ get_set s st)
    ∧ completeAction call st = run_all call rs (with_action None st).
Proof.
  intros Hb Hundef.
  destruct (collect_reactions_members (with_action None st) (JSSet.elements batch)
              JSSet.empty) as (allReactions & Hc & Hall).
  { by rewrite JSSetFacts.elem_of_elements. }
  exists (JSSet.elements allReactions). split; [| split].
  - eapply collect_reactions_NoDup; [| exact Hc]. apply NoDup_nil_2.
  - intros r. rewrite JSSetFacts.elem_of_elements, Hall. split.
    + intros [Hin | (s & Hs & Hr)]; [by apply elem_of_nil in Hin |].
      exists s. split; [by apply JSSetFacts.elem_of_elements | done].
    + intros (s & Hs & Hr). right. exists s.
      split; [by apply JSSetFacts.elem_of_elements | done].
  - unfold completeAction. rewrite Hb. unfold publishAll. simpl.
    by rewrite Hc.
Qed.

Lemma completeAction_calls_each_member_once_witness :
  ∃ rs : list RId,
    NoDup rs
    ∧ (∀ r, r ∈ rs ↔ ∃ s, Some (Some s) ∈ [Some (Some 0)]
                          ∧ Some r ∈ get_set s batch_pending)
    ∧ completeAction (invoke 5) batch_pending
      = run_all (invoke 5) rs (with_action None batch_pending).
Proof.
  apply (completeAction_calls_each_member_once (invoke 5) batch_pending [Some (Some 0)]).
  - vm_compute. reflexivity.
  - rewrite list_elem_of_singleton. discriminate.
Defined.

(** X8.  Actions do not nest.  [beginAction] replaces the batch, so the
    call of an action behaves the same whatever batch was open when it was
    made, and what that batch held is never published.  When the body
    returns and has published nothing, [completeAction] runs no reaction,
    and afterwards no action is open. *)
Theorem action_discards_open_batch
    (n : nat) (fn k : Prog) (v : Value) (st st1 : State)
    (batch : option (JSSet.t (option SetRef))) (b : JSSet.t (option SetRef)) :
  run n fn (beginAction st) = Done v st1 →
  currentActionReactionSets st1 = Some b →
  JSSet.elements b = [] →
  run n (Action fn k) (with_action batch st) = run n k (with_action None st1).
Proof.
  intros Hfn Hb Hempty. unfold run in *. cbn [exec].
  unfold bind at 1. unfold modify at 1.
  change (beginAction (with_action batch st)) with (beginAction st).
  unfold bind at 1. rewrite Hfn.
  unfold bind at 1. unfold completeAction. rewrite Hb.
  unfold publishAll. simpl. by rewrite Hempty.
Qed.

Lemma action_discards_open_batch_witness :
  run 3 (Action (Ret VUndef) (Ret VUndef))
    (with_action (Some [Some (Some 0)]) batch_pending)
  = run 3 (Ret VUndef) (with_action None (beginAction batch_pending)).
Proof.
  apply (action_discards_open_batch 3 (Ret VUndef) (Ret VUndef) VUndef batch_pending
           (beginAction batch_pending) (Some [Some (Some 0)]) []).
  - reflexivity.
  - reflexivity.
  - reflexivity.
Defined.

(** ** The [get] trap *)

(** A read through the proxy that subscribes nothing: outside a tracked
    function, or of a property that has no reaction-set yet, the read
    returns [target[prop]] and the state is as before. *)
Lemma read_without_frame_or_handle
    (l : Loc) (prop : string) (st : State) :
  currentlyTracking st = None ∨ PROPERTY_REACTIONS (get_obj l st) !! prop = None →
  is_array (get_obj l st) && bool_decide (prop ∈ ARRAY_MUTATION_METHODS) = false →
  get_property (VRef l) prop st = Done (read_own (get_obj l st) prop) st.
Proof.
  intros H Hm. simpl. unfold read_property, proxy_get.
  destruct (proxied (get_obj l st)); [| done]. rewrite Hm.
  destruct (PROPERTY_REACTIONS (get_obj l st) !! prop) as [s |]; [| done].
  destruct H as [H | H]; [| done]. unfold track. by rewrite H.
Qed.


(** ** Writing and reading back *)

Lemma strict_eq_eq (a b : Value) : strict_eq a b = true → a = b.
Proof.
  destruct a, b; simpl; try done; intros H%bool_decide_eq_true; congruence.
Qed.

Lemma keys_assign_prop (k : string) (v : Value) (ps : list (string * Value)) :
  fst <$> assign_prop k v ps =
    if bool_decide (is_Some (lookup_prop k ps)) then fst <$> ps else (fst <$> ps) ++ [k].
Proof.
  induction ps as [| [k0 v0] ps IH]; simpl.
  - reflexivity.
  - destruct (decide (k0 = k)) as [-> | Hne]; [reflexivity |].
    rewrite fmap_cons, IH. by case_bool_decide.
Qed.

(** X9.  Write, then read.  Inside an action, a value that is not an
    object, written through the proxy of an object that is not an array and
    has no own property [hasOwnProperty], to a key that is neither a name
    [Object.prototype] defines nor made of digits, is what the field reads
    afterwards; every other field and every other object read as before, a
    new key comes last in the order of the keys (writing [undefined] to a
    missing field adds no key), and no effect function has been called. *)
Theorem write_in_action_reads_back
    (call : RId → M unit) (fuel : nat) (l : Loc) (prop : string) (value : Value)
    (st : State) (batch : JSSet.t (option SetRef)) :
  currentActionReactionSets st = Some batch →
  is_array (get_obj l st) = false →
  hasOwnProperty (get_obj l st) "hasOwnProperty" = false →
  plain_key prop →
  is_object value = false →
  ∃ st',
    proxy_set call (S (S fuel)) l prop value st = Done tt st'
    ∧ read_own (get_obj l st') prop = value
    ∧ (∀ k, k ≠ prop → read_own (get_obj l st') k = read_own (get_obj l st) k)
    ∧ (fst <$> props (get_obj l st')
       = if hasOwnProperty (get_obj l st) prop || strict_eq VUndef value
         then fst <$> props (get_obj l st)
         else (fst <$> props (get_obj l st)) ++ [prop])
    ∧ (∀ l', l' ≠ l → get_obj l' st' = get_obj l' st)
    ∧ (∀ r, effects_of r (trace st') = effects_of r (trace st))
    ∧ currentActionReactionSets st' ≠ None.
Proof.
  intros Hb Harr Hhop _ Hv. rewrite proxy_set_unfold.
  unfold bind at 1. unfold gets at 1.
  assert (Hown : hasOwnProperty (get_obj l st) prop
                 = bool_decide (is_Some (lookup_prop prop (props (get_obj l st))))).
  { unfold hasOwnProperty. by rewrite Harr. }
  assert (Hread : ∀ k, read_own (get_obj l st) k
                       = default VUndef (lookup_prop k (props (get_obj l st)))).
  { intros k. unfold read_own. by rewrite Harr. }
  destruct (strict_eq (read_own (get_obj l st) prop) value) eqn:Heq.
  - exists st. split; [done |].
    pose proof (strict_eq_eq _ _ Heq) as Hval.
    split; [done |]. split; [done |]. split; [| split; [done |]; split; [done |]; congruence].
    rewrite Hown. case_bool_decide as Hp; [done |].
    rewrite Hread in Heq. apply eq_None_not_Some in Hp. rewrite Hp in Heq.
    by rewrite (Heq : strict_eq VUndef value = true).
  - change (negb false) with true. cbv beta iota. unfold bind at 1.
    destruct (store_observable_primitive_heap call fuel l prop value st Hhop Hv)
      as (st1 & -> & Hobj & Hothers & _ & _ & Htr & Hb1 & _).
    assert (Hpub : ∀ s, publish call (S fuel) s st1
      = Done tt (with_action (Some (JSSet.add s batch)) (log (EvPublish s) st1))).
    { intros s. apply publish_in_action. congruence. }
    assert (Hprops : props (get_obj l st1) = assign_prop prop value (props (get_obj l st))).
    { rewrite Hobj. unfold write_own. simpl. by rewrite Harr. }
    assert (Harr1 : is_array (get_obj l st1) = false).
    { rewrite Hobj. simpl. done. }
    assert (Hgoal : ∀ st',
      (∀ l', get_obj l' st' = get_obj l' st1) →
      (∀ r, effects_of r (trace st') = effects_of r (trace st1)) →
      currentActionReactionSets st' ≠ None →
      read_own (get_obj l st') prop = value
      ∧ (∀ k, k ≠ prop → read_own (get_obj l st') k = read_own (get_obj l st) k)
      ∧ (fst <$> props (get_obj l st')
         = if hasOwnProperty (get_obj l st) prop || strict_eq VUndef value
           then fst <$> props (get_obj l st)
           else (fst <$> props (get_obj l st)) ++ [prop])
      ∧ (∀ l', l' ≠ l → get_obj l' st' = get_obj l' st)
      ∧ (∀ r, effects_of r (trace st') = effects_of r (trace st))
      ∧ currentActionReactionSets st' ≠ None).
    { intros st' Hsame Heff Hopen.
      assert (Hread' : ∀ k, read_own (get_obj l st') k
                = default VUndef (lookup_prop k (assign_prop prop value (props (get_obj l st))))).
      { intros k. rewrite Hsame. unfold read_own. by rewrite Harr1, Hprops. }
      split; [| split; [| split; [| split; [| split]]]].
      - rewrite Hread', lookup_assign_prop, decide_True by done. done.
      - intros k Hk. by rewrite Hread', lookup_assign_prop, decide_False, Hread.
      - rewrite Hsame, Hprops, keys_assign_prop, Hown.
        case_bool_decide as Hp; [done |].
        rewrite Hread in Heq. apply eq_None_not_Some in Hp. rewrite Hp in Heq.
        by rewrite (Heq : strict_eq VUndef value = false).
      - intros l' Hne. rewrite Hsame. by apply Hothers.
      - intros r. by rewrite Heff, Htr.
      - done. }
    destruct (hasOwnProperty (get_obj l st) prop) eqn:Hhas; cbn [negb orb].
    + unfold bind at 1. unfold gets at 1. rewrite Hpub.
      eexists. split; [reflexivity |]. apply Hgoal; [done | | done].
      intros r. apply effects_of_log_publish.
    + unfold bind at 1. unfold gets at 1.
      destruct (PARENT_REACTIONS (get_obj l st1)) as [parent |].
      * rewrite Hpub. eexists. split; [reflexivity |]. apply Hgoal; [done | | done].
        intros r. apply effects_of_log_publish.
      * eexists. split; [reflexivity |]. apply Hgoal; [done | done | congruence].
Qed.

Lemma write_in_action_reads_back_witness :
  ∃ st',
    proxy_set (invoke 3) 4 1 "y" (VNum 5) (beginAction counter_watched) = Done tt st'
    ∧ read_own (get_obj 1 st') "y" = VNum 5
    ∧ read_own (get_obj 1 st') "x" = VNum 0
    ∧ fst <$> props (get_obj 1 st') = ["x"; "y"].
Proof.
  destruct (write_in_action_reads_back (invoke 3) 2 1 "y" (VNum 5)
              (beginAction counter_watched) [])
    as (st' & Hset & Hread & Hothers & Hkeys & _).
  - reflexivity.
  - vm_compute. reflexivity.
  - vm_compute. reflexivity.
  - apply (bool_decide_unpack (plain_key "y")). vm_compute. exact I.
  - reflexivity.
  - exists st'. split; [exact Hset |]. split; [exact Hread |].
    split; [rewrite Hothers by discriminate; vm_compute; reflexivity |].
    rewrite Hkeys. vm_compute. reflexivity.
Defined.




(** ** Wrapping *)

(** X10.  An object that refers to itself.  [observable] keeps no list of
    the objects it has visited: wrapping a plain object whose first
    property holds the object itself calls [observable] on the same object
    again before anything else happens, and so on.  The call produces no
    result, whatever the fuel. *)
Theorem observable_of_cyclic_object_never_returns
    (call : RId → M unit) (src : Loc) (key : string) (rest : list (string * Value))
    (fuel : nat) (parentReactionSet : option SetRef) (st : State) :
  src < next_loc st →
  is_array (get_obj src st) = false →
  proxied (get_obj src st) = false →
  props (get_obj src st) = (key, VRef src) :: rest →
  observable call fuel (VRef src) parentReactionSet st = Timeout.
Proof.
  revert parentReactionSet st.
  induction fuel as [fuel IH] using lt_wf_ind.
  intros parent st Hlt Harr Hprox Hprops.
  destruct fuel as [| fuel]; [done |].
  rewrite observable_object_unfold.
  unfold bind at 1. unfold gets at 1. rewrite Harr.
  unfold bind at 1. unfold alloc at 1.
  set (st1 := (new_obj (mkObj false [] true ∅ parent) st).2).
  change (new_obj (mkObj false [] true ∅ parent) st) with (next_loc st, st1).
  cbv iota beta.
  assert (Hsrc : get_obj src st1 = get_obj src st).
  { apply get_obj_new_obj_ne. lia. }
  assert (Hproxy : get_obj (next_loc st) st1 = mkObj false [] true ∅ parent).
  { apply get_obj_new_obj. }
  unfold bind at 1. unfold bind at 1. unfold gets at 1.
  rewrite Hsrc, Hprops. rewrite fmap_cons. cbn [fst].
  destruct fuel as [| fuel]; [done |].
  cbn [copy_properties]. unfold bind at 1.
  unfold read_property. rewrite Hsrc, Hprox.
  assert (Hread : read_own (get_obj src st) key = VRef src).
  { unfold read_own. rewrite Harr, Hprops. simpl. by rewrite decide_True. }
  rewrite Hread. unfold bind at 1.
  destruct fuel as [| fuel]; [done |].
  rewrite proxy_set_unfold.
  unfold bind at 1. unfold gets at 1. rewrite Hproxy.
  change (read_own (mkObj false [] true ∅ parent) key) with VUndef.
  change (negb (strict_eq VUndef (VRef src))) with true. cbv iota.
  unfold bind at 1. unfold store_observable.
  unfold bind at 1. unfold not_hasOwnProperty at 1. rewrite Hproxy.
  change (hasOwnProperty (mkObj false [] true ∅ parent) "hasOwnProperty") with false.
  cbv iota.
  unfold bind at 1. unfold gets at 1.
  rewrite Hproxy. cbn [PROPERTY_REACTIONS]. rewrite lookup_empty.
  unfold bind at 1. unfold bind at 1. unfold alloc at 1.
  set (st2 := (new_set st1).2).
  change (new_set st1) with (next_set st1, st2). cbv iota beta.
  unfold modify at 1.
  set (st3 := with_objs _ st2).
  unfold bind at 1. unfold gets at 1.
  unfold bind at 1.
  rewrite IH; [done | lia | | | |].
  - unfold st3, st2, st1. simpl. lia.
  - unfold st3. rewrite get_obj_insert, decide_False by lia.
    change (get_obj src st2) with (get_obj src st1). by rewrite Hsrc.
  - unfold st3. rewrite get_obj_insert, decide_False by lia.
    change (get_obj src st2) with (get_obj src st1). by rewrite Hsrc.
  - unfold st3. rewrite get_obj_insert, decide_False by lia.
    change (get_obj src st2) with (get_obj src st1). by rewrite Hsrc.
Qed.

Lemma observable_of_cyclic_object_never_returns_witness :
  observable (invoke 3) 50 (VRef 0) None cyclic_literal_state = Timeout.
Proof.
  apply (observable_of_cyclic_object_never_returns (invoke 3) 0 "self" [] 50 None
           cyclic_literal_state).
  - simpl. lia.
  - reflexivity.
  - reflexivity.
  - reflexivity.
Defined.


(** ** Copying into the proxy *)

Lemma lookup_prop_None (k : string) (ps : list (string * Value)) :
  lookup_prop k ps = None ↔ k ∉ fst <$> ps.
Proof.
  induction ps as [| [k0 v0] ps IH]; simpl.
  - split; [intros _; apply not_elem_of_nil | done].
  - rewrite not_elem_of_cons. case_decide as Hk.
    + split; [done | intros [? _]; congruence].
    + rewrite IH. split; [intros ?; split; [congruence | done] | tauto].
Qed.

Lemma lookup_prop_app (k : string) (ps qs : list (string * Value)) :
  lookup_prop k (ps ++ qs) =
    match lookup_prop k ps with Some v => Some v | None => lookup_prop k qs end.
Proof.
  induction ps as [| [k0 v0] ps IH]; simpl; [done |]. by case_decide.
Qed.

Lemma assign_prop_new (k : string) (v : Value) (ps : list (string * Value)) :
  lookup_prop k ps = None → assign_prop k v ps = ps ++ [(k, v)].
Proof.
  induction ps as [| [k0 v0] ps IH]; simpl; [done |].
  case_decide; [done |]. intros Hn. by rewrite IH.
Qed.

Lemma keys_defined_props (k : string) (ps : list (string * Value)) :
  k ∈ fst <$> defined_props ps → k ∈ fst <$> ps.
Proof.
  unfold defined_props. rewrite !list_elem_of_fmap.
  intros (kv & -> & Hin%list_elem_of_filter). exists kv. tauto.
Qed.

Lemma defined_props_snoc (ps : list (string * Value)) (k : string) (v : Value) :
  defined_props (ps ++ [(k, v)]) =
    if decide (v = VUndef) then defined_props ps else defined_props ps ++ [(k, v)].
Proof.
  unfold defined_props. rewrite filter_app. case_decide as Hv.
  - rewrite filter_cons_False by (simpl; tauto). by rewrite filter_nil, app_nil_r.
  - by rewrite filter_cons_True by done.
Qed.

Lemma strict_eq_VUndef (v : Value) : strict_eq VUndef v = bool_decide (v = VUndef).
Proof. destruct v; by simpl. Qed.

(** The loop of [observable] over the keys of a plain object whose values
    are not objects, into a proxy that has no parent reaction-set. *)
Lemma copy_properties_plain
    (call : RId → M unit) (proxy src : Loc) (post pre : list (string * Value))
    (fuel : nat) (st : State) :
  proxy ≠ src →
  is_array (get_obj src st) = false →
  proxied (get_obj src st) = false →
  props (get_obj src st) = pre ++ post →
  NoDup (fst <$> pre ++ post) →
  "hasOwnProperty" ∉ fst <$> pre ++ post →
  Forall (λ kv, is_object kv.2 = false) post →
  is_array (get_obj proxy st) = false →
  PARENT_REACTIONS (get_obj proxy st) = None →
  props (get_obj proxy st) = defined_props pre →
  length post + 2 ≤ fuel →
  ∃ st',
    copy_properties call fuel proxy src (fst <$> post) st = Done tt st'
    ∧ props (get_obj proxy st') = defined_props (pre ++ post)
    ∧ is_array (get_obj proxy st') = false
    ∧ proxied (get_obj proxy st') = proxied (get_obj proxy st)
    ∧ PARENT_REACTIONS (get_obj proxy st') = None
    ∧ (∀ l, l ≠ proxy → get_obj l st' = get_obj l st)
    ∧ (∀ s, s < next_set st → get_set s st' = get_set s st)
    ∧ next_set st ≤ next_set st'
    ∧ trace st' = trace st
    ∧ currentActionReactionSets st' = currentActionReactionSets st
    ∧ currentlyTracking st' = currentlyTracking st
    ∧ reactionSubscriptionSets st' = reactionSubscriptionSets st
    ∧ reactions st' = reactions st
    ∧ next_reaction st' = next_reaction st
    ∧ next_loc st' = next_loc st.
Proof.
  revert pre fuel st.
  induction post as [| [k v] post IH]; intros pre fuel st Hne Harr Hprox Hsrc Hnd Hhop Hprim
    Harr' Hpar Hprops Hfuel.
  - destruct fuel as [| fuel]; [simpl in Hfuel; lia |].
    exists st. rewrite app_nil_r. simpl. by repeat split.
  - destruct fuel as [| fuel]; [lia |]. simpl in Hfuel.
    rewrite fmap_cons. cbn [fst copy_properties].
    unfold bind at 1. unfold read_property. rewrite Hprox.
    assert (Hk : k ∉ fst <$> pre).
    { rewrite fmap_app, fmap_cons in Hnd. apply NoDup_app in Hnd as (_ & Hnd & _).
      intros Hin. apply (Hnd k Hin). by left. }
    assert (Hread : read_own (get_obj src st) k = v).
    { unfold read_own. rewrite Harr, Hsrc, lookup_prop_app. simpl.
      apply lookup_prop_None in Hk. rewrite Hk. simpl. by rewrite decide_True. }
    rewrite Hread.
    assert (Hcur : lookup_prop k (props (get_obj proxy st)) = None).
    { rewrite Hprops. apply lookup_prop_None. intros Hin. by apply Hk, keys_defined_props. }
    assert (Hv : is_object v = false) by by apply Forall_cons in Hprim as [? _].
    apply Forall_cons in Hprim as [_ Hprim].
    assert (Hsplit : pre ++ (k, v) :: post = (pre ++ [(k, v)]) ++ post).
    { by rewrite <- app_assoc. }
    destruct fuel as [| [| fuel]]; [lia | lia |].
    assert (Hset : ∃ st1,
      proxy_set call (S (S fuel)) proxy k v st = Done tt st1
      ∧ props (get_obj proxy st1) = defined_props (pre ++ [(k, v)])
      ∧ is_array (get_obj proxy st1) = false
      ∧ proxied (get_obj proxy st1) = proxied (get_obj proxy st)
      ∧ PARENT_REACTIONS (get_obj proxy st1) = None
      ∧ (∀ l, l ≠ proxy → get_obj l st1 = get_obj l st)
      ∧ (∀ s, s < next_set st → get_set s st1 = get_set s st)
      ∧ next_set st ≤ next_set st1
      ∧ trace st1 = trace st
      ∧ currentActionReactionSets st1 = currentActionReactionSets st
      ∧ currentlyTracking st1 = currentlyTracking st
      ∧ reactionSubscriptionSets st1 = reactionSubscriptionSets st
      ∧ reactions st1 = reactions st
      ∧ next_reaction st1 = next_reaction st
      ∧ next_loc st1 = next_loc st).
    { rewrite proxy_set_unfold. unfold bind at 1. unfold gets at 1.
      replace (read_own (get_obj proxy st) k) with VUndef
        by (unfold read_own; by rewrite Harr', Hcur).
      rewrite strict_eq_VUndef, defined_props_snoc.
      case_bool_decide as Hu; cbn [negb].
      - rewrite decide_True by done. exists st. by repeat split.
      - rewrite decide_False by done. unfold bind at 1.
        assert (Hhop' : hasOwnProperty (get_obj proxy st) "hasOwnProperty" = false).
        { unfold hasOwnProperty. rewrite Harr', Hprops. simpl.
          apply bool_decide_eq_false_2. intros Hsome.
          apply not_eq_None_Some in Hsome. apply Hsome, lookup_prop_None.
          intros Hin%keys_defined_props. apply Hhop.
          rewrite fmap_app. apply elem_of_app. by left. }
        destruct (store_observable_primitive_heap call fuel proxy k v st Hhop' Hv)
          as (st1 & -> & Hobj & Hothers & Hsets & _ & Htr & Hb & Hfr & Hsub & Hre & Hnr & Hnl
              & Hns).
        assert (Hown : hasOwnProperty (get_obj proxy st) k = false).
        { unfold hasOwnProperty. by rewrite Harr', Hcur. }
        rewrite Hown. cbn [negb]. unfold bind at 1. unfold gets at 1.
        assert (Hpar1 : PARENT_REACTIONS (get_obj proxy st1) = None).
        { rewrite Hobj. simpl. done. }
        rewrite Hpar1. exists st1. split; [done |].
        split.
        { rewrite Hobj. unfold write_own. simpl. rewrite Harr'. simpl.
          rewrite assign_prop_new by done. by rewrite Hprops. }
        split; [by rewrite Hobj |]. split; [by rewrite Hobj |].
        split; [done |]. split; [done |].
        split; [intros s Hs; apply Hsets; lia |].
        done. }
    destruct Hset as (st1 & Hset & Hprops1 & Harr1 & Hprox1 & Hpar1 & Hothers1 & Hsets1
                      & Hns1 & Htr1 & Hb1 & Hfr1 & Hsub1 & Hre1 & Hnr1 & Hnl1).
    unfold bind at 1. rewrite Hset.
    destruct (IH (pre ++ [(k, v)]) (S (S fuel)) st1) as (st' & -> & Hprops' & Harr2 & Hprox2
      & Hpar2 & Hothers2 & Hsets2 & Hns2 & Htr2 & Hb2 & Hfr2 & Hsub2 & Hre2 & Hnr2 & Hnl2);
      try done.
    + by rewrite Hothers1.
    + by rewrite Hothers1.
    + by rewrite Hothers1, Hsrc.
    + by rewrite <- Hsplit.
    + by rewrite <- Hsplit.
    + lia.
    + exists st'. split; [done |]. rewrite Hsplit.
      split; [done |]. split; [done |]. split; [congruence |]. split; [done |].
      split; [intros l Hl; by rewrite Hothers2, Hothers1 |].
      split; [intros s Hs; rewrite Hsets2, Hsets1; [done | lia | lia] |].
      split; [lia |].
      repeat split; congruence.
Qed.

Lemma read_defined_props (k : string) (ps : list (string * Value)) :
  NoDup (fst <$> ps) →
  default VUndef (lookup_prop k (defined_props ps)) = default VUndef (lookup_prop k ps).
Proof.
  unfold defined_props.
  induction ps as [| [k0 v0] ps IH]; [done |].
  rewrite fmap_cons. intros [Hk0 Hnd]%NoDup_cons. cbn [fst] in Hk0.
  destruct (decide (v0 = VUndef)) as [-> | Hv].
  - rewrite filter_cons_False by (simpl; tauto). rewrite IH by done. simpl.
    case_decide as Hk; [| done]. subst k0.
    apply lookup_prop_None in Hk0. by rewrite Hk0.
  - rewrite filter_cons_True by done. simpl. case_decide; [done |]. by apply IH.
Qed.

(** X11.  [observable] on a plain object whose values are not objects and
    whose keys are neither names [Object.prototype] defines nor made of
    digits.  With fuel for the loop over the keys the call returns a new
    proxy, at the next free location, without parent reaction-set; every
    property reads on it as on the original, but a property whose value is
    [undefined] has not become an own property of the copy.  The original,
    every other object and every reaction-set that existed are as before,
    nothing was published and the store is unchanged. *)
Theorem observable_copies_plain_object
    (call : RId → M unit) (src : Loc) (fuel : nat) (st : State) :
  src < next_loc st →
  is_array (get_obj src st) = false →
  proxied (get_obj src st) = false →
  NoDup (fst <$> props (get_obj src st)) →
  Forall plain_key (fst <$> props (get_obj src st)) →
  Forall (λ kv, is_object kv.2 = false) (props (get_obj src st)) →
  length (props (get_obj src st)) + 3 ≤ fuel →
  ∃ st',
    observable call fuel (VRef src) None st = Done (VRef (next_loc st)) st'
    ∧ props (get_obj (next_loc st) st') = defined_props (props (get_obj src st))
    ∧ (∀ k, read_own (get_obj (next_loc st) st') k = read_own (get_obj src st) k)
    ∧ proxied (get_obj (next_loc st) st') = true
    ∧ PARENT_REACTIONS (get_obj (next_loc st) st') = None
    ∧ (∀ l, l < next_loc st → get_obj l st' = get_obj l st)
    ∧ (∀ s, s < next_set st → get_set s st' = get_set s st)
    ∧ trace st' = trace st
    ∧ currentActionReactionSets st' = currentActionReactionSets st
    ∧ currentlyTracking st' = currentlyTracking st
    ∧ reactionSubscriptionSets st' = reactionSubscriptionSets st.
Proof.
  intros Hlt Harr Hprox Hnd Hkeys Hprim Hfuel.
  assert (Hhop : "hasOwnProperty" ∉ fst <$> props (get_obj src st)).
  { intros Hin. rewrite Forall_forall in Hkeys. destruct (Hkeys _ Hin) as [Hn _].
    apply Hn. apply (bool_decide_unpack ("hasOwnProperty" ∈ Object_prototype_names)).
    vm_compute. exact I. }
  destruct fuel as [| fuel]; [lia |].
  rewrite observable_object_unfold.
  unfold bind at 1. unfold gets at 1. rewrite Harr.
  unfold bind at 1. unfold alloc at 1.
  set (st1 := (new_obj (mkObj false [] true ∅ None) st).2).
  change (new_obj (mkObj false [] true ∅ None) st) with (next_loc st, st1).
  cbv iota beta.
  assert (Hsrc : get_obj src st1 = get_obj src st).
  { apply get_obj_new_obj_ne. lia. }
  assert (Hproxy : get_obj (next_loc st) st1 = mkObj false [] true ∅ None).
  { apply get_obj_new_obj. }
  unfold bind at 1. unfold bind at 1. unfold gets at 1. rewrite Hsrc.
  destruct (copy_properties_plain call (next_loc st) src (props (get_obj src st)) []
              fuel st1)
    as (st' & -> & Hprops & Harr' & Hprox' & Hpar' & Hothers & Hsets & _ & Htr & Hb & Hfr
        & Hsub & _); try (by rewrite ?Hsrc, ?Hproxy); [lia | lia |].
  exists st'. split; [done |]. split; [done |].
  split.
  { intros k. unfold read_own. rewrite Harr', Harr, Hprops. simpl.
    by apply read_defined_props. }
  split; [by rewrite Hprox', Hproxy |]. split; [done |].
  split.
  { intros l Hl. rewrite Hothers by lia. apply get_obj_new_obj_ne. lia. }
  done.
Qed.

Lemma observable_copies_plain_object_witness :
  ∃ st',
    observable (invoke 3) 5 (VRef 0) None plain_literal_state = Done (VRef 1) st'
    ∧ props (get_obj 1 st') = [("a", VNum 1)]
    ∧ read_own (get_obj 1 st') "b" = VUndef
    ∧ get_obj 0 st' = get_obj 0 plain_literal_state
    ∧ trace st' = [].
Proof.
  destruct (observable_copies_plain_object (invoke 3) 0 5 plain_literal_state)
    as (st' & Hobs & Hprops & Hread & _ & _ & Hothers & _ & Htr & _).
  - simpl. lia.
  - reflexivity.
  - reflexivity.
  - apply (bool_decide_unpack (NoDup (fst <$> props (get_obj 0 plain_literal_state)))).
    vm_compute. exact I.
  - apply (bool_decide_unpack
             (Forall plain_key (fst <$> props (get_obj 0 plain_literal_state)))).
    vm_compute. exact I.
  - vm_compute. repeat constructor.
  - vm_compute. lia.
  - exists st'. split; [exact Hobs |]. split; [exact Hprops |].
    split; [by rewrite Hread |]. split; [apply Hothers; simpl; lia | exact Htr].
Defined.


(** ** Copying an array *)

Lemma pretty_N_go_digit (x : N) (s : string) :
  (∃ d s', s = String (pretty_N_char d) s') →
  ∃ d s', pretty_N_go x s = String (pretty_N_char d) s'.
Proof.
  revert s. induction (N.lt_wf_0 x) as [x _ IH]; intros s Hs.
  assert (x = 0 ∨ 0 < x)%N as [-> | Hx] by lia.
  - by rewrite pretty_N_go_0.
  - rewrite pretty_N_go_step by done. apply IH; [by apply N.div_lt | eauto].
Qed.

Lemma pretty_nat_digit (i : nat) : ∃ d s', pretty i = String (pretty_N_char d) s'.
Proof.
  unfold pretty, pretty_nat, pretty, pretty_N. case_decide as Hi.
  - by exists 0%N, "".
  - rewrite pretty_N_go_step by lia. apply pretty_N_go_digit. eauto.
Qed.

(** An index is not the key [length]. *)
Lemma pretty_nat_not_length (i : nat) : pretty i ≠ "length".
Proof.
  destruct (pretty_nat_digit i) as (d & s' & ->). intros [= Hd _].
  revert Hd. unfold pretty_N_char. by repeat case_match.
Qed.

Lemma lookup_prop_imap (off i : nat) (vs : list Value) :
  lookup_prop (pretty (off + i)) (imap (λ j v, (pretty (off + j), v)) vs) = vs !! i.
Proof.
  revert off i. induction vs as [| v vs IH]; intros off i; [done |].
  rewrite imap_cons. simpl. destruct i as [| i].
  - by rewrite decide_True.
  - rewrite decide_False by (intros H%(inj pretty); lia).
    change ((v :: vs) !! S i) with (vs !! i).
    rewrite <- (IH (S off) i). f_equal; [f_equal; lia |].
    apply imap_ext. intros j w _. simpl. f_equal. f_equal. lia.
Qed.

Lemma lookup_prop_reindex (i : nat) (vs : list Value) :
  lookup_prop (pretty i) (reindex vs) = vs !! i.
Proof. apply (lookup_prop_imap 0 i vs). Qed.

Lemma snd_imap (f : nat → string) (vs : list Value) :
  snd <$> imap (λ i v, (f i, v)) vs = vs.
Proof.
  revert f. induction vs as [| v vs IH]; intros f; [done |].
  rewrite imap_cons, fmap_cons. simpl. f_equal. apply (IH (f ∘ S)).
Qed.

Lemma snd_reindex (vs : list Value) : snd <$> reindex vs = vs.
Proof. apply snd_imap. Qed.

Lemma length_reindex (vs : list Value) : length (reindex vs) = length vs.
Proof. unfold reindex. apply length_imap. Qed.

(** The loop of [observable] over the elements of a plain array, inside
    an action: each element is pushed as it is, and each push publishes to
    the parent reaction-set of the new array. *)
Lemma copy_elements_in_action
    (call : RId → M unit) (proxy src : Loc) (vs : list Value)
    (parent : option SetRef) (n : nat) :
  ∀ (i fuel : nat) (st : State) (batch : JSSet.t (option SetRef)),
    n = length vs - i → i ≤ length vs →
    proxy ≠ src →
    is_array (get_obj src st) = true →
    proxied (get_obj src st) = false →
    props (get_obj src st) = reindex vs →
    get_obj proxy st = mkObj true (reindex (take i vs)) true ∅ parent →
    currentActionReactionSets st = Some batch →
    n + 1 ≤ fuel →
    ∃ st',
      copy_elements call fuel proxy src i st = Done tt st'
      ∧ get_obj proxy st' = mkObj true (reindex vs) true ∅ parent
      ∧ (∀ l, l ≠ proxy → get_obj l st' = get_obj l st)
      ∧ sets st' = sets st
      ∧ trace st' = trace st ++ replicate n (EvPublish parent)
      ∧ currentActionReactionSets st'
        = Some (if decide (n = 0) then batch else JSSet.add parent batch)
      ∧ currentlyTracking st' = currentlyTracking st
      ∧ reactionSubscriptionSets st' = reactionSubscriptionSets st
      ∧ next_loc st' = next_loc st.
Proof.
  induction n as [| n IH]; intros i fuel st batch Hn Hi Hne Harr Hprox Hsrc Hproxy Hb Hfuel;
    (destruct fuel as [| fuel]; [lia |]); cbn [copy_elements];
    unfold bind at 1; unfold read_property at 1; rewrite Hprox;
    (assert (Hlen : read_own (get_obj src st) "length" = VNum (Z.of_nat (length vs)));
     [unfold read_own; rewrite Harr, Hsrc, length_reindex; reflexivity |]);
    rewrite Hlen.
  - rewrite bool_decide_eq_false_2 by lia.
    exists st. split; [done |]. rewrite Hproxy, take_ge by lia.
    rewrite app_nil_r. by repeat split.
  - rewrite bool_decide_eq_true_2 by lia.
    destruct (lookup_lt_is_Some_2 vs i) as [v Hv]; [lia |].
    unfold bind at 1. unfold read_property at 1. rewrite Hprox.
    assert (Hread : read_own (get_obj src st) (pretty i) = v).
    { unfold read_own. rewrite Harr, Hsrc.
      rewrite (bool_decide_eq_false_2 (pretty i = "length"))
        by apply pretty_nat_not_length.
      simpl. by rewrite lookup_prop_reindex, Hv. }
    rewrite Hread. unfold bind at 1.
    unfold proxy_method. unfold bind at 1. unfold alloc at 1.
    rewrite Hproxy. unfold apply_method. cbn [props is_array proxied PROPERTY_REACTIONS
      PARENT_REACTIONS].
    rewrite snd_reindex, <- (take_S_r vs i v) by done.
    set (st1 := with_objs _ st).
    assert (Hproxy1 : get_obj proxy st1
                      = mkObj true (reindex (take (S i) vs)) true ∅ parent).
    { unfold st1. by rewrite get_obj_insert, decide_True. }
    unfold bind at 1. unfold gets at 1. rewrite Hproxy1. cbn [PARENT_REACTIONS].
    unfold bind at 1.
    rewrite (publish_in_action call fuel parent st1 batch) by done.
    unfold ret at 1.
    set (st2 := with_action _ _).
    destruct (IH (S i) fuel st2 (JSSet.add parent batch))
      as (st' & -> & Hproxy' & Hothers & Hsets & Htr & Hb' & Hfr & Hsub & Hnl);
      try done; try lia.
    + unfold st2, st1. change (get_obj src (with_action ?b (log ?e ?s))) with (get_obj src s).
      by rewrite get_obj_insert, decide_False.
    + unfold st2, st1. change (get_obj src (with_action ?b (log ?e ?s))) with (get_obj src s).
      by rewrite get_obj_insert, decide_False.
    + unfold st2, st1. change (get_obj src (with_action ?b (log ?e ?s))) with (get_obj src s).
      by rewrite get_obj_insert, decide_False.
    + exists st'. split; [done |]. split; [done |].
      split.
      { intros l Hl. rewrite Hothers by done. unfold st2, st1.
        change (get_obj l (with_action ?b (log ?e ?s))) with (get_obj l s).
        by rewrite get_obj_insert, decide_False. }
      split; [done |]. split.
      { rewrite Htr. simpl. by rewrite <- app_assoc. }
      split; [| done].
      rewrite Hb'. case_decide; [done |]. by rewrite add_add.
Qed.

(** X12.  [observable] on a plain array, inside an action.  The call
    returns a new array proxy whose elements are the elements of the
    original themselves: an element that is an object is stored as it is,
    no proxy is made for it, and no element has a reaction-set.  Each
    element copied publishes once to the parent reaction-set of the new
    array, which the action defers. *)
Theorem observable_array_keeps_elements_unwrapped
    (call : RId → M unit) (src : Loc) (vs : list Value) (fuel : nat)
    (parentReactionSet : option SetRef) (st : State) (batch : JSSet.t (option SetRef)) :
  src < next_loc st →
  is_array (get_obj src st) = true →
  proxied (get_obj src st) = false →
  props (get_obj src st) = reindex vs →
  currentActionReactionSets st = Some batch →
  length vs + 2 ≤ fuel →
  ∃ st',
    observable call fuel (VRef src) parentReactionSet st = Done (VRef (next_loc st)) st'
    ∧ get_obj (next_loc st) st' = mkObj true (reindex vs) true ∅ parentReactionSet
    ∧ (∀ l, l < next_loc st → get_obj l st' = get_obj l st)
    ∧ next_loc st' = S (next_loc st)
    ∧ trace st' = trace st ++ replicate (length vs) (EvPublish parentReactionSet)
    ∧ currentActionReactionSets st'
      = Some (if decide (length vs = 0) then batch else JSSet.add parentReactionSet batch).
Proof.
  intros Hlt Harr Hprox Hsrc Hb Hfuel.
  destruct fuel as [| fuel]; [lia |].
  rewrite observable_object_unfold.
  unfold bind at 1. unfold gets at 1. rewrite Harr.
  unfold bind at 1. unfold alloc at 1.
  set (st1 := (new_obj (mkObj true [] true ∅ parentReactionSet) st).2).
  change (new_obj (mkObj true [] true ∅ parentReactionSet) st) with (next_loc st, st1).
  cbv iota beta.
  assert (Hsrc1 : get_obj src st1 = get_obj src st).
  { apply get_obj_new_obj_ne. lia. }
  unfold bind at 1.
  destruct (copy_elements_in_action call (next_loc st) src vs parentReactionSet
              (length vs) 0 fuel st1 batch)
    as (st' & -> & Hproxy' & Hothers & _ & Htr & Hb' & _ & _ & Hnl);
    try (by rewrite ?Hsrc1); try lia.
  { apply get_obj_new_obj. }
  exists st'. split; [done |]. split; [done |].
  split.
  { intros l Hl. rewrite Hothers by lia. apply get_obj_new_obj_ne. lia. }
  done.
Qed.

Lemma observable_array_keeps_elements_unwrapped_witness :
  ∃ st',
    observable (invoke 3) 3 (VRef 1) None nested_array_state = Done (VRef 2) st'
    ∧ get_obj 2 st' = mkObj true [("0", VRef 0)] true ∅ None
    ∧ proxied (get_obj 0 st') = false
    ∧ next_loc st' = 3.
Proof.
  destruct (observable_array_keeps_elements_unwrapped (invoke 3) 1 [VRef 0] 3 None
              nested_array_state [])
    as (st' & Hobs & Hnew & Hothers & Hnl & _).
  - simpl. lia.
  - reflexivity.
  - reflexivity.
  - reflexivity.
  - reflexivity.
  - simpl. lia.
  - exists st'. split; [exact Hobs |]. split; [exact Hnew |].
    split; [rewrite Hothers by (simpl; lia); reflexivity | exact Hnl].
Defined.


(** ** What a reaction is subscribed to *)

Lemma silent_after_creation (r : RId) (t : Prog) (e : Value → Prog) (st : State) :
  r = next_reaction st →
  unsubscribed r st →
  silent r (effects_of r (trace st)) false (beginTracking r (new_reaction t e st).2).
Proof.
  intros -> Hun.
  destruct (beginTracking_frame (next_reaction st) (new_reaction t e st).2)
    as (_ & Hs & _ & Htr & Hn & _).
  split; [rewrite Hn; simpl; lia |].
  split; [| split; [by rewrite Htr | done]].
  intros s. unfold get_set. rewrite Hs. apply Hun.
Qed.

Lemma get_obj_beginTracking (l : Loc) (r : RId) (st : State) :
  get_obj l (beginTracking r st) = get_obj l st.
Proof. unfold beginTracking. by case_bool_decide. Qed.

(** A reaction whose tracked function returns without collecting anything:
    it joins no reaction-set, and nothing that runs afterwards calls it. *)
Lemma reaction_collecting_nothing
    (n : nat) (trackedFn : Prog) (effectFn : Value → Prog) (k : RId → Prog)
    (v : Value) (st : State) :
  unsubscribed (next_reaction st) st →
  (∀ call fuel,
     exec call fuel trackedFn
       (beginTracking (next_reaction st) (new_reaction trackedFn effectFn st).2)
     = Done v (beginTracking (next_reaction st) (new_reaction trackedFn effectFn st).2)) →
  holds_after
    (silent (next_reaction st) (effects_of (next_reaction st) (trace st) ++ [v]) false)
    (run n (Reaction trackedFn effectFn k) st).
Proof.
  intros Hun Ht. set (r := next_reaction st) in *.
  unfold run. cbn [exec]. unfold bind at 1. unfold alloc.
  change (new_reaction trackedFn effectFn st)
    with (r, (new_reaction trackedFn effectFn st).2).
  cbv iota beta. unfold bind at 1.
  destruct n as [| n]; [done |].
  cbn [invoke]. unfold reactionFn. unfold bind at 1. unfold gets.
  replace (reactions (new_reaction trackedFn effectFn st).2 !! r)
    with (Some (trackedFn, effectFn)) by (simpl; by rewrite lookup_insert_eq).
  unfold bind at 1. unfold modify at 1.
  unfold bind at 1. rewrite Ht.
  unfold bind at 1. unfold modify at 1.
  unfold bind at 1. unfold modify at 1.
  pose proof (silent_after_creation r trackedFn effectFn st eq_refl Hun) as HS.
  set (st1 := beginTracking r (new_reaction trackedFn effectFn st).2) in *.
  assert (Hfr : currentlyTracking st1 = Some (mkFrame r JSSet.empty)).
  { apply beginTracking_frame. }
  assert (Hct : completeTracking st1 = with_tracking None st1).
  { unfold completeTracking. by rewrite Hfr. }
  rewrite Hct.
  set (st2 := log (EvEffect r v) (with_tracking None st1)).
  assert (HS2 : silent r (effects_of r (trace st) ++ [v]) false st2).
  { destruct HS as (Hlt & Hun1 & HL & _).
    split; [done |]. split; [done |]. split; [| done].
    unfold st2. rewrite effects_of_log_same. f_equal. exact HL. }
  unfold bind at 1.
  pose proof (run_silent r _ false n (effectFn v) st2 HS2) as He.
  fold (run n (effectFn v)).
  destruct (run n (effectFn v) st2) as [w st3 | e st3 |]; [| done | done].
  unfold ret at 1. unfold bind at 1.
  apply (run_silent r _ false (S n) (k r) st3 He).
Qed.

(** X13.  The effect function is not tracked.  A reaction whose tracked
    function reads nothing is subscribed to nothing, whatever its effect
    function reads: its effect function is called once, when the reaction
    is created, and whatever the effect function and the rest of the
    program do, the reaction joins no reaction-set and is not run again. *)
Theorem effect_function_is_not_tracked
    (n : nat) (v : Value) (effectFn : Value → Prog) (k : RId → Prog) (st : State) :
  unsubscribed (next_reaction st) st →
  holds_after
    (silent (next_reaction st) (effects_of (next_reaction st) (trace st) ++ [v]) false)
    (run n (Reaction (Ret v) effectFn k) st).
Proof. intros Hun. by apply reaction_collecting_nothing. Qed.

Lemma effect_function_is_not_tracked_witness :
  returns (run 5 (Reaction (Ret (VNum 7)) (λ _, GetProp (VRef 1) "x" Ret)
                    (λ _, SetProp (VRef 1) "x" (VNum 1) (Ret VUndef))) counter_watched)
  = true
  ∧ holds_after
      (silent (next_reaction counter_watched)
         (effects_of (next_reaction counter_watched) (trace counter_watched) ++ [VNum 7])
         false)
      (run 5 (Reaction (Ret (VNum 7)) (λ _, GetProp (VRef 1) "x" Ret)
                (λ _, SetProp (VRef 1) "x" (VNum 1) (Ret VUndef))) counter_watched).
Proof.
  split; [vm_compute; reflexivity |].
  apply (effect_function_is_not_tracked 5 (VNum 7) (λ _, GetProp (VRef 1) "x" Ret)
           (λ _, SetProp (VRef 1) "x" (VNum 1) (Ret VUndef)) counter_watched).
  apply unsubscribed_decide. vm_compute. reflexivity.
Defined.

(** X14.  A property without reaction-set is not tracked.  A property has
    a reaction-set from the first time the [set] trap stores a value for
    it.
    A reaction whose tracked function reads a property that has none yet
    (or reads an object that is not a proxy) is subscribed to nothing:
    its effect function is called once, with what the property read, and
    the reaction is not run again, also when the property is assigned
    later. *)
Theorem reaction_reading_unset_property_never_reruns
    (n : nat) (l : Loc) (prop : string) (effectFn : Value → Prog) (k : RId → Prog)
    (st : State) :
  unsubscribed (next_reaction st) st →
  proxied (get_obj l st) = false ∨ PROPERTY_REACTIONS (get_obj l st) !! prop = None →
  is_array (get_obj l st) && bool_decide (prop ∈ ARRAY_MUTATION_METHODS) = false →
  holds_after
    (silent (next_reaction st)
       (effects_of (next_reaction st) (trace st) ++ [read_own (get_obj l st) prop]) false)
    (run n (Reaction (GetProp (VRef l) prop Ret) effectFn k) st).
Proof.
  intros Hun Hl Hm. apply reaction_collecting_nothing; [done |].
  intros call fuel. cbn [exec]. unfold bind at 1.
  set (st1 := beginTracking _ _).
  assert (Hobj : get_obj l st1 = get_obj l st).
  { unfold st1. by rewrite get_obj_beginTracking. }
  unfold get_property, read_property, proxy_get. rewrite Hobj, Hm.
  destruct Hl as [-> | ->]; [done |]. by destruct (proxied (get_obj l st)).
Qed.

Lemma reaction_reading_unset_property_never_reruns_witness :
  returns (run 5 (Reaction (GetProp (VRef 1) "y" Ret) (λ _, Ret VUndef)
                    (λ _, SetProp (VRef 1) "y" (VNum 1) (Ret VUndef))) counter_state)
  = true
  ∧ holds_after
      (silent (next_reaction counter_state)
         (effects_of (next_reaction counter_state) (trace counter_state)
          ++ [read_own (get_obj 1 counter_state) "y"]) false)
      (run 5 (Reaction (GetProp (VRef 1) "y" Ret) (λ _, Ret VUndef)
                (λ _, SetProp (VRef 1) "y" (VNum 1) (Ret VUndef))) counter_state).
Proof.
  split; [vm_compute; reflexivity |].
  apply (reaction_reading_unset_property_never_reruns 5 1 "y" (λ _, Ret VUndef)
           (λ _, SetProp (VRef 1) "y" (VNum 1) (Ret VUndef)) counter_state).
  - apply unsubscribed_decide. vm_compute. reflexivity.
  - right. vm_compute. reflexivity.
  - vm_compute. reflexivity.
Defined.




(** ** Inside an action *)

(** X16.  What an action defers.  While the body of an action runs, and
    the body calls no action itself, the action stays open and no reaction
    that existed when the action began is run: when the body returns or
    throws, the effect function of each of them has been called as often
    as before.  (A reaction the body creates runs once, when it is
    created.) *)
Theorem action_body_runs_no_earlier_reaction
    (n : nat) (fn : Prog) (st : State) :
  action_free fn →
  holds_after
    (λ st1, currentActionReactionSets st1 ≠ None
            ∧ ∀ r, r < next_reaction st →
                   effects_of r (trace st1) = effects_of r (trace st))
    (run n fn (beginAction st)).
Proof.
  intros Hfree.
  assert (HD : deferring (next_reaction st) (λ r, effects_of r (trace st)) (beginAction st)).
  { split; [| done]. split; [done |]. split; [done |].
    intros r t e Hr. simpl in Hr. lia. }
  pose proof (exec_deferring (next_reaction st) _ (invoke n) n fn
                (invoke_deferring _ _ n) Hfree _ HD) as Hres.
  fold (run n fn) in Hres.
  destruct (run n fn (beginAction st)) as [v st1 | e st1 |]; [| | done].
  - destruct Hres as [(? & _) ?]. by split.
  - destruct Hres as [(? & _) ?]. by split.
Qed.

Lemma action_body_runs_no_earlier_reaction_witness :
  returns (run 5 (SetProp (VRef 1) "x" (VNum 1) (Ret VUndef)) (beginAction counter_watched))
  = true
  ∧ holds_after
      (λ st1, currentActionReactionSets st1 ≠ None
              ∧ ∀ r, r < next_reaction counter_watched →
                     effects_of r (trace st1) = effects_of r (trace counter_watched))
      (run 5 (SetProp (VRef 1) "x" (VNum 1) (Ret VUndef)) (beginAction counter_watched)).
Proof.
  split; [vm_compute; reflexivity |].
  apply (action_body_runs_no_earlier_reaction 5
           (SetProp (VRef 1) "x" (VNum 1) (Ret VUndef)) counter_watched).
  exact I.
Defined.


(** ** From a write to the reaction *)

Lemma completeTracking_objs (st : State) : objs (completeTracking st) = objs st.
Proof.
  unfold completeTracking. destruct (currentlyTracking st) as [fr |]; [| done].
  simpl. generalize (JSSet.elements (reactionSets fr)). intros l. revert st.
  induction l as [| s l IH]; intros st; simpl; [done |]. by rewrite IH.
Qed.

(** One run of the reaction function of [reaction(() => obj[prop], _ => {})]. *)
Lemma invoke_reader (n : nat) (r : RId) (l : Loc) (prop : string) (s : SetRef)
    (st : State) :
  reactions st !! r = Some (GetProp (VRef l) prop Ret, λ _, Ret VUndef) →
  proxied (get_obj l st) = true →
  is_array (get_obj l st) = false →
  PROPERTY_REACTIONS (get_obj l st) !! prop = Some s →
  ∃ st',
    invoke (S n) r st = Done tt st'
    ∧ get_set s st' = JSSet.add r (get_set s st)
    ∧ objs st' = objs st
    ∧ trace st' = trace st ++ [EvEffect r (read_own (get_obj l st) prop)]
    ∧ currentActionReactionSets st' = currentActionReactionSets st
    ∧ reactions st' = reactions st.
Proof.
  intros Hcl Hprox Harr Hs.
  cbn [invoke]. unfold reactionFn. unfold bind at 1. unfold gets at 1. rewrite Hcl.
  unfold bind at 1. unfold modify at 1.
  destruct (beginTracking_frame r st) as (Hfr1 & Hsets1 & Hb1 & Htr1 & _ & Hre1).
  assert (Hobj1 : get_obj l (beginTracking r st) = get_obj l st).
  { unfold beginTracking. by case_bool_decide. }
  unfold bind at 1. cbn [exec]. unfold bind at 1.
  unfold get_property, read_property. rewrite Hobj1, Hprox.
  unfold proxy_get. rewrite Hobj1, Harr, Hs. cbn [andb].
  unfold ret at 1. unfold bind at 1. unfold modify at 1.
  unfold bind at 1. unfold modify at 1. unfold bind at 1. cbn [exec].
  eexists. split; [reflexivity |].
  destruct (track_fields s (beginTracking r st)) as (Hsets2 & _ & Htr2 & _).
  destruct (completeTracking_fields (track s (beginTracking r st)))
    as (_ & Htr3 & Hb3 & Hre3).
  split.
  { change (get_set s (log ?e ?st0)) with (get_set s st0).
    rewrite get_set_completeTracking, frame_track_beginTracking.
    simpl. rewrite bool_decide_eq_true_2 by by apply list_elem_of_singleton.
    f_equal. unfold get_set. by rewrite Hsets2, Hsets1. }
  split.
  { simpl. rewrite completeTracking_objs, objs_track. unfold beginTracking.
    by case_bool_decide. }
  split; [simpl; by rewrite Htr3, Htr2, Htr1 |].
  split; [simpl; by rewrite Hb3, action_track, Hb1 |].
  simpl. by rewrite Hre3, track_reactions, Hre1.
Qed.

(** The loop of [publish] steps over the slots of deleted entries. *)
Lemma publish_loop_tombstones (call : RId → M unit) (s : SetRef) (k : nat) :
  ∀ (fuel i : nat) (st : State),
    (∀ j, i ≤ j < i + k → get_set s st !! j = Some None) →
    publish_loop call (k + fuel) s i st = publish_loop call fuel s (i + k) st.
Proof.
  induction k as [| k IH]; intros fuel i st Hk.
  - by rewrite Nat.add_0_r.
  - cbn [Nat.add publish_loop]. rewrite (Hk i) by lia.
    rewrite IH; [f_equal; lia |]. intros j Hj. apply Hk. lia.
Qed.

(** X17.  A write reaches the reaction that read the field.  Let [obj] be
    a proxy of a plain object with a property [prop] that has a
    reaction-set without live member, outside any action; [prop] is not a
    name [Object.prototype] defines, and neither the object nor its
    [PROPERTY_REACTIONS] has an own property [hasOwnProperty].  After
    [reaction(() => obj[prop], _ => {})] the reaction is a member of that
    reaction-set, and [obj[prop] = value], for a value that is not an
    object and differs from the old one, publishes to it once: the effect
    function is called a second time, with the new value, and the field
    reads the new value. *)
Theorem write_runs_the_reaction_that_read
    (n : nat) (l : Loc) (prop : string) (s : SetRef) (old value : Value) (st : State) :
  proxied (get_obj l st) = true →
  is_array (get_obj l st) = false →
  inherits_hasOwnProperty (get_obj l st) →
  prop ∉ Object_prototype_names →
  lookup_prop prop (props (get_obj l st)) = Some old →
  PROPERTY_REACTIONS (get_obj l st) !! prop = Some s →
  (∀ r, Some r ∉ get_set s st) →
  currentActionReactionSets st = None →
  is_object value = false →
  strict_eq old value = false →
  length (get_set s st) + 3 ≤ n →
  ∃ st',
    run n (Reaction (GetProp (VRef l) prop Ret) (λ _, Ret VUndef)
             (λ _, SetProp (VRef l) prop value (Ret VUndef))) st
    = Done VUndef st'
    ∧ trace st'
      = trace st ++ [EvEffect (next_reaction st) old; EvPublish (Some s);
                     EvEffect (next_reaction st) value]
    ∧ read_own (get_obj l st') prop = value
    ∧ Some (next_reaction st) ∈ get_set s st'.
Proof.
  intros Hprox Harr [Hhop _] _ Hold Hs Hempty Hb Hv Hne Hfuel.
  set (r := next_reaction st).
  set (t := GetProp (VRef l) prop Ret). set (e := λ _ : Value, Ret VUndef).
  set (st0 := (new_reaction t e st).2).
  assert (Hread : read_own (get_obj l st) prop = old).
  { unfold read_own. by rewrite Harr, Hold. }
  destruct n as [| [| f]]; [lia | lia |].
  (* the first run *)
  destruct (invoke_reader (S f) r l prop s st0)
    as (st1 & Hinv1 & Hset1 & Hobjs1 & Htr1 & Hb1 & Hre1); try done.
  { unfold st0. simpl. by rewrite lookup_insert_eq. }
  assert (Hobj1 : ∀ l', get_obj l' st1 = get_obj l' st).
  { intros l'. unfold get_obj. by rewrite Hobjs1. }
  assert (Hmem : get_set s st1 = get_set s st ++ [Some r]).
  { rewrite Hset1. change (get_set s st0) with (get_set s st).
    unfold JSSet.add, JSSet.has. by rewrite bool_decide_eq_false_2 by apply Hempty. }
  (* the write, down to the assignment *)
  destruct (store_observable_primitive_heap (invoke (S (S f))) f l prop value st1)
    as (st2 & Hstore & Hobj2 & _ & Hsets2 & Hnew2 & Htr2 & Hb2 & _ & _ & Hre2 & _);
    [by rewrite Hobj1 | done |].
  rewrite !Hobj1, Hs in Hobj2, Hnew2. simpl in Hobj2.
  rewrite insert_id in Hobj2 by done.
  assert (Hown : hasOwnProperty (get_obj l st) prop = true).
  { unfold hasOwnProperty. by rewrite Harr, Hold. }
  rewrite Hobj1, Hown in Hstore. cbn [negb] in Hstore.
  assert (Hmem2 : get_set s st2 = get_set s st ++ [Some r]).
  { rewrite <- Hmem. destruct (decide (s = next_set st1)) as [-> | Hn]; [done |].
    by apply Hsets2. }
  (* the publication *)
  set (st3 := log (EvPublish (Some s)) st2).
  assert (Hobj3 : get_obj l st3 = write_own prop value (get_obj l st)).
  { unfold st3. change (get_obj l (log ?ev ?st')) with (get_obj l st'). rewrite Hobj2.
    by destruct (get_obj l st). }
  destruct (invoke_reader (S f) r l prop s st3)
    as (st4 & Hinv4 & Hset4 & Hobjs4 & Htr4 & Hb4 & Hre4).
  { unfold st3. simpl. rewrite Hre2, Hre1. unfold st0. simpl.
    by rewrite lookup_insert_eq. }
  { by rewrite Hobj3. }
  { by rewrite Hobj3. }
  { by rewrite Hobj3. }
  assert (Hread3 : read_own (get_obj l st3) prop = value).
  { rewrite Hobj3. unfold read_own, write_own. simpl. rewrite Harr. simpl.
    by rewrite lookup_assign_prop, decide_True. }
  assert (Hloop : publish_loop (invoke (S (S f))) (S f) s 0 st3 = Done tt st4).
  { set (len := length (get_set s st)) in *.
    change (invoke (S (S f)) r st3 = Done tt st4) in Hinv4.
    set (call := invoke (S (S f))) in *.
    replace (S f) with (len + S (S (f - len - 1))) by lia.
    rewrite publish_loop_tombstones.
    2: { intros j Hj. change (get_set s st3) with (get_set s st2).
         rewrite Hmem2. unfold JSSet.t. rewrite lookup_app_l by (unfold len in Hj; lia).
         destruct (lookup_lt_is_Some_2 (get_set s st) j) as [[r' |] Hj'];
           [unfold len in Hj; lia | | done].
         destruct (Hempty r'). by eapply list_elem_of_lookup_2. }
    cbn [Nat.add publish_loop].
    change (get_set s st3) with (get_set s st2).
    rewrite Hmem2. unfold JSSet.t. rewrite lookup_app_r by (unfold len; lia).
    replace (len - length (get_set s st)) with 0 by (unfold len; lia).
    cbn [lookup list_lookup]. unfold bind at 1.
    rewrite Hinv4, Hset4. change (get_set s st3) with (get_set s st2). rewrite Hmem2.
    rewrite JSSetFacts.add_has.
    2: { unfold JSSet.has. apply bool_decide_eq_true_2.
         apply elem_of_app. right. by apply list_elem_of_singleton. }
    unfold JSSet.t. rewrite lookup_ge_None_2; [done |].
    rewrite length_app. simpl. unfold len. lia. }
  exists st4. split; [| split; [| split]].
  - unfold run. cbn [exec]. unfold bind at 1. unfold alloc.
    change (new_reaction t e st) with (r, st0). cbv iota beta.
    unfold bind at 1.
    change (invoke (S (S f)) r st0 = Done tt st1) in Hinv1. rewrite Hinv1.
    unfold bind at 1. unfold set_property. rewrite Hobj1, Hprox.
    rewrite proxy_set_unfold. unfold bind at 1. unfold gets at 1.
    rewrite Hobj1, Hread, Hne. change (negb false) with true. cbv iota.
    unfold bind at 1. rewrite Hstore.
    unfold bind at 1. unfold gets at 1.
    replace (PROPERTY_REACTIONS (get_obj l st2) !! prop) with (Some s).
    2: { rewrite Hobj2. unfold write_own. simpl. done. }
    unfold publish. unfold bind at 1. unfold modify at 1.
    fold st3. change (currentActionReactionSets st3) with (currentActionReactionSets st2).
    rewrite Hb2, Hb1. change (currentActionReactionSets st0) with (currentActionReactionSets st).
    rewrite Hb, Hloop. reflexivity.
  - rewrite Htr4, Hread3. unfold st3. simpl. rewrite Htr2, Htr1.
    change (get_obj l st0) with (get_obj l st). rewrite Hread.
    change (trace st0) with (trace st). by rewrite <- !app_assoc.
  - unfold get_obj in *. by rewrite Hobjs4.
  - rewrite Hset4. apply JSSetFacts.elem_of_add_same.
Qed.

Lemma write_runs_the_reaction_that_read_witness :
  ∃ st',
    run 3 (Reaction (GetProp (VRef 1) "x" Ret) (λ _, Ret VUndef)
             (λ _, SetProp (VRef 1) "x" (VNum 5) (Ret VUndef))) counter_state
    = Done VUndef st'
    ∧ trace st'
      = trace counter_state
        ++ [EvEffect (next_reaction counter_state) (VNum 0); EvPublish (Some 0);
            EvEffect (next_reaction counter_state) (VNum 5)]
    ∧ read_own (get_obj 1 st') "x" = VNum 5
    ∧ Some (next_reaction counter_state) ∈ get_set 0 st'.
Proof.
  apply (write_runs_the_reaction_that_read 3 1 "x" 0 (VNum 0) (VNum 5) counter_state).
  - reflexivity.
  - reflexivity.
  - split; vm_compute; reflexivity.
  - apply (bool_decide_unpack ("x" ∉ Object_prototype_names)). vm_compute. exact I.
  - reflexivity.
  - reflexivity.
  - intros r. vm_compute. intros H. inversion H.
  - reflexivity.
  - reflexivity.
  - reflexivity.
  - vm_compute. lia.
Defined.


(** ** [dispose] after runs that did not dispose *)

Section Recorded.
Variable r0 : RId.

Lemma recorded_fields (st st' : State) :
  next_reaction st' = next_reaction st →
  sets st' = sets st →
  currentlyTracking st' = currentlyTracking st →
  reactionSubscriptionSets st' = reactionSubscriptionSets st →
  reactions st' = reactions st →
  recorded r0 st → recorded r0 st'.
Proof.
  intros Hn Hs Hf Hsub Hre (Hlt & HJ & HF & Hcl).
  split; [lia |]. split; [| split].
  - intros s. unfold get_set. rewrite Hs, Hsub. apply HJ.
  - intros fr. rewrite Hf, Hsub. apply HF.
  - intros r t e. rewrite Hre. apply Hcl.
Qed.

Lemma recorded_track (st : State) (s : SetRef) :
  recorded r0 st → recorded r0 (track s st).
Proof.
  intros (Hlt & HJ & HF & Hcl).
  destruct (track_fields s st) as (Hs & Hn & _ & _).
  split; [lia |].
  unfold track in *. destruct (currentlyTracking st) as [fr |] eqn:Hfr; [| done].
  split; [| split; [| done]].
  - intros s' Hin. destruct (HJ s' Hin) as (rec & Hrec & Hs').
    simpl. destruct (decide (trackedFunction fr = r0)) as [-> | Hne].
    + rewrite lookup_alter_eq, Hrec. simpl. eexists. split; [done |].
      by apply JSSetFacts.elem_of_add_mono.
    + rewrite lookup_alter_ne by done. eauto.
  - intros fr'. simpl. intros [= <-]. simpl. intros Heq.
    destruct (HF fr Hfr Heq) as (rec & Hrec & Hall).
    rewrite Heq, lookup_alter_eq, Hrec. simpl. eexists. split; [done |].
    intros s' [-> | Hin]%JSSetFacts.elem_of_add.
    + apply JSSetFacts.elem_of_add_same.
    + by apply JSSetFacts.elem_of_add_mono, Hall.
Qed.

Lemma recorded_new_set (st : State) : recorded r0 st → recorded r0 (new_set st).2.
Proof.
  intros (Hlt & HJ & HF & Hcl). split; [done |]. split; [| done].
  intros s. unfold get_set. simpl.
  destruct (decide (s = next_set st)) as [-> | Hne].
  - rewrite lookup_insert_eq. simpl. by intros ?%elem_of_nil.
  - rewrite lookup_insert_ne by done. apply HJ.
Qed.

Lemma recorded_new_reaction (st : State) (t : Prog) (e : Value → Prog) :
  recorded r0 st → never_disposes r0 t → (∀ v, never_disposes r0 (e v)) →
  recorded r0 (new_reaction t e st).2.
Proof.
  intros (Hlt & HJ & HF & Hcl) Ht He. split; [simpl; lia |].
  split; [done |]. split; [done |].
  intros r t' e'. simpl. destruct (decide (r = next_reaction st)) as [-> | Hne].
  - rewrite lookup_insert_eq. by intros [= <- <-].
  - rewrite lookup_insert_ne by done. apply Hcl.
Qed.

Lemma recorded_dispose (st : State) (r : RId) :
  r ≠ r0 → recorded r0 st → recorded r0 (dispose r st).
Proof.
  intros Hne (Hlt & HJ & HF & Hcl).
  destruct (dispose_fields r st) as (Hn & _ & Hf & _ & Hre).
  split; [lia |]. split; [| split].
  - intros s Hin. rewrite subscriptions_dispose, decide_False by done.
    apply HJ. destruct (get_set_dispose r s st) as [Heq | Heq]; rewrite Heq in Hin; [done |].
    by apply JSSetFacts.elem_of_delete in Hin as [_ ?].
  - intros fr. rewrite Hf, subscriptions_dispose, decide_False by done. apply HF.
  - intros r' t e. rewrite Hre. apply Hcl.
Qed.

Lemma recorded_beginTracking (st : State) (r : RId) :
  recorded r0 st → recorded r0 (beginTracking r st).
Proof.
  intros (Hlt & HJ & HF & Hcl).
  destruct (beginTracking_frame r st) as (Hfr & Hs & _ & _ & Hn & Hre).
  split; [lia |]. split; [| split].
  - intros s. unfold get_set. rewrite Hs. intros Hin.
    destruct (HJ s Hin) as (rec & Hrec & Hs').
    rewrite subscriptions_beginTracking. case_decide as Hr; [| eauto].
    subst r. rewrite Hrec. eauto.
  - intros fr. rewrite Hfr. intros [= <-]. simpl. intros ->.
    rewrite subscriptions_beginTracking, decide_True by done.
    eexists. split; [done |]. by intros s ?%elem_of_nil.
  - intros r' t e. rewrite Hre. apply Hcl.
Qed.

Lemma recorded_completeTracking (st : State) :
  recorded r0 st → recorded r0 (completeTracking st).
Proof.
  intros (Hlt & HJ & HF & Hcl).
  destruct (completeTracking_fields st) as (Hn & _ & _ & Hre).
  split; [lia |]. split; [| split].
  - intros s. rewrite get_set_completeTracking, subscriptions_completeTracking.
    destruct (currentlyTracking st) as [fr |] eqn:Hfr; [| apply HJ].
    case_bool_decide as Hs; [| apply HJ].
    intros [Heq | Hin]%JSSetFacts.elem_of_add; [| by apply HJ].
    destruct (HF fr Hfr (eq_sym Heq)) as (rec & Hrec & Hall). eauto.
  - intros fr. unfold completeTracking.
    destruct (currentlyTracking st) eqn:Hc; simpl; [done |]. by rewrite Hc.
  - intros r t e. rewrite Hre. apply Hcl.
Qed.
End Recorded.

(** A property of states that user code keeps as long as it does not
    dispose [r0], given that the state changes of the runtime keep it. *)
Section Undisposed.
Variable r0 : RId.
Variable Inv : State → Prop.

Hypothesis Inv_lt : ∀ st, Inv st → r0 < next_reaction st.
Hypothesis Inv_closures : ∀ st r t e,
  Inv st → reactions st !! r = Some (t, e) →
  never_disposes r0 t ∧ ∀ v, never_disposes r0 (e v).
Hypothesis Inv_log : ∀ st ev, Inv st → Inv (log ev st).
Hypothesis Inv_action : ∀ st b, Inv st → Inv (with_action b st).
Hypothesis Inv_track : ∀ st s, Inv st → Inv (track s st).
Hypothesis Inv_objs : ∀ st f, Inv st → Inv (with_objs f st).
Hypothesis Inv_new_set : ∀ st, Inv st → Inv (new_set st).2.
Hypothesis Inv_new_obj : ∀ st o, Inv st → Inv (new_obj o st).2.
Hypothesis Inv_new_reaction : ∀ st t e,
  Inv st → never_disposes r0 t → (∀ v, never_disposes r0 (e v)) →
  Inv (new_reaction t e st).2.
Hypothesis Inv_dispose : ∀ st r, r ≠ r0 → Inv st → Inv (dispose r st).
Hypothesis Inv_beginTracking : ∀ st r, Inv st → Inv (beginTracking r st).
Hypothesis Inv_completeTracking : ∀ st, Inv st → Inv (completeTracking st).

Lemma exec_undisposed (call : RId → M unit) (fuel : nat) (p : Prog) :
  (∀ r st, Inv st → holds_after Inv (call r st)) →
  never_disposes r0 p →
  preserves Inv (exec call fuel p).
Proof.
  intros Hcall.
  assert (Hlog : ∀ st s, Inv st → Inv (log (EvPublish s) st)) by auto.
  assert (Hbatch : ∀ st b, Inv st → currentActionReactionSets st ≠ None →
                           Inv (with_action (Some b) st)) by auto.
  assert (Hpub : (∀ st, Inv st → currentActionReactionSets st ≠ None)
                 ∨ (∀ st s (r : RId), Inv st → Some r ∈ get_set s st →
                      ∀ st', Inv st' → (λ (_ : RId) (_ : State), True) r st')).
  { by right. }
  assert (Hcall' : ∀ r st, (λ (_ : RId) (_ : State), True) r st → Inv st →
                           holds_after Inv (call r st)).
  { intros r st _. apply Hcall. }
  induction p as [v | v | arr ps k IH | v k IH | o prop k IH | o prop v k IH
                 | o k IH | o m k IH | t IHt e IHe k IH | fn IHfn k IH | r k IH];
    simpl; intros Hp.
  - apply preserves_ret.
  - apply preserves_throw.
  - apply preserves_bind; [apply preserves_alloc; auto |]. intros l. by apply IH.
  - apply preserves_bind; [| intros w; by apply IH].
    apply (observable_preserves _ _ call Hlog Hbatch Inv_track Inv_objs
             Inv_new_set Inv_new_obj Hpub Hcall').
  - apply preserves_bind; [| intros w; by apply IH].
    apply (get_property_preserves _ Inv_track).
  - apply preserves_bind; [| intros _; by apply IH].
    apply (set_property_preserves _ _ call Hlog Hbatch Inv_track Inv_objs
             Inv_new_set Inv_new_obj Hpub Hcall').
  - apply preserves_bind; [apply object_keys_preserves |]. intros ks. by apply IH.
  - apply preserves_bind; [| intros w; by apply IH].
    apply (call_method_preserves _ _ call Hlog Hbatch Inv_track Inv_objs Hpub Hcall').
  - destruct Hp as (Ht & He & Hk).
    intros st HI. unfold bind at 1. unfold alloc.
    pose proof (Inv_new_reaction st t e HI Ht He) as HI'. simpl.
    unfold bind at 1. pose proof (Hcall (next_reaction st) _ HI') as Hres.
    destruct (call _ _) as [[] st' | |]; [| done | done].
    apply IH; [| done]. apply Hk. specialize (Inv_lt st HI). lia.
  - destruct Hp as (Hfn & Hk).
    apply preserves_bind.
    { apply preserves_modify. intros st. apply Inv_action. }
    intros _. apply preserves_bind; [by apply IHfn |]. intros _.
    apply preserves_bind; [| intros _; by apply IH].
    apply (completeAction_preserves _ (λ _ _, True) True call Hbatch);
      [| exact Hpub | exact Hcall' | done].
    intros _ st. apply Inv_action.
  - destruct Hp as (Hne & Hk).
    apply preserves_bind; [| intros _; by apply IH].
    apply preserves_modify. intros st. by apply Inv_dispose.
Qed.

Lemma invoke_undisposed (n : nat) :
  ∀ (r : RId) (st : State), Inv st → holds_after Inv (invoke n r st).
Proof.
  induction n as [| n IH]; intros r st HI; [done |].
  cbn [invoke]. unfold reactionFn. unfold bind at 1. unfold gets.
  destruct (reactions st !! r) as [[trackedFn effectFn] |] eqn:Hcl; [| done].
  destruct (Inv_closures st r _ _ HI Hcl) as [Ht He]. clear Hcl.
  revert st HI.
  change (preserves Inv
    (modify (beginTracking r);;
     let! result := exec (invoke n) n trackedFn in
     modify completeTracking;;
     modify (log (EvEffect r result));;
     exec (invoke n) n (effectFn result);; ret tt)).
  apply preserves_bind.
  { apply preserves_modify. intros st. apply Inv_beginTracking. }
  intros _. apply preserves_bind; [by apply exec_undisposed |]. intros result.
  apply preserves_bind.
  { apply preserves_modify. apply Inv_completeTracking. }
  intros _. apply preserves_bind.
  { apply preserves_modify. intros st. apply Inv_log. }
  intros _. apply preserves_bind; [by apply exec_undisposed |].
  intros _. apply preserves_ret.
Qed.

Lemma run_undisposed (n : nat) (p : Prog) :
  never_disposes r0 p → preserves Inv (run n p).
Proof. intros Hp. unfold run. apply exec_undisposed; [apply invoke_undisposed | done]. Qed.
End Undisposed.

Lemma invoke_recorded (r0 : RId) (n : nat) (r : RId) (st : State) :
  recorded r0 st → holds_after (recorded r0) (invoke n r st).
Proof.
  apply (invoke_undisposed r0 (recorded r0)).
  - by intros st' [? _].
  - intros st' r' t e (_ & _ & _ & Hcl). apply Hcl.
  - intros st' ev. by apply recorded_fields.
  - intros st' b. by apply recorded_fields.
  - apply recorded_track.
  - intros st' f. by apply recorded_fields.
  - apply recorded_new_set.
  - intros st' o. by apply recorded_fields.
  - apply recorded_new_reaction.
  - intros st' r' Hne. by apply recorded_dispose.
  - intros st' r'. apply recorded_beginTracking.
  - apply recorded_completeTracking.
Qed.

Lemma run_recorded (r0 : RId) (n : nat) (p : Prog) :
  never_disposes r0 p → preserves (recorded r0) (run n p).
Proof.
  apply (run_undisposed r0 (recorded r0)).
  - by intros st' [? _].
  - intros st' r' t e (_ & _ & _ & Hcl). apply Hcl.
  - intros st' ev. by apply recorded_fields.
  - intros st' b. by apply recorded_fields.
  - apply recorded_track.
  - intros st' f. by apply recorded_fields.
  - apply recorded_new_set.
  - intros st' o. by apply recorded_fields.
  - apply recorded_new_reaction.
  - intros st' r' Hne. by apply recorded_dispose.
  - intros st' r'. apply recorded_beginTracking.
  - apply recorded_completeTracking.
Qed.

(** X18.  [dispose] silences a reaction that nothing has disposed before.
    Take the reaction created by [reaction(trackedFn, effectFn)] and let
    the program run on; as long as no code that runs calls [dispose] on
    this reaction, every reaction-set it has joined is in its record.  So
    when the program has returned or thrown, [dispose] takes the reaction
    out of every reaction-set, and whatever runs afterwards, with any
    fuel, does not call its effect function again. *)
Theorem dispose_silences_undisposed_reaction
    (n : nat) (trackedFn : Prog) (effectFn : Value → Prog) (k : RId → Prog)
    (st : State) :
  unsubscribed (next_reaction st) st →
  not_tracking (next_reaction st) st →
  (∀ r t e, reactions st !! r = Some (t, e) →
            never_disposes (next_reaction st) t
            ∧ ∀ v, never_disposes (next_reaction st) (e v)) →
  never_disposes (next_reaction st) trackedFn →
  (∀ v, never_disposes (next_reaction st) (effectFn v)) →
  never_disposes (next_reaction st) (k (next_reaction st)) →
  holds_after
    (λ st1,
       unsubscribed (next_reaction st) (dispose (next_reaction st) st1)
       ∧ ∀ m q,
           holds_after
             (silent (next_reaction st) (effects_of (next_reaction st) (trace st1)) false)
             (run m q (dispose (next_reaction st) st1)))
    (run n (Reaction trackedFn effectFn k) st).
Proof.
  intros Hun Hnt Hcl Ht He Hk. set (r0 := next_reaction st) in *.
  apply (holds_after_impl (recorded r0)).
  { intros st1 (Hlt & HJ & _). by apply dispose_silences. }
  assert (HR : recorded r0 (new_reaction trackedFn effectFn st).2).
  { split; [simpl; unfold r0; lia |]. split; [| split].
    - intros s Hin. by destruct (Hun s).
    - intros fr Hfr Heq. by destruct (Hnt fr Hfr).
    - intros r t e. simpl. destruct (decide (r = next_reaction st)) as [-> | Hne].
      + rewrite lookup_insert_eq. by intros [= <- <-].
      + rewrite lookup_insert_ne by done. apply Hcl. }
  unfold run. cbn [exec]. unfold bind at 1. unfold alloc.
  change (new_reaction trackedFn effectFn st)
    with (r0, (new_reaction trackedFn effectFn st).2).
  cbv iota beta. unfold bind at 1.
  pose proof (invoke_recorded r0 n r0 _ HR) as Hres.
  destruct (invoke n r0 _) as [[] st' | |]; [| done | done].
  apply (run_recorded r0 n (k r0) Hk st' Hres).
Qed.

Lemma dispose_silences_undisposed_reaction_witness :
  returns (run 5 (Reaction (GetProp (VRef 1) "x" Ret) (λ _, Ret VUndef)
                    (λ _, SetProp (VRef 1) "x" (VNum 1) (Ret VUndef))) counter_state)
  = true
  ∧ holds_after
      (λ st1,
         unsubscribed (next_reaction counter_state)
           (dispose (next_reaction counter_state) st1)
         ∧ ∀ m q,
             holds_after
               (silent (next_reaction counter_state)
                  (effects_of (next_reaction counter_state) (trace st1)) false)
               (run m q (dispose (next_reaction counter_state) st1)))
      (run 5 (Reaction (GetProp (VRef 1) "x" Ret) (λ _, Ret VUndef)
                (λ _, SetProp (VRef 1) "x" (VNum 1) (Ret VUndef))) counter_state).
Proof.
  split; [vm_compute; reflexivity |].
  apply (dispose_silences_undisposed_reaction 5 (GetProp (VRef 1) "x" Ret)
           (λ _, Ret VUndef) (λ _, SetProp (VRef 1) "x" (VNum 1) (Ret VUndef))
           counter_state).
  - apply unsubscribed_decide. vm_compute. reflexivity.
  - intros fr Hfr. vm_compute in Hfr. discriminate.
  - intros r t e Hr.
    assert (Hempty : reactions counter_state = ∅) by (vm_compute; reflexivity).
    rewrite Hempty, lookup_empty in Hr. discriminate.
  - simpl. done.
  - intros v. exact I.
  - simpl. done.
Defined.

Lemma next_set_dispose (r : RId) (st : State) : next_set (dispose r st) = next_set st.
Proof.
  unfold dispose. destruct (reactionSubscriptionSets st !! r) as [rec |]; [| done].
  simpl. generalize (JSSet.elements rec). intros l. revert st.
  induction l as [| s l IH]; intros st; simpl; [done |]. by rewrite IH.
Qed.

Lemma next_set_completeTracking (st : State) :
  next_set (completeTracking st) = next_set st.
Proof.
  unfold completeTracking. destruct (currentlyTracking st) as [fr |]; [| done].
  simpl. generalize (JSSet.elements (reactionSets fr)). intros l. revert st.
  induction l as [| s l IH]; intros st; simpl; [done |]. by rewrite IH.
Qed.

(** X19.  A subscription lasts until [dispose].  Once a reaction is a
    member of a reaction-set, no run of any code takes it out as long as
    nothing calls [dispose] on it: not a run of its tracked function that
    no longer reads the field, not a write, not an action. *)
Theorem subscription_lasts_until_dispose
    (n : nat) (p : Prog) (r0 : RId) (s : SetRef) (st : State) :
  subscribed r0 s st →
  never_disposes r0 p →
  holds_after (λ st', Some r0 ∈ get_set s st') (run n p st).
Proof.
  intros HS Hp. apply (holds_after_impl (subscribed r0 s)).
  { by intros st' (_ & _ & ? & _). }
  revert st HS. apply (run_undisposed r0 (subscribed r0 s)); [.. | done].
  - by intros st [? _].
  - intros st r t e (_ & _ & _ & Hcl). apply Hcl.
  - by intros st ev.
  - by intros st b.
  - intros st s' (Hlt & Hs & Hin & Hcl).
    destruct (track_fields s' st) as (Hsets & Hn & _).
    split; [lia |]. split; [| split].
    + unfold track. by destruct (currentlyTracking st).
    + unfold get_set. by rewrite Hsets.
    + intros r t e. rewrite track_reactions. apply Hcl.
  - by intros st f.
  - intros st (Hlt & Hs & Hin & Hcl). split; [done |]. split; [simpl; lia |].
    split; [| done]. unfold get_set. simpl. by rewrite lookup_insert_ne by lia.
  - by intros st o.
  - intros st t e (Hlt & Hs & Hin & Hcl) Ht He. split; [simpl; lia |].
    split; [done |]. split; [done |].
    intros r t' e'. simpl. destruct (decide (r = next_reaction st)) as [-> | Hne].
    + rewrite lookup_insert_eq. by intros [= <- <-].
    + rewrite lookup_insert_ne by done. apply Hcl.
  - intros st r Hne (Hlt & Hs & Hin & Hcl).
    destruct (dispose_fields r st) as (Hn & _ & _ & _ & Hre).
    split; [lia |]. split; [| split].
    + by rewrite next_set_dispose.
    + destruct (get_set_dispose r s st) as [-> | ->]; [done |].
      apply JSSetFacts.elem_of_delete. by split.
    + intros r' t e. rewrite Hre. apply Hcl.
  - intros st r (Hlt & Hs & Hin & Hcl).
    destruct (beginTracking_frame r st) as (_ & Hsets & _ & _ & Hn & Hre).
    split; [lia |]. split; [| split].
    + unfold beginTracking. by case_bool_decide.
    + unfold get_set. by rewrite Hsets.
    + intros r' t e. rewrite Hre. apply Hcl.
  - intros st (Hlt & Hs & Hin & Hcl).
    destruct (completeTracking_fields st) as (Hn & _ & _ & Hre).
    split; [lia |]. split; [| split].
    + by rewrite next_set_completeTracking.
    + rewrite get_set_completeTracking. destruct (currentlyTracking st) as [fr |]; [| done].
      case_bool_decide; [| done]. by apply JSSetFacts.elem_of_add_mono.
    + intros r t e. rewrite Hre. apply Hcl.
Qed.

Lemma subscription_lasts_until_dispose_witness :
  returns (run 10 (SetProp (VRef 1) "x" (VNum 5) (Ret VUndef)) counter_watched) = true
  ∧ holds_after (λ st', Some 0 ∈ get_set 0 st')
      (run 10 (SetProp (VRef 1) "x" (VNum 5) (Ret VUndef)) counter_watched).
Proof.
  split; [vm_compute; reflexivity |].
  apply (subscription_lasts_until_dispose 10 _ 0 0 counter_watched).
  - split; [vm_compute; lia |]. split; [vm_compute; lia |].
    split; [vm_compute; by left |].
    intros r t e Hr.
    apply (map_Forall_to_list
             (λ _ (te : Prog * (Value → Prog)),
                never_disposes 0 te.1 ∧ ∀ v, never_disposes 0 (te.2 v))
             (reactions counter_watched)) in Hr; [exact Hr |].
    set (l := map_to_list (reactions counter_watched)). vm_compute in l. subst l.
    repeat constructor.
  - simpl. done.
Defined.


(** ** A computed over a field *)

(** The [set] trap on a proxy without parent reaction-set, outside an
    action, for a value that is not an object and a field whose
    reaction-set, if it has one, is empty: the value is stored and no
    reaction runs. *)
Lemma proxy_set_root_quiet
    (call : RId → M unit) (fuel : nat) (l : Loc) (prop : string) (value : Value)
    (st : State) :
  is_array (get_obj l st) = false →
  PARENT_REACTIONS (get_obj l st) = None →
  hasOwnProperty (get_obj l st) "hasOwnProperty" = false →
  prop ≠ "hasOwnProperty" →
  is_object value = false →
  currentActionReactionSets st = None →
  (∀ c, PROPERTY_REACTIONS (get_obj l st) !! prop = Some c → get_set c st = []) →
  ∃ st',
    proxy_set call (S (S fuel)) l prop value st = Done tt st'
    ∧ read_own (get_obj l st') prop = value
    ∧ hasOwnProperty (get_obj l st') "hasOwnProperty" = false
    ∧ is_array (get_obj l st') = false
    ∧ proxied (get_obj l st') = proxied (get_obj l st)
    ∧ PARENT_REACTIONS (get_obj l st') = None
    ∧ (∀ c, PROPERTY_REACTIONS (get_obj l st') !! prop = Some c →
            get_set c st' = []
            ∧ (PROPERTY_REACTIONS (get_obj l st) !! prop = Some c ∨ next_set st ≤ c))
    ∧ (∀ l', l' ≠ l → get_obj l' st' = get_obj l' st)
    ∧ (∀ s, s < next_set st → get_set s st' = get_set s st)
    ∧ next_set st ≤ next_set st'
    ∧ (∀ r, effects_of r (trace st') = effects_of r (trace st))
    ∧ currentActionReactionSets st' = None
    ∧ currentlyTracking st' = currentlyTracking st
    ∧ reactions st' = reactions st
    ∧ next_reaction st' = next_reaction st
    ∧ next_loc st' = next_loc st.
Proof.
  intros Harr Hpar Hhop Hprop Hv Hb Hquiet. rewrite proxy_set_unfold.
  unfold bind at 1. unfold gets at 1.
  destruct (strict_eq (read_own (get_obj l st) prop) value) eqn:Heq.
  - exists st. split; [done |]. split; [by apply strict_eq_eq |].
    repeat split; try done.
    + by apply Hquiet.
    + by left.
  - change (negb false) with true. cbv beta iota. unfold bind at 1.
    destruct (store_observable_primitive_heap call fuel l prop value st Hhop Hv)
      as (st1 & -> & Hobj & Hothers & Hsets & Hnew & Htr & Hb1 & Hfr & _ & Hre & Hnr & Hnl
          & Hns).
    assert (Hread : read_own (get_obj l st1) prop = value).
    { rewrite Hobj. unfold read_own, write_own. simpl. rewrite Harr. simpl.
      by rewrite lookup_assign_prop, decide_True. }
    assert (Hhop1 : hasOwnProperty (get_obj l st1) "hasOwnProperty" = false).
    { rewrite Hobj. unfold hasOwnProperty, write_own in *. simpl. rewrite Harr in *.
      simpl in *. by rewrite lookup_assign_prop, decide_False. }
    assert (Hhandle : PROPERTY_REACTIONS (get_obj l st1) !! prop
              = Some (default (next_set st) (PROPERTY_REACTIONS (get_obj l st) !! prop))).
    { rewrite Hobj. unfold write_own. simpl. by rewrite lookup_insert_eq. }
    assert (Hquiet1 : ∀ c, PROPERTY_REACTIONS (get_obj l st1) !! prop = Some c →
              get_set c st1 = []
              ∧ (PROPERTY_REACTIONS (get_obj l st) !! prop = Some c ∨ next_set st ≤ c)).
    { intros c. rewrite Hhandle. intros [= <-].
      destruct (PROPERTY_REACTIONS (get_obj l st) !! prop) as [c |] eqn:Hc; simpl.
      - split; [| by left]. rewrite <- (Hquiet c eq_refl).
        destruct (decide (c = next_set st)) as [-> | Hne]; [done | by apply Hsets].
      - split; [done | right; lia]. }
    assert (Hfinal : ∀ st',
      objs st' = objs st1 → sets st' = sets st1 → next_set st' = next_set st1 →
      (∀ r, effects_of r (trace st') = effects_of r (trace st1)) →
      currentActionReactionSets st' = None →
      currentlyTracking st' = currentlyTracking st1 →
      reactions st' = reactions st1 → next_reaction st' = next_reaction st1 →
      next_loc st' = next_loc st1 →
      read_own (get_obj l st') prop = value
      ∧ hasOwnProperty (get_obj l st') "hasOwnProperty" = false
      ∧ is_array (get_obj l st') = false
      ∧ proxied (get_obj l st') = proxied (get_obj l st)
      ∧ PARENT_REACTIONS (get_obj l st') = None
      ∧ (∀ c, PROPERTY_REACTIONS (get_obj l st') !! prop = Some c →
              get_set c st' = []
              ∧ (PROPERTY_REACTIONS (get_obj l st) !! prop = Some c ∨ next_set st ≤ c))
      ∧ (∀ l', l' ≠ l → get_obj l' st' = get_obj l' st)
      ∧ (∀ s, s < next_set st → get_set s st' = get_set s st)
      ∧ next_set st ≤ next_set st'
      ∧ (∀ r, effects_of r (trace st') = effects_of r (trace st))
      ∧ currentActionReactionSets st' = None
      ∧ currentlyTracking st' = currentlyTracking st
      ∧ reactions st' = reactions st
      ∧ next_reaction st' = next_reaction st
      ∧ next_loc st' = next_loc st).
    { intros st' Ho Hs Hn Heff Hb' Hfr' Hre' Hnr' Hnl'.
      assert (Hget : ∀ l', get_obj l' st' = get_obj l' st1).
      { intros l'. unfold get_obj. by rewrite Ho. }
      assert (Hgs : ∀ s, get_set s st' = get_set s st1).
      { intros s. unfold get_set. by rewrite Hs. }
      rewrite !Hget.
      split; [done |]. split; [done |].
      split; [by rewrite Hobj |]. split; [by rewrite Hobj |].
      split; [by rewrite Hobj |].
      split; [intros c Hc; rewrite Hgs; by apply Hquiet1 |].
      split; [intros l' Hl'; rewrite Hget; by apply Hothers |].
      split; [intros s Hs'; rewrite Hgs; apply Hsets; lia |].
      split; [lia |].
      split; [intros r; by rewrite Heff, Htr |].
      repeat split; congruence. }
    destruct (hasOwnProperty (get_obj l st) prop); cbn [negb].
    + unfold bind at 1. unfold gets at 1. rewrite Hhandle.
      unfold publish. unfold bind at 1. unfold modify at 1.
      change (currentActionReactionSets (log ?e st1)) with (currentActionReactionSets st1).
      rewrite Hb1, Hb. cbn [publish_loop].
      change (get_set ?s (log ?e st1)) with (get_set s st1).
      rewrite (proj1 (Hquiet1 _ Hhandle)). simpl.
      eexists. split; [reflexivity |].
      apply Hfinal; try done.
      * intros r. apply effects_of_log_publish.
      * simpl. congruence.
    + unfold bind at 1. unfold gets at 1.
      replace (PARENT_REACTIONS (get_obj l st1)) with (@None SetRef)
        by (rewrite Hobj; simpl; congruence).
      eexists. split; [reflexivity |]. apply Hfinal; try done. congruence.
Qed.

(** The state after a tracked function that read one field has
    completed. *)
Lemma tracked_read_state (r : RId) (s : SetRef) (st : State) :
  objs (completeTracking (track s (beginTracking r st))) = objs st
  ∧ (∀ s0, get_set s0 (completeTracking (track s (beginTracking r st)))
           = if decide (s0 = s) then JSSet.add r (get_set s0 st) else get_set s0 st)
  ∧ trace (completeTracking (track s (beginTracking r st))) = trace st
  ∧ currentActionReactionSets (completeTracking (track s (beginTracking r st)))
    = currentActionReactionSets st
  ∧ currentlyTracking (completeTracking (track s (beginTracking r st))) = None
  ∧ reactions (completeTracking (track s (beginTracking r st))) = reactions st
  ∧ next_set (completeTracking (track s (beginTracking r st))) = next_set st
  ∧ next_loc (completeTracking (track s (beginTracking r st))) = next_loc st.
Proof.
  destruct (beginTracking_frame r st) as (Hfr1 & Hsets1 & Hb1 & Htr1 & _ & Hre1).
  destruct (track_fields s (beginTracking r st)) as (Hsets2 & _ & Htr2 & _).
  destruct (completeTracking_fields (track s (beginTracking r st)))
    as (_ & Htr3 & Hb3 & Hre3).
  assert (Hfr : currentlyTracking (track s (beginTracking r st))
                = Some (mkFrame r [Some s])) by apply frame_track_beginTracking.
  split.
  { rewrite completeTracking_objs, objs_track. unfold beginTracking.
    by case_bool_decide. }
  split.
  { intros s0. rewrite get_set_completeTracking, Hfr. simpl.
    replace (get_set s0 (track s (beginTracking r st))) with (get_set s0 st)
      by (unfold get_set; by rewrite Hsets2, Hsets1).
    case_decide as Hs0.
    - subst. by rewrite bool_decide_eq_true_2 by by apply list_elem_of_singleton.
    - rewrite bool_decide_eq_false_2; [done |].
      intros [= ->]%list_elem_of_singleton. done. }
  split; [by rewrite Htr3, Htr2, Htr1 |].
  split; [by rewrite Hb3, action_track, Hb1 |].
  split; [unfold completeTracking; by rewrite Hfr |].
  split; [by rewrite Hre3, track_reactions, Hre1 |].
  split.
  - rewrite next_set_completeTracking. unfold track.
    destruct (currentlyTracking (beginTracking r st)); simpl;
      unfold beginTracking; by case_bool_decide.
  - unfold completeTracking. rewrite Hfr. simpl.
    unfold track. rewrite Hfr1. simpl. unfold beginTracking. by case_bool_decide.
Qed.

(** One run of the reaction function of [computed(() => obj[prop])], whose
    cache is the proxy at [cache]. *)
Lemma invoke_computed (n : nat) (r : RId) (l : Loc) (prop : string) (s : SetRef)
    (cache : Loc) (bound : SetRef) (st : State) :
  reactions st !! r
  = Some (GetProp (VRef l) prop Ret, λ val, SetProp (VRef cache) "value" val (Ret val)) →
  l ≠ cache →
  proxied (get_obj l st) = true →
  is_array (get_obj l st) = false →
  PROPERTY_REACTIONS (get_obj l st) !! prop = Some s →
  is_object (read_own (get_obj l st) prop) = false →
  s < bound → bound ≤ next_set st →
  quiet_cell cache bound st →
  currentActionReactionSets st = None →
  ∃ st',
    invoke (S (S (S n))) r st = Done tt st'
    ∧ get_set s st' = JSSet.add r (get_set s st)
    ∧ read_own (get_obj cache st') "value" = read_own (get_obj l st) prop
    ∧ get_obj l st' = get_obj l st
    ∧ quiet_cell cache bound st'
    ∧ effects_of r (trace st') = effects_of r (trace st) ++ [read_own (get_obj l st) prop]
    ∧ currentActionReactionSets st' = None
    ∧ currentlyTracking st' = None
    ∧ reactions st' = reactions st
    ∧ next_set st ≤ next_set st'
    ∧ next_loc st' = next_loc st.
Proof.
  intros Hcl Hne Hprox Harr Hs Hv Hsb Hbound (Hcprox & Hcarr & Hcpar & Hchop & Hquiet) Hb.
  set (cur := read_own (get_obj l st) prop) in *.
  change (invoke (S (S (S n))) r st)
    with (reactionFn (invoke (S (S n))) (S (S n)) r st).
  unfold reactionFn. unfold bind at 1. unfold gets at 1. rewrite Hcl.
  unfold bind at 1. unfold modify at 1.
  unfold bind at 1. cbn [exec]. unfold bind at 1.
  unfold get_property, read_property. rewrite get_obj_beginTracking, Hprox.
  unfold proxy_get. rewrite get_obj_beginTracking, Harr, Hs. cbn [andb].
  fold cur. unfold ret at 1. unfold bind at 1. unfold modify at 1.
  unfold bind at 1. unfold modify at 1.
  destruct (tracked_read_state r s st)
    as (Hobjs & Hsets & Htr & Hb1 & Hfr & Hre & Hns & Hnl).
  set (st1 := completeTracking (track s (beginTracking r st))) in *.
  set (st2 := log (EvEffect r cur) st1).
  assert (Hobj2 : ∀ l', get_obj l' st2 = get_obj l' st).
  { intros l'. unfold get_obj, st2. simpl. by rewrite Hobjs. }
  unfold bind at 1. cbn [exec]. unfold bind at 1.
  unfold set_property. rewrite Hobj2, Hcprox.
  destruct (proxy_set_root_quiet (invoke (S (S n))) n cache "value" cur st2)
    as (st3 & -> & Hread3 & Hhop3 & Harr3 & Hprox3 & Hpar3 & Hquiet3 & Hothers3 & Hsets3
        & Hns3 & Heff3 & Hb3 & Hfr3 & Hre3 & _ & Hnl3); try (by rewrite ?Hobj2).
  { unfold st2. simpl. congruence. }
  { intros c. rewrite Hobj2. intros Hc. destruct (Hquiet c Hc) as [Hempty Hge].
    unfold st2. change (get_set c (log ?e st1)) with (get_set c st1).
    rewrite Hsets, decide_False by lia. done. }
  exists st3. split; [done |].
  split.
  { rewrite Hsets3 by (unfold st2; simpl; lia).
    unfold st2. change (get_set s (log ?e st1)) with (get_set s st1).
    by rewrite Hsets, decide_True. }
  split; [done |].
  split; [by rewrite Hothers3, Hobj2 |].
  split.
  { split; [by rewrite Hprox3, Hobj2 |]. split; [done |]. split; [done |].
    split; [done |].
    intros c Hc. destruct (Hquiet3 c Hc) as [Hempty [Hold | Hnew]].
    - split; [done |]. rewrite Hobj2 in Hold. by apply Hquiet.
    - split; [done |]. unfold st2 in Hnew. simpl in Hnew. lia. }
  split.
  { rewrite Heff3. unfold st2. rewrite effects_of_log_same. by rewrite Htr. }
  split; [done |].
  split; [rewrite Hfr3; unfold st2; simpl; done |].
  split; [rewrite Hre3; unfold st2; simpl; done |].
  split; [unfold st2 in Hns3; simpl in Hns3; lia |].
  rewrite Hnl3. unfold st2. simpl. done.
Qed.

(** [publish] to a reaction-set whose only live member is [r], outside an
    action, when the run of [r] leaves the reaction-set as it is. *)
Lemma publish_to_single_member
    (call : RId → M unit) (fuel : nat) (s : SetRef) (r : RId)
    (pre : JSSet.t RId) (st st' : State) :
  get_set s st = pre ++ [Some r] →
  (∀ r', Some r' ∉ pre) →
  currentActionReactionSets st = None →
  call r (log (EvPublish (Some s)) st) = Done tt st' →
  get_set s st' = get_set s st →
  length pre + 2 ≤ fuel →
  publish call fuel (Some s) st = Done tt st'.
Proof.
  intros Hmem Hpre Hb Hcall Hsame Hfuel.
  unfold publish. unfold bind at 1. unfold modify at 1.
  change (currentActionReactionSets (log ?e st)) with (currentActionReactionSets st).
  rewrite Hb.
  replace fuel with (length pre + S (S (fuel - length pre - 2))) by lia.
  rewrite publish_loop_tombstones.
  2: { intros j Hj. change (get_set s (log ?e st)) with (get_set s st).
       rewrite Hmem. unfold JSSet.t. rewrite lookup_app_l by lia.
       destruct (lookup_lt_is_Some_2 pre j) as [[r' |] Hj']; [lia | | done].
       destruct (Hpre r'). by eapply list_elem_of_lookup_2. }
  cbn [Nat.add publish_loop].
  change (get_set s (log ?e st)) with (get_set s st).
  rewrite Hmem. unfold JSSet.t. rewrite lookup_app_r by lia.
  replace (length pre - length pre) with 0 by lia.
  cbn [lookup list_lookup]. unfold bind at 1. rewrite Hcall, Hsame, Hmem.
  unfold JSSet.t. rewrite lookup_ge_None_2; [done |].
  rewrite length_app. simpl. lia.
Qed.

(** [observable({value: undefined})], the cache of a computed: the write of
    [undefined] to the missing field does nothing, the proxy is empty. *)
Lemma observable_cache (call : RId → M unit) (fuel : nat) (st : State) :
  observable call (S (S (S (S fuel)))) (VRef (next_loc st)) None
    (new_obj (mkObj false [("value", VUndef)] false ∅ None) st).2
  = Done (VRef (S (next_loc st)))
      (new_obj (mkObj false [] true ∅ None)
         (new_obj (mkObj false [("value", VUndef)] false ∅ None) st).2).2.
Proof.
  set (st1 := (new_obj (mkObj false [("value", VUndef)] false ∅ None) st).2).
  assert (Hsrc : get_obj (next_loc st) st1 = mkObj false [("value", VUndef)] false ∅ None).
  { apply get_obj_new_obj. }
  rewrite observable_object_unfold.
  unfold bind at 1. unfold gets at 1. rewrite Hsrc. cbn [is_array].
  unfold bind at 1. unfold alloc at 1.
  set (st2 := (new_obj (mkObj false [] true ∅ None) st1).2).
  change (new_obj (mkObj false [] true ∅ None) st1) with (S (next_loc st), st2).
  cbv iota beta.
  assert (Hsrc2 : get_obj (next_loc st) st2 = mkObj false [("value", VUndef)] false ∅ None).
  { unfold st2. rewrite get_obj_new_obj_ne by (simpl; lia). exact Hsrc. }
  assert (Hproxy : get_obj (S (next_loc st)) st2 = mkObj false [] true ∅ None).
  { apply (get_obj_new_obj _ st1). }
  unfold bind at 1. unfold bind at 1. unfold gets at 1. rewrite Hsrc2.
  cbn [props fmap list_fmap fst copy_properties].
  unfold bind at 1. unfold read_property. rewrite Hsrc2. cbn [proxied].
  unfold bind at 1. rewrite proxy_set_unfold.
  unfold bind at 1. unfold gets at 1. rewrite Hproxy. reflexivity.
Qed.

(** [computed(() => obj[prop])] up to the point where it returns: the
    cache is the proxy at the second free location, the reaction has run
    once and is a member of the reaction-set of the field, and the cache
    holds what the field read. *)
Lemma computed_over_field_created
    (n : nat) (l : Loc) (prop : string) (s : SetRef) (old : Value)
    (k : Computed → Prog) (st : State) :
  l < next_loc st →
  s < next_set st →
  proxied (get_obj l st) = true →
  is_array (get_obj l st) = false →
  lookup_prop prop (props (get_obj l st)) = Some old →
  PROPERTY_REACTIONS (get_obj l st) !! prop = Some s →
  (∀ r, Some r ∉ get_set s st) →
  currentActionReactionSets st = None →
  is_object old = false →
  ∃ st1,
    run (S (S (S (S n)))) (computed (GetProp (VRef l) prop Ret) k) st
    = run (S (S (S (S n)))) (k (mkComputed (VRef (S (next_loc st))) (next_reaction st))) st1
    ∧ reactions st1 !! next_reaction st
      = Some (GetProp (VRef l) prop Ret,
              λ val, SetProp (VRef (S (next_loc st))) "value" val (Ret val))
    ∧ get_set s st1 = get_set s st ++ [Some (next_reaction st)]
    ∧ read_own (get_obj (S (next_loc st)) st1) "value" = old
    ∧ get_obj l st1 = get_obj l st
    ∧ quiet_cell (S (next_loc st)) (next_set st) st1
    ∧ effects_of (next_reaction st) (trace st1)
      = effects_of (next_reaction st) (trace st) ++ [old]
    ∧ currentActionReactionSets st1 = None
    ∧ currentlyTracking st1 = None
    ∧ next_set st ≤ next_set st1.
Proof.
  intros Hl Hs Hprox Harr Hold Hhandle Hempty Hb Hv.
  set (r := next_reaction st). set (cache := S (next_loc st)).
  set (t := GetProp (VRef l) prop Ret).
  set (e := λ val, SetProp (VRef cache) "value" val (Ret val)).
  set (sta := (new_obj (mkObj false [("value", VUndef)] false ∅ None) st).2).
  set (stb := (new_obj (mkObj false [] true ∅ None) sta).2).
  set (stc := (new_reaction t e stb).2).
  assert (Hobj : get_obj l stc = get_obj l st).
  { unfold stc. change (get_obj l (new_reaction t e stb).2) with (get_obj l stb).
    unfold stb. rewrite get_obj_new_obj_ne by (simpl; lia).
    unfold sta. by rewrite get_obj_new_obj_ne by lia. }
  assert (Hcache : get_obj cache stc = mkObj false [] true ∅ None).
  { unfold stc. change (get_obj cache (new_reaction t e stb).2) with (get_obj cache stb).
    apply (get_obj_new_obj _ sta). }
  assert (Hread : read_own (get_obj l st) prop = old).
  { unfold read_own. by rewrite Harr, Hold. }
  destruct (invoke_computed (S n) r l prop s cache (next_set st) stc)
    as (st1 & Hinv & Hset & Hval & Hobj1 & Hcell & Heff & Hb1 & Hfr1 & Hre1 & Hns1 & _).
  { unfold stc. simpl. by rewrite lookup_insert_eq. }
  { unfold cache. lia. }
  { by rewrite Hobj. }
  { by rewrite Hobj. }
  { by rewrite Hobj. }
  { by rewrite Hobj, Hread. }
  { done. }
  { done. }
  { unfold quiet_cell. rewrite Hcache. simpl. repeat split; try done.
    all: by rewrite lookup_empty in H. }
  { done. }
  exists st1. split; [| split; [| split; [| split; [| split]]]].
  - unfold run, computed. cbn [exec].
    unfold bind at 1. unfold alloc at 1.
    change (new_obj (mkObj false [("value", VUndef)] false ∅ None) st)
      with (next_loc st, sta). cbv iota beta.
    unfold bind at 1.
    pose proof (observable_cache (invoke (S (S (S (S n))))) n st) as Hobs.
    change (observable (invoke (S (S (S (S n))))) (S (S (S (S n)))) (VRef (next_loc st))
              None sta = Done (VRef cache) stb) in Hobs.
    rewrite Hobs.
    unfold bind at 1. unfold alloc at 1.
    change (new_reaction _ _ stb) with (r, stc). cbv iota beta.
    unfold bind at 1.
    change (invoke (S (S (S (S n)))) r stc = Done tt st1) in Hinv.
    by rewrite Hinv.
  - rewrite Hre1. unfold stc. simpl. by rewrite lookup_insert_eq.
  - rewrite Hset. change (get_set s stc) with (get_set s st).
    unfold JSSet.add, JSSet.has. by rewrite bool_decide_eq_false_2 by apply Hempty.
  - by rewrite Hval, Hobj, Hread.
  - by rewrite Hobj1.
  - split; [done |]. split.
    { rewrite Heff, Hobj, Hread. done. }
    split; [done |]. split; [done |]. unfold stc in Hns1. simpl in Hns1. exact Hns1.
Qed.

(** X20.  A computed over a field follows the field.  Let [obj] be a proxy
    of a plain object with a property [prop] that holds a value that is
    not an object and has a reaction-set without live member, outside any
    action; [prop] is not a name [Object.prototype] defines, and neither
    the object nor its [PROPERTY_REACTIONS] has an own property
    [hasOwnProperty].  [computed(() => obj[prop])] evaluates the function once, and
    calling the computed returns that value from the cache, without
    evaluating the function.  After [obj[prop] = value], for a value that
    is not an object and differs from the old one, the function has been
    evaluated once more and the computed returns the new value. *)
Theorem computed_follows_the_field
    (n : nat) (l : Loc) (prop : string) (s : SetRef) (old value : Value) (st : State) :
  l < next_loc st →
  s < next_set st →
  proxied (get_obj l st) = true →
  is_array (get_obj l st) = false →
  inherits_hasOwnProperty (get_obj l st) →
  prop ∉ Object_prototype_names →
  lookup_prop prop (props (get_obj l st)) = Some old →
  PROPERTY_REACTIONS (get_obj l st) !! prop = Some s →
  (∀ r, Some r ∉ get_set s st) →
  currentActionReactionSets st = None →
  is_object old = false →
  is_object value = false →
  strict_eq old value = false →
  length (get_set s st) + 4 ≤ n →
  (∃ st1,
     run n (computed (GetProp (VRef l) prop Ret) (λ c, call_computed c Ret)) st
     = Done old st1
     ∧ effects_of (next_reaction st) (trace st1)
       = effects_of (next_reaction st) (trace st) ++ [old])
  ∧ ∃ st2,
      run n (computed (GetProp (VRef l) prop Ret)
               (λ c, SetProp (VRef l) prop value (call_computed c Ret))) st
      = Done value st2
      ∧ effects_of (next_reaction st) (trace st2)
        = effects_of (next_reaction st) (trace st) ++ [old; value]
      ∧ read_own (get_obj l st2) prop = value.
Proof.
  intros Hl Hs Hprox Harr [Hhop _] _ Hold Hhandle Hempty Hb Hvold Hv Hne Hfuel.
  destruct n as [| [| [| [| n]]]]; try lia.
  set (r := next_reaction st). set (cell := S (next_loc st)).
  assert (Hread : read_own (get_obj l st) prop = old).
  { unfold read_own. by rewrite Harr, Hold. }
  assert (Hcall : ∀ st', currentlyTracking st' = None → is_array (get_obj cell st') = false →
    run (S (S (S (S n)))) (call_computed (mkComputed (VRef cell) r) Ret) st'
    = Done (read_own (get_obj cell st') "value") st').
  { intros st' Hfr Harr'. unfold run, call_computed. cbn [exec cache].
    unfold bind at 1. rewrite read_without_frame_or_handle; [done | by left |].
    by rewrite Harr'. }
  split.
  - destruct (computed_over_field_created n l prop s old (λ c, call_computed c Ret) st)
      as (st1 & -> & _ & _ & Hval & _ & (_ & Hcarr & _) & Heff & _ & Hfr & _); try done.
    exists st1. split; [| done].
    fold r cell. rewrite Hcall by done. unfold cell. by rewrite Hval.
  - destruct (computed_over_field_created n l prop s old
                (λ c, SetProp (VRef l) prop value (call_computed c Ret)) st)
      as (st1 & -> & Hcl & Hmem & Hval & Hobj & (Hcprox & Hcarr & Hcpar & Hchop & Hquiet)
          & Heff & Hb1 & Hfr & Hns); try done.
    fold r cell in Hcl, Hmem, Hval, Hcprox, Hcarr, Hcpar, Hchop, Hquiet, Heff |- *.
    (* the write, down to the assignment *)
    destruct (store_observable_primitive_heap (invoke (S (S (S (S n))))) (S (S n)) l prop
                value st1)
      as (stw & Hstore & Hobjw & Hothers & Hsets & Hnew & Htr & Hbw & _ & _ & Hre & _ & _
          & Hnsw); [by rewrite Hobj | done |].
    rewrite !Hobj, Hhandle in Hobjw, Hnew. simpl in Hobjw.
    rewrite insert_id in Hobjw by done.
    assert (Hown : hasOwnProperty (get_obj l st) prop = true).
    { unfold hasOwnProperty. by rewrite Harr, Hold. }
    rewrite Hobj, Hown in Hstore. cbn [negb] in Hstore.
    assert (Hsame : ∀ s0, get_set s0 stw = get_set s0 st1).
    { intros s0. destruct (decide (s0 = next_set st1)) as [-> | Hn]; [done |].
      by apply Hsets. }
    assert (Hobjw' : get_obj l stw = write_own prop value (get_obj l st)).
    { rewrite Hobjw. by destruct (get_obj l st). }
    assert (Hreadw : read_own (get_obj l stw) prop = value).
    { rewrite Hobjw'. unfold read_own, write_own. simpl. rewrite Harr. simpl.
      by rewrite lookup_assign_prop, decide_True. }
    (* the run of the reaction *)
    set (stp := log (EvPublish (Some s)) stw).
    destruct (invoke_computed (S n) r l prop s cell (next_set st) stp)
      as (stx & Hinv & Hsetx & Hvalx & Hobjx & (_ & Hcarrx & _) & Heffx & _ & Hfrx & _).
    { unfold stp. simpl. by rewrite Hre. }
    { unfold cell. lia. }
    { unfold stp. change (get_obj l (log ?e stw)) with (get_obj l stw).
      by rewrite Hobjw'. }
    { unfold stp. change (get_obj l (log ?e stw)) with (get_obj l stw).
      by rewrite Hobjw'. }
    { unfold stp. change (get_obj l (log ?e stw)) with (get_obj l stw).
      rewrite Hobjw'. unfold write_own. simpl. done. }
    { unfold stp. change (get_obj l (log ?e stw)) with (get_obj l stw).
      by rewrite Hreadw. }
    { done. }
    { unfold stp. simpl. lia. }
    { assert (Hc : get_obj cell stp = get_obj cell st1).
      { unfold stp. change (get_obj cell (log ?e stw)) with (get_obj cell stw).
        apply Hothers. unfold cell. lia. }
      unfold quiet_cell. rewrite Hc. repeat split; try done.
      - unfold stp. change (get_set c (log ?e stw)) with (get_set c stw).
        rewrite Hsame. by apply Hquiet.
      - by apply Hquiet. }
    { unfold stp. simpl. congruence. }
    assert (Hpub : publish (invoke (S (S (S (S n))))) (S (S (S n))) (Some s) stw
                   = Done tt stx).
    { apply (publish_to_single_member _ _ s r (get_set s st)).
      - by rewrite Hsame.
      - done.
      - congruence.
      - exact Hinv.
      - rewrite Hsetx. unfold stp. change (get_set s (log ?e stw)) with (get_set s stw).
        rewrite Hsame, Hmem. apply JSSetFacts.add_has. unfold JSSet.has.
        apply bool_decide_eq_true_2, elem_of_app. right. by apply list_elem_of_singleton.
      - lia. }
    exists stx. split; [| split].
    + unfold run. cbn [exec]. unfold bind at 1. unfold set_property.
      rewrite Hobj, Hprox. rewrite proxy_set_unfold.
      unfold bind at 1. unfold gets at 1. rewrite Hobj, Hread, Hne.
      change (negb false) with true. cbv iota.
      unfold bind at 1. rewrite Hstore.
      unfold bind at 1. unfold gets at 1.
      replace (PROPERTY_REACTIONS (get_obj l stw) !! prop) with (Some s)
        by (rewrite Hobjw'; unfold write_own; simpl; done).
      rewrite Hpub.
      fold (run (S (S (S (S n)))) (call_computed (mkComputed (VRef cell) r) Ret)).
      rewrite Hcall by done. rewrite Hvalx. unfold stp.
      change (get_obj l (log ?e stw)) with (get_obj l stw). by rewrite Hreadw.
    + rewrite Heffx. unfold stp. rewrite effects_of_log_publish, Htr, Heff.
      change (get_obj l (log ?e stw)) with (get_obj l stw). rewrite Hreadw.
      by rewrite <- app_assoc.
    + rewrite Hobjx. unfold stp. change (get_obj l (log ?e stw)) with (get_obj l stw).
      done.
Qed.

Lemma computed_follows_the_field_witness :
  (∃ st1,
     run 4 (computed (GetProp (VRef 1) "x" Ret) (λ c, call_computed c Ret)) counter_state
     = Done (VNum 0) st1
     ∧ effects_of (next_reaction counter_state) (trace st1)
       = effects_of (next_reaction counter_state) (trace counter_state) ++ [VNum 0])
  ∧ ∃ st2,
      run 4 (computed (GetProp (VRef 1) "x" Ret)
               (λ c, SetProp (VRef 1) "x" (VNum 5) (call_computed c Ret))) counter_state
      = Done (VNum 5) st2
      ∧ effects_of (next_reaction counter_state) (trace st2)
        = effects_of (next_reaction counter_state) (trace counter_state)
          ++ [VNum 0; VNum 5]
      ∧ read_own (get_obj 1 st2) "x" = VNum 5.
Proof.
  apply (computed_follows_the_field 4 1 "x" 0 (VNum 0) (VNum 5) counter_state).
  - vm_compute. lia.
  - vm_compute. lia.
  - reflexivity.
  - reflexivity.
  - split; vm_compute; reflexivity.
  - apply (bool_decide_unpack ("x" ∉ Object_prototype_names)). vm_compute. exact I.
  - reflexivity.
  - reflexivity.
  - intros r. vm_compute. intros H. inversion H.
  - reflexivity.
  - reflexivity.
  - reflexivity.
  - reflexivity.
  - vm_compute. lia.
Defined.

(** ** A property named [hasOwnProperty] *)

(** X21.  An own property [hasOwnProperty] breaks the [set] trap.  The trap
    asks [target.hasOwnProperty(prop)]; on a target that has an own
    property of that name, what the call finds is not a function.  Every
    assignment through the proxy of such an object (not an array) that
    would change the stored value then throws [TypeError] before anything
    is stored or published: the state is the one the assignment was made
    in. *)
Theorem write_throws_when_hasOwnProperty_is_shadowed
    (call : RId → M unit) (fuel : nat) (l : Loc) (prop : string) (value : Value)
    (k : Prog) (st : State) :
  proxied (get_obj l st) = true →
  is_array (get_obj l st) = false →
  hasOwnProperty (get_obj l st) "hasOwnProperty" = true →
  strict_eq (read_own (get_obj l st) prop) value = false →
  exec call (S fuel) (SetProp (VRef l) prop value k) st
  = Throws (TypeError "target.hasOwnProperty is not a function") st.
Proof.
  intros Hprox _ Hhop Hne. cbn [exec]. unfold bind at 1. unfold set_property.
  rewrite Hprox, proxy_set_unfold.
  unfold bind at 1. unfold gets at 1. rewrite Hne.
  change (negb false) with true. cbv beta iota.
  unfold bind at 1. unfold store_observable.
  unfold bind at 1. unfold not_hasOwnProperty at 1. by rewrite Hhop.
Qed.

Lemma write_throws_when_hasOwnProperty_is_shadowed_witness :
  read_own (get_obj 1 shadowed_state) "x" = VNum 0
  ∧ run 5 (SetProp (VRef 1) "x" (VNum 5) (Ret VUndef)) shadowed_state
    = Throws (TypeError "target.hasOwnProperty is not a function") shadowed_state.
Proof.
  split; [vm_compute; reflexivity |].
  apply (write_throws_when_hasOwnProperty_is_shadowed (invoke 5) 4 1 "x" (VNum 5)
           (Ret VUndef) shadowed_state).
  - reflexivity.
  - reflexivity.
  - reflexivity.
  - reflexivity.
Defined.

(** The same in [observable] itself: copying [{hasOwnProperty: 1, a: 2}]
    sets [hasOwnProperty] on the new target first, and the assignment of
    [a] throws. *)
Example observable_with_hasOwnProperty_key_throws :
  run 10 (Alloc false [("hasOwnProperty", VNum 1); ("a", VNum 2)]
            (λ lit, Observable lit Ret)) init
  = Throws (TypeError "target.hasOwnProperty is not a function")
      (final (run 10 (Alloc false [("hasOwnProperty", VNum 1); ("a", VNum 2)]
                        (λ lit, Observable lit Ret)) init))
  ∧ props (get_obj 1
             (final (run 10 (Alloc false [("hasOwnProperty", VNum 1); ("a", VNum 2)]
                               (λ lit, Observable lit Ret)) init)))
    = [("hasOwnProperty", VNum 1)].
Proof. vm_compute. split; reflexivity. Qed.
